(** * add_aiplugins_to_xcode.py: a shallow embedding and its properties

    The script registers Swift sources in an Xcode project descriptor
    (project.pbxproj) by editing the descriptor as text.  This file embeds
    the script function by function and states the properties of the
    discovery, synthesis and patching steps over that embedding.

    Python [str] values are modelled as lists of characters; the functions of
    the Python library the script calls ([str.replace], [str.endswith],
    [re.search] on the script's patterns, [os.walk], [sorted],
    [uuid.uuid4]) are modelled next to the code that uses them. *)

From Stdlib Require Import String.
From Stdlib Require Import List Ascii NArith Arith Bool Lia.
From Stdlib Require Sorted Permutation.
Import ListNotations.

Set Implicit Arguments.

(** ** Text *)

Module Text.

Definition str := list ascii.

Definition lit (s : string) : str := list_ascii_of_string s.
Arguments lit s%_string.

Definition TAB : ascii := ascii_of_nat 9.
Definition NL : ascii := ascii_of_nat 10.
Definition DQUOTE : ascii := ascii_of_nat 34.

Definition str_eqb (a b : str) : bool :=
  if list_eq_dec ascii_dec a b then true else false.

(** [s.startswith(p)] *)
Fixpoint startswith (p s : str) : bool :=
  match p, s with
  | [], _ => true
  | _ :: _, [] => false
  | a :: p', b :: s' => Ascii.eqb a b && startswith p' s'
  end.

(** [s.endswith(p)] *)
Definition endswith (p s : str) : bool := startswith (rev p) (rev s).

(** [s.find(p)]: index of the first occurrence of [p] in [s]. *)
Fixpoint find (p s : str) : option nat :=
  if startswith p s then Some 0
  else match s with
       | [] => None
       | _ :: s' => option_map S (find p s')
       end.

(** [p in s] *)
Definition contains (p s : str) : bool :=
  match find p s with Some _ => true | None => false end.

(** [s.replace(old, new)] for a non-empty [old]: every occurrence, scanning
    from the left, occurrences not overlapping.  [skip] counts the
    characters of the occurrence just replaced that are still to be
    dropped. *)
Fixpoint replace_go (old new : str) (skip : nat) (s : str) : str :=
  match s with
  | [] => []
  | c :: s' =>
      match skip with
      | S k => replace_go old new k s'
      | O => if startswith old s
             then new ++ replace_go old new (pred (length old)) s'
             else c :: replace_go old new 0 s'
      end
  end.

(** [s.replace(old, new)], no count given: all occurrences.  With an empty
    [old] Python inserts [new] before every character and at the end. *)
Definition replace (old new s : str) : str :=
  match old with
  | [] => new ++ flat_map (fun c => c :: new) s
  | _ :: _ => replace_go old new 0 s
  end.

(** [sep.join(parts)] *)
Fixpoint join (sep : str) (parts : list str) : str :=
  match parts with
  | [] => []
  | [x] => x
  | x :: rest => x ++ sep ++ join sep rest
  end.

(** Number of (possibly overlapping) occurrences of [p] in [s]. *)
Fixpoint occurrences (p s : str) : nat :=
  (if startswith p s then 1 else 0) +
  match s with
  | [] => 0
  | _ :: s' => occurrences p s'
  end.

(** Comparison of Python strings: lexicographic on code points; on UTF-8
    bytes this is the order of the byte values. *)
Fixpoint str_leb (a b : str) : bool :=
  match a, b with
  | [], _ => true
  | _ :: _, [] => false
  | x :: a', y :: b' =>
      if (nat_of_ascii x <? nat_of_ascii y)%nat then true
      else if (nat_of_ascii y <? nat_of_ascii x)%nat then false
      else str_leb a' b'
  end.

Section Sorted.

Variable A : Type.
Variable leb : A -> A -> bool.

(** Stable insertion: [x] goes after the elements that are [<=] it. *)
Fixpoint insert_sorted (x : A) (l : list A) : list A :=
  match l with
  | [] => [x]
  | y :: l' => if leb y x then y :: insert_sorted x l' else x :: l
  end.

(** [sorted(l)]: a stable sort. *)
Definition sorted (l : list A) : list A :=
  fold_left (fun acc x => insert_sorted x acc) l [].

End Sorted.

(** [os.path.basename(p)] on POSIX: what follows the last slash. *)
Fixpoint basename_go (acc p : str) : str :=
  match p with
  | [] => acc
  | c :: p' => if Ascii.eqb c "/"%char then basename_go p' p' else basename_go acc p'
  end.

Definition basename (p : str) : str := basename_go p p.

End Text.

Import Text.

(** ** Identifier generator: [generate_uuid] (lines 10-12) *)

Module Uuid.

(** [uuid.uuid4()]: sixteen bytes of [os.urandom] read as a big-endian
    integer, then the variant bits (63-62 := 10) and the version nibble
    (bits 79-76 := 4) are forced, as [UUID.__init__(bytes=..., version=4)]
    does.  [r] is the draw of the random source. *)
Definition uuid4_int (r : N) : N :=
  let i := N.land r (N.ones 128) in
  let i := N.ldiff i (N.shiftl 0xc000 48) in
  let i := N.lor i (N.shiftl 0x8000 48) in
  let i := N.ldiff i (N.shiftl 0xf000 64) in
  N.lor i (N.shiftl 4 76).

Definition hex_digit (d : N) : ascii :=
  nth (N.to_nat d) (lit "0123456789abcdef") "0"%char.

(** [UUID.hex]: ['%032x' % int]. *)
Definition hex32 (n : N) : str :=
  map (fun k => hex_digit (N.land (N.shiftr n (4 * N.of_nat k)) 15))
      (rev (seq 0 32)).

(** [c.upper()] on the characters a hexadecimal rendering can hold. *)
Definition upper_char (c : ascii) : ascii :=
  let n := nat_of_ascii c in
  if (97 <=? n)%nat && (n <=? 122)%nat then ascii_of_nat (n - 32) else c.

Definition upper (s : str) : str := map upper_char s.

(** [uuid.uuid4().hex[:24].upper()] *)
Definition generate_uuid (r : N) : str :=
  upper (firstn 24 (hex32 (uuid4_int r))).

(** The character class [[A-F0-9]] of the pattern on line 146. *)
Definition is_upper_hex (c : ascii) : bool :=
  let n := nat_of_ascii c in
  ((48 <=? n)%nat && (n <=? 57)%nat) || ((65 <=? n)%nat && (n <=? 70)%nat).

End Uuid.

(** ** Directory trees and [os.walk] *)

Module Walk.

(** A directory entry is a file or a directory; a directory lists its
    entries in the order [os.scandir] returns them and may be unreadable. *)
#[warnings="-register-all"] Inductive node : Type :=
| File
| Dir (readable : bool) (entries : list (str * node)).

Definition is_dir (n : node) : bool :=
  match n with Dir _ _ => true | File => false end.

(** [os.path.join(a, b)] on POSIX for two components. *)
Definition path_join (a b : str) : str :=
  if startswith (lit "/") b then b
  else match a with
       | [] => b
       | _ => if endswith (lit "/") a then a ++ b else a ++ lit "/" ++ b
       end.

(** [os.walk(top)], top-down, [onerror=None]: an error of [os.scandir]
    (a missing path, a path that is not a directory, an unreadable
    directory) is ignored and nothing is yielded for that directory.
    Each triple is [(root, dirs, files)]; after a triple is yielded the
    walk goes on into every directory of [dirs]: the caller did not
    remove any name from [dirs]. *)
Fixpoint walk (top : str) (n : node) : list (str * list str * list str) :=
  match n with
  | File => []
  | Dir false _ => []
  | Dir true entries =>
      (top,
       map fst (filter (fun e => is_dir (snd e)) entries),
       map fst (filter (fun e => negb (is_dir (snd e))) entries))
      :: (fix descend (es : list (str * node)) : list (str * list str * list str) :=
            match es with
            | [] => []
            | (name, child) :: es' =>
                (if is_dir child then walk (path_join top name) child else [])
                ++ descend es'
            end) entries
  end.

(** [os.walk] on a path that may not exist. *)
Definition os_walk (top : str) (at_top : option node) : list (str * list str * list str) :=
  match at_top with
  | Some n => walk top n
  | None => []
  end.

(** [p.split('/')] *)
Fixpoint split_slash (cur : str) (p : str) : list str :=
  match p with
  | [] => [rev cur]
  | c :: p' => if Ascii.eqb c "/"%char then rev cur :: split_slash [] p'
               else split_slash (c :: cur) p'
  end.

(** [[x for x in abspath(p).split(sep) if x]] for an absolute path that
    holds no [..] component: [normpath] drops empty and [.] components. *)
Definition components (p : str) : list str :=
  filter (fun x => negb (str_eqb x []) && negb (str_eqb x (lit ".")))
         (split_slash [] p).

Fixpoint common_prefix_length (a b : list str) : nat :=
  match a, b with
  | x :: a', y :: b' => if str_eqb x y then S (common_prefix_length a' b') else 0
  | _, _ => 0
  end.

(** [os.path.relpath(path, start)] (posixpath), both absolute. *)
Definition relpath (path start : str) : str :=
  let start_list := components start in
  let path_list := components path in
  let i := common_prefix_length start_list path_list in
  let rel_list := repeat (lit "..") (List.length start_list - i) ++ skipn i path_list in
  match rel_list with
  | [] => lit "."
  | _ => join (lit "/") rel_list
  end.

End Walk.

Import Walk.

(** ** File discovery (lines 14-44) *)

Module Discovery.

(** [find_all_swift_files(directory)] *)
Definition find_all_swift_files (directory : str) (tree : option node) : list str :=
  sorted str_leb
    (flat_map
       (fun t : str * list str * list str =>
          let '(root, _, files) := t in
          flat_map
            (fun file =>
               if endswith (lit ".swift") file
               then [relpath (path_join root file) directory]
               else [])
            files)
       (os_walk directory tree)).

Definition extensions : list str :=
  [lit ".lproj"; lit ".strings"; lit ".js"; lit ".py"; lit ".json"; lit ".icns"].

(** Order of the tuples [(rel_path, kind)]: first component, then second. *)
Definition pair_leb (a b : str * str) : bool :=
  if str_eqb (fst a) (fst b) then str_leb (snd a) (snd b)
  else str_leb (fst a) (fst b).

(** [find_all_resource_files(directory)].  The [continue] of line 35 ends
    the handling of the yielded triple only. *)
Definition find_all_resource_files (directory : str) (tree : option node)
  : list (str * str) :=
  sorted pair_leb
    (flat_map
       (fun t : str * list str * list str =>
          let '(root, _, files) := t in
          if endswith (lit ".lproj") root
          then [(relpath root directory, lit "folder")]
          else
            flat_map
              (fun file =>
                 if existsb (fun ext => endswith ext file) extensions
                 then [(relpath (path_join root file) directory, lit "file")]
                 else [])
              files)
       (os_walk directory tree)).

End Discovery.

Import Discovery.

(** ** [re.search] on the script's patterns *)

Module Regex.

(** The patterns of the script are sequences of these items. *)
Inductive item : Type :=
| Lit (s : str)                          (* literal text, escapes resolved *)
| LazyAny                                (* [.*?] under [re.DOTALL] *)
| Repeat (cls : ascii -> bool) (n : nat) (* [[cls]{n}] *)
| Open                                   (* [(] *)
| Close.                                 (* [)] *)

(** Matcher state: position in the subject, number of groups opened so
    far, start positions of the groups still open, spans of the groups
    closed (group number, start, end). *)
Record mstate : Type := MState {
  pos : nat;
  opened_count : nat;
  open_groups : list (nat * nat);
  spans : list (nat * (nat * nat))
}.

Definition advance (k : nat) (st : mstate) : mstate :=
  MState (pos st + k) (opened_count st) (open_groups st) (spans st).

Definition open_group (st : mstate) : mstate :=
  MState (pos st) (S (opened_count st))
         ((S (opened_count st), pos st) :: open_groups st) (spans st).

Definition close_group (st : mstate) : mstate :=
  match open_groups st with
  | [] => st
  | (g, start) :: more =>
      MState (pos st) (opened_count st) more ((g, (start, pos st)) :: spans st)
  end.

(** Backtracking match of [items] at the head of [s].  A lazy [.*?] first
    tries the rest of the pattern and takes one more character only when
    that fails. *)
Fixpoint match_here (items : list item) (s : str) (st : mstate) {struct items}
  : option mstate :=
  match items with
  | [] => Some st
  | Lit l :: rest =>
      if startswith l s
      then match_here rest (skipn (List.length l) s) (advance (List.length l) st)
      else None
  | Repeat cls n :: rest =>
      if (n <=? List.length s)%nat && forallb cls (firstn n s)
      then match_here rest (skipn n s) (advance n st)
      else None
  | Open :: rest => match_here rest s (open_group st)
  | Close :: rest => match_here rest s (close_group st)
  | LazyAny :: rest =>
      (fix lazy (s : str) (st : mstate) {struct s} : option mstate :=
         match match_here rest s st with
         | Some r => Some r
         | None =>
             match s with
             | [] => None
             | _ :: s' => lazy s' (advance 1 st)
             end
         end) s st
  end.

(** The loop of [.*?] in [match_here], on its own. *)
Fixpoint lazy_loop (rest : list item) (s : str) (st : mstate) {struct s} : option mstate :=
  match match_here rest s st with
  | Some r => Some r
  | None =>
      match s with
      | [] => None
      | _ :: s' => lazy_loop rest s' (advance 1 st)
      end
  end.

(** Scan for the leftmost start position that matches. *)
Fixpoint search_from (items : list item) (s : str) (start : nat) : option mstate :=
  match match_here items s (MState start 0 [] []) with
  | Some st => Some st
  | None =>
      match s with
      | [] => None
      | _ :: s' => search_from items s' (S start)
      end
  end.

(** A match object: the subject and the group spans. *)
Record match_object : Type := MatchObject {
  subject : str;
  group_spans : list (nat * (nat * nat))
}.

(** [re.search(pattern, s)] *)
Definition search (items : list item) (s : str) : option match_object :=
  option_map (fun st => MatchObject s (spans st)) (search_from items s 0).

Fixpoint lookup_span (g : nat) (l : list (nat * (nat * nat))) : option (nat * nat) :=
  match l with
  | [] => None
  | (g', sp) :: l' => if (g =? g')%nat then Some sp else lookup_span g l'
  end.

(** [m.group(g)] for a group that took part in the match. *)
Definition group (m : match_object) (g : nat) : str :=
  match lookup_span g (group_spans m) with
  | Some (a, b) => firstn (b - a) (skipn a (subject m))
  | None => []
  end.

End Regex.

Import Regex.

(** ** The script (lines 46-171) *)

Module Script.

(** *** The world the script runs in *)

Inductive exn : Type :=
| OSError (path : str)
| UnicodeEncodeError (code_point : N).

(** The three places of the file system the script touches (the paths are
    constants of the script), and the console it prints to. *)
Record world : Type := World {
  pbxproj : option str;        (* text of project.pbxproj; [None]: it cannot be opened for reading *)
  pbxproj_writable : bool;     (* whether [open(path, 'w')] succeeds *)
  aiplugins_tree : option node;  (* sources/AIPlugins; [None]: no such path *)
  resources_tree : option node;  (* Resources/AIPlugins; [None]: no such path *)
  stdout_encodes : N -> bool;  (* the characters beyond ASCII that [sys.stdout] can encode *)
  write_breaks : option (nat * exn)
    (* [Some (k, e)]: [f.write] or the closing of the file raises [e] when
       [k] characters have reached the file; [None]: the text is written *)
}.

(** What the script prints, one constructor per [print] call. *)
Inductive line : Type :=
| ReadingProject                 (* line 61 *)
| ScanningSources                (* line 69 *)
| FoundSources (n : nat)         (* line 71 *)
| ScanningResources              (* line 73 *)
| FoundResources (n : nat)       (* line 75 *)
| ModifyingProject               (* line 107 *)
| AddedFileReferences            (* line 115 *)
| AddedBuildFiles                (* line 123 *)
| AddedToSourcesGroup            (* line 133 *)
| AddedToSourcesPhase            (* line 153 *)
| SavingProject                  (* line 156 *)
| ProjectUpdated                 (* line 158 *)
| Completed                      (* line 160 *)
| Statistics                     (* line 161 *)
| SourcesAdded (n : nat)         (* line 162 *)
| ResourcesAdded (n : nat)       (* line 163 *)
| ErrorMessage (e : exn)         (* line 169 *)
| Traceback (e : exn).           (* line 171, and the interpreter's report of
                                    an exception that nothing handles; both
                                    go to [sys.stderr] *)

(** The characters beyond ASCII of the text a [print] call writes, as
    code points.  ([str(e)] is ASCII for the exceptions of the script: the
    path is, and so is the message of a [UnicodeEncodeError].) *)
Definition glyphs (l : line) : list N :=
  match l with
  | ReadingProject => ([0x1f4c1; 0x8bfb; 0x53d6; 0x9879; 0x76ee; 0x6587; 0x4ef6])%N
  | ScanningSources => ([0x1f50d; 0x626b; 0x63cf; 0x6e90; 0x6587; 0x4ef6])%N
  | FoundSources _ => ([0x627e; 0x5230; 0x4e2a; 0x6587; 0x4ef6])%N
  | ScanningResources => ([0x1f50d; 0x626b; 0x63cf; 0x8d44; 0x6e90; 0x6587; 0x4ef6])%N
  | FoundResources _ => ([0x627e; 0x5230; 0x4e2a; 0x8d44; 0x6e90; 0x6587; 0x4ef6; 0x76ee; 0x5f55])%N
  | ModifyingProject => ([0x270f; 0xfe0f; 0x4fee; 0x6539; 0x9879; 0x76ee; 0x6587; 0x4ef6])%N
  | AddedFileReferences => ([0x2713; 0x6dfb; 0x52a0; 0x6587; 0x4ef6; 0x5f15; 0x7528])%N
  | AddedBuildFiles => ([0x2713; 0x6dfb; 0x52a0; 0x7f16; 0x8bd1; 0x5f15; 0x7528])%N
  | AddedToSourcesGroup => ([0x2713; 0x6dfb; 0x52a0; 0x5230; 0x7ec4])%N
  | AddedToSourcesPhase => ([0x2713; 0x6dfb; 0x52a0; 0x5230; 0x7f16; 0x8bd1; 0x9636; 0x6bb5])%N
  | SavingProject => ([0x1f4be; 0x4fdd; 0x5b58; 0x9879; 0x76ee; 0x6587; 0x4ef6])%N
  | ProjectUpdated => ([0x2713; 0x9879; 0x76ee; 0x6587; 0x4ef6; 0x5df2; 0x66f4; 0x65b0])%N
  | Completed => ([0x2705; 0x5b8c; 0x6210; 0xff01])%N
  | Statistics => ([0x1f4ca; 0x7edf; 0x8ba1])%N
  | SourcesAdded _ => ([0x6dfb; 0x52a0; 0x6e90; 0x6587; 0x4ef6; 0x4e2a])%N
  | ResourcesAdded _ => ([0x6dfb; 0x52a0; 0x8d44; 0x6e90; 0x4e2a])%N
  | ErrorMessage _ => ([0x274c; 0x9519; 0x8bef])%N
  | Traceback _ => ([])%N
  end.

(** The first character of a text that the console cannot encode. *)
Fixpoint first_unencodable (encodes : N -> bool) (text : list N) : option N :=
  match text with
  | [] => None
  | c :: text' => if encodes c then first_unencodable encodes text' else Some c
  end.

Record state : Type := State {
  the_world : world;
  draws : nat;            (* how many values were read from the random source *)
  console : list line     (* printed lines, oldest first *)
}.

(** Computations that read and change the state and may raise. *)
Definition M (A : Type) : Type := state -> (exn + A) * state.

Definition ret {A} (a : A) : M A := fun st => (inr a, st).

Definition bind {A B} (m : M A) (k : A -> M B) : M B :=
  fun st =>
    match m st with
    | (inr a, st') => k a st'
    | (inl e, st') => (inl e, st')
    end.

Definition raise {A} (e : exn) : M A := fun st => (inl e, st).

Definition try_except {A} (body : M A) (handler : exn -> M A) : M A :=
  fun st =>
    match body st with
    | (inr a, st') => (inr a, st')
    | (inl e, st') => handler e st'
    end.

(** [print(text)]: the text is encoded as a whole before anything is
    written; a character [sys.stdout] cannot encode raises
    [UnicodeEncodeError] and nothing is printed. *)
Definition print (l : line) : M unit :=
  fun st =>
    match first_unencodable (stdout_encodes (the_world st)) (glyphs l) with
    | None => (inr tt, State (the_world st) (draws st) (console st ++ [l]))
    | Some c => (inl (UnicodeEncodeError c), st)
    end.

(** [traceback.print_exc()]: the report goes to [sys.stderr], which
    escapes what it cannot encode. *)
Definition print_exc (e : exn) : M unit :=
  fun st => (inr tt, State (the_world st) (draws st) (console st ++ [Traceback e])).

Declare Scope script_scope.
Delimit Scope script_scope with script.
Notation "x <- m ;; k" := (bind m (fun x => k))
  (at level 61, m at next level, right associativity) : script_scope.
Notation "m ;; k" := (bind m (fun _ => k))
  (at level 61, right associativity) : script_scope.
Local Open Scope script_scope.

Section WithRandomSource.

(** The operating system's random source: the [k]-th value read. *)
Variable urandom : nat -> N.

(** [generate_uuid()] *)
Definition generate_uuid : M str :=
  fun st =>
    (inr (Uuid.generate_uuid (urandom (draws st))),
     State (the_world st) (S (draws st)) (console st)).

Definition project_root : str := lit "/Users/xcl/rime/squirrel_llm".
Definition pbxproj_path : str := project_root ++ lit "/Squirrel.xcodeproj/project.pbxproj".
Definition aiplugins_dir : str := project_root ++ lit "/sources/AIPlugins".
Definition resources_dir : str := project_root ++ lit "/Resources/AIPlugins".

(** [read_pbxproj(path)] *)
Definition read_pbxproj : M str :=
  fun st =>
    match pbxproj (the_world st) with
    | Some text => (inr text, st)
    | None => (inl (OSError pbxproj_path), st)
    end.

(** The world with another text in the descriptor. *)
Definition with_pbxproj (w : world) (text : str) : world :=
  World (Some text) (pbxproj_writable w) (aiplugins_tree w) (resources_tree w)
        (stdout_encodes w) (write_breaks w).

(** [write_pbxproj(path, content)]: [open(path, 'w')] raises and leaves
    the file as it is, or empties the file; the writing of the text and the
    closing of the file then go through, or raise with only the beginning of
    the text in the file. *)
Definition write_pbxproj (content : str) : M unit :=
  fun st =>
    let w := the_world st in
    if pbxproj_writable w
    then match write_breaks w with
         | None =>
             (inr tt, State (with_pbxproj w content) (draws st) (console st))
         | Some (k, e) =>
             (inl e, State (with_pbxproj w (firstn k content)) (draws st) (console st))
         end
    else (inl (OSError pbxproj_path), st).

(** *** Record synthesis (lines 77-104) *)

Definition wm_name : str := lit "AIPluginWindowManager.swift".

(** The PBXFileReference line of lines 85 and 100. *)
Definition file_reference_line (uuid name path : str) : str :=
  [TAB; TAB] ++ uuid ++ lit " /* " ++ name
  ++ lit " */ = {isa = PBXFileReference; lastKnownFileType = sourcecode.swift; name = "
  ++ name ++ lit "; path = " ++ path
  ++ lit "; sourceTree = " ++ [DQUOTE] ++ lit "<group>" ++ [DQUOTE] ++ lit "; };".

(** The PBXBuildFile line of lines 88 and 103. *)
Definition build_file_line (uuid name file_ref : str) : str :=
  [TAB; TAB] ++ uuid ++ lit " /* " ++ name
  ++ lit " in Sources */ = {isa = PBXBuildFile; fileRef = " ++ file_ref
  ++ lit " /* " ++ name ++ lit " */; };".

(** The loop of lines 93-104.  ([swift_uuid_map] is filled on line 97 and
    never read; it is left out.) *)
Fixpoint synthesize_swift (swift_files : list str)
    (file_references build_file_refs : list str) : M (list str * list str) :=
  match swift_files with
  | [] => ret (file_references, build_file_refs)
  | swift_file :: rest =>
      let file_name := basename swift_file in
      file_uuid <- generate_uuid ;;
      build_uuid <- generate_uuid ;;
      synthesize_swift rest
        (file_references ++
           [file_reference_line file_uuid file_name (lit "sources/AIPlugins/" ++ swift_file)])
        (build_file_refs ++ [build_file_line build_uuid file_name file_uuid])
  end.

(** Lines 77-104: the two lists of record lines, and the identifiers of
    the window manager's two records. *)
Definition synthesize (swift_files : list str) : M (str * str * list str * list str) :=
  wm_uuid <- generate_uuid ;;
  wm_build_uuid <- generate_uuid ;;
  records <- synthesize_swift swift_files
               [file_reference_line wm_uuid wm_name (lit "sources/AIPluginWindowManager.swift")]
               [build_file_line wm_build_uuid wm_name wm_uuid] ;;
  ret (wm_uuid, wm_build_uuid, fst records, snd records).

(** *** Patching (lines 106-153) *)

Definition ref_section_pattern : list item :=
  [Open; Lit (lit "/* Begin PBXFileReference section */"); LazyAny; Close;
   Open; Lit (NL :: lit "/* End PBXFileReference section */"); Close].

Definition build_section_pattern : list item :=
  [Open; Lit (lit "/* Begin PBXBuildFile section */"); LazyAny; Close;
   Open; Lit (NL :: lit "/* End PBXBuildFile section */"); Close].

Definition sources_group_pattern : list item :=
  [Open; Lit (lit "080E96DDFE201D6D7F000001 /* Sources */ = {"); LazyAny;
   Lit (lit "children = ("); Close;
   Open; LazyAny; Close;
   Open; Lit (lit ");"); Close].

Definition sources_phase_pattern : list item :=
  [Open; Lit (lit "8D11072C0486CEB800E47090 /* Sources */ = {"); LazyAny;
   Lit (lit "files = ("); Close;
   Open; LazyAny; Close;
   Open; Lit (lit ");"); Close].

Definition uuid_pattern : list item :=
  [Open; Repeat Uuid.is_upper_hex 24; Close].

(** Lines 110-114 and 118-122: [None] when the pattern does not match. *)
Definition patch_section (pattern : list item) (content : str) (lines : list str)
  : option str :=
  match search pattern content with
  | Some section_match =>
      let old_content := group section_match 1 in
      let new_content := old_content ++ [NL] ++ join [NL] lines ++ [NL] in
      Some (replace (group section_match 1) new_content content)
  | None => None
  end.

(** The entry of a membership list (lines 130, 140, 148). *)
Definition list_entry (uuid comment : str) : str :=
  [NL; TAB; TAB; TAB; TAB] ++ uuid ++ lit " /* " ++ comment ++ lit " */,".

(** Lines 126-132. *)
Definition patch_sources_group (content wm_uuid : str) : option str :=
  match search sources_group_pattern content with
  | Some sources_group_match =>
      let children := group sources_group_match 2 in
      let new_child := list_entry wm_uuid wm_name in
      let new_children := children ++ new_child in
      Some (replace (group sources_group_match 2) new_children content)
  | None => None
  end.

(** The inner loop of lines 144-149: the first line of [build_file_refs]
    that contains [file_name] and [' in Sources '] ends the loop; an entry
    is appended when a 24-digit run is found in that line. *)
Fixpoint phase_entry_for (file_name : str) (build_file_refs : list str) : list str :=
  match build_file_refs with
  | [] => []
  | ref :: more =>
      if contains file_name ref && contains (lit " in Sources ") ref
      then match search uuid_pattern ref with
           | Some uuid_match =>
               [list_entry (group uuid_match 1) (file_name ++ lit " in Sources")]
           | None => []
           end
      else phase_entry_for file_name more
  end.

(** Lines 140-149. *)
Definition new_files_list (swift_files build_file_refs : list str) (wm_build_uuid : str)
  : list str :=
  [list_entry wm_build_uuid (wm_name ++ lit " in Sources")]
  ++ flat_map (fun swift_file => phase_entry_for (basename swift_file) build_file_refs)
              swift_files.

(** Lines 136-152. *)
Definition patch_sources_phase (content : str) (swift_files build_file_refs : list str)
    (wm_build_uuid : str) : option str :=
  match search sources_phase_pattern content with
  | Some sources_phase_match =>
      let files := group sources_phase_match 2 in
      let new_files := files ++ concat (new_files_list swift_files build_file_refs wm_build_uuid) in
      Some (replace (group sources_phase_match 2) new_files content)
  | None => None
  end.

(** [if m: content = ...; print(...)]: nothing is printed and [content]
    stays as it is when there is no match. *)
Definition apply_patch (patched : option str) (content : str) (done : line) : M str :=
  match patched with
  | Some content' => print done ;; ret content'
  | None => ret content
  end.

(** The four patches in the order of the script, on the text alone. *)
Definition patch_all (content : str) (swift_files file_references build_file_refs : list str)
    (wm_uuid wm_build_uuid : str) : M str :=
  content <- apply_patch (patch_section ref_section_pattern content file_references)
                         content AddedFileReferences ;;
  content <- apply_patch (patch_section build_section_pattern content build_file_refs)
                         content AddedBuildFiles ;;
  content <- apply_patch (patch_sources_group content wm_uuid)
                         content AddedToSourcesGroup ;;
  apply_patch (patch_sources_phase content swift_files build_file_refs wm_build_uuid)
              content AddedToSourcesPhase.

(** *** [add_files_to_project()] *)

Definition get_world : M world := fun st => (inr (the_world st), st).

Definition add_files_to_project : M unit :=
  print ReadingProject ;;
  content <- read_pbxproj ;;
  w <- get_world ;;
  print ScanningSources ;;
  let swift_files := find_all_swift_files aiplugins_dir (aiplugins_tree w) in
  print (FoundSources (List.length swift_files)) ;;
  print ScanningResources ;;
  let resource_files := find_all_resource_files resources_dir (resources_tree w) in
  print (FoundResources (List.length resource_files)) ;;
  records <- synthesize swift_files ;;
  let '(wm_uuid, wm_build_uuid, file_references, build_file_refs) := records in
  print ModifyingProject ;;
  content <- patch_all content swift_files file_references build_file_refs
                       wm_uuid wm_build_uuid ;;
  print SavingProject ;;
  write_pbxproj content ;;
  print ProjectUpdated ;;
  print Completed ;;
  print Statistics ;;
  print (SourcesAdded (List.length swift_files + 1)) ;;
  print (ResourcesAdded (List.length resource_files)).

(** *** The [__main__] block (lines 165-171) *)

Definition main : M unit :=
  try_except add_files_to_project
    (fun e => print (ErrorMessage e) ;; print_exc e).

(** The interpreter's exit status: 0 when the module body ends, 1 when an
    exception leaves it. *)
Definition exit_status (outcome : exn + unit) : nat :=
  match outcome with
  | inr _ => 0
  | inl _ => 1
  end.

(** What the interpreter writes to [sys.stderr] when an exception leaves
    the module body. *)
Definition unhandled (outcome : exn + unit) : list line :=
  match outcome with
  | inr _ => []
  | inl e => [Traceback e]
  end.

Record run_result : Type := RunResult {
  status : nat;
  final_world : world;
  printed : list line
}.

(** One run of the script as a program. *)
Definition run (w : world) : run_result :=
  let '(outcome, st) := main (State w 0 []) in
  RunResult (exit_status outcome) (the_world st) (console st ++ unhandled outcome).

End WithRandomSource.

End Script.

Import Script.

(** ** Reading a descriptor: regions and their entries *)

Module Regions.

(** The four regions the script patches. *)
Inductive region : Type :=
| FileReferenceSection
| BuildFileSection
| SourcesGroup
| SourcesPhase.

Definition pattern_of (r : region) : list item :=
  match r with
  | FileReferenceSection => ref_section_pattern
  | BuildFileSection => build_section_pattern
  | SourcesGroup => sources_group_pattern
  | SourcesPhase => sources_phase_pattern
  end.

(** The text that locates a region: the first literal of its pattern. *)
Definition anchor_of (r : region) : str :=
  match r with
  | FileReferenceSection => lit "/* Begin PBXFileReference section */"
  | BuildFileSection => lit "/* Begin PBXBuildFile section */"
  | SourcesGroup => lit "080E96DDFE201D6D7F000001 /* Sources */ = {"
  | SourcesPhase => lit "8D11072C0486CEB800E47090 /* Sources */ = {"
  end.

(** The group of the pattern that the script replaces. *)
Definition captured_group (r : region) : nat :=
  match r with
  | FileReferenceSection | BuildFileSection => 1
  | SourcesGroup | SourcesPhase => 2
  end.

Definition done_line (r : region) : line :=
  match r with
  | FileReferenceSection => AddedFileReferences
  | BuildFileSection => AddedBuildFiles
  | SourcesGroup => AddedToSourcesGroup
  | SourcesPhase => AddedToSourcesPhase
  end.

(** The text of a region of a descriptor, as the script's pattern captures it. *)
Definition region_text (r : region) (content : str) : option str :=
  option_map (fun m => group m (captured_group r)) (search (pattern_of r) content).

(** The patch of one region, with the arguments the script gives it. *)
Definition patch_region (r : region) (content : str)
    (swift_files file_references build_file_refs : list str)
    (wm_uuid wm_build_uuid : str) : option str :=
  match r with
  | FileReferenceSection => patch_section ref_section_pattern content file_references
  | BuildFileSection => patch_section build_section_pattern content build_file_refs
  | SourcesGroup => patch_sources_group content wm_uuid
  | SourcesPhase => patch_sources_phase content swift_files build_file_refs wm_build_uuid
  end.


(** [s.split('\n')] *)
Fixpoint split_lines (cur : str) (s : str) : list str :=
  match s with
  | [] => [rev cur]
  | c :: s' => if Ascii.eqb c NL then rev cur :: split_lines [] s'
               else split_lines (c :: cur) s'
  end.

(** A line without its indentation (leading tabs and spaces). *)
Fixpoint strip_indent (s : str) : str :=
  match s with
  | c :: s' => if Ascii.eqb c TAB || Ascii.eqb c " "%char then strip_indent s' else s
  | [] => []
  end.

(** The entries of a region: its lines without their indentation, blank
    lines and the line of the section's begin marker left out. *)
Definition entries_of (r : region) (content : str) : list str :=
  match region_text r content with
  | Some text =>
      filter (fun l => negb (str_eqb l []) && negb (str_eqb l (anchor_of r)))
             (map strip_indent (split_lines [] text))
  | None => []
  end.

(** A synthesized line as it shows among the entries of a region. *)
Definition as_entry (record_line : str) : str :=
  strip_indent (match record_line with
              | c :: rest => if Ascii.eqb c NL then rest else record_line
              | [] => []
              end).

(** The regions in the order the script patches them. *)
Definition all_regions : list region :=
  [FileReferenceSection; BuildFileSection; SourcesGroup; SourcesPhase].

(** The four patches as a function of the text: the text after them and
    the lines printed on the way. *)
Fixpoint patch_regions (rs : list region) (content : str)
    (swift_files file_references build_file_refs : list str)
    (wm_uuid wm_build_uuid : str) : str * list line :=
  match rs with
  | [] => (content, [])
  | r :: rs' =>
      match patch_region r content swift_files file_references build_file_refs
                         wm_uuid wm_build_uuid with
      | Some content' =>
          let '(final, printed) :=
            patch_regions rs' content' swift_files file_references build_file_refs
                          wm_uuid wm_build_uuid in
          (final, done_line r :: printed)
      | None =>
          patch_regions rs' content swift_files file_references build_file_refs
                        wm_uuid wm_build_uuid
      end
  end.

(** The entries a patch appends. *)
Definition appended_entries (r : region)
    (swift_files file_references build_file_refs : list str)
    (wm_uuid wm_build_uuid : str) : list str :=
  match r with
  | FileReferenceSection => file_references
  | BuildFileSection => build_file_refs
  | SourcesGroup => [list_entry wm_uuid wm_name]
  | SourcesPhase => new_files_list swift_files build_file_refs wm_build_uuid
  end.

(** How a patch lays out the entries it appends. *)
Definition render_entries (r : region) (entries : list str) : str :=
  match r with
  | FileReferenceSection | BuildFileSection => [NL] ++ join [NL] entries ++ [NL]
  | SourcesGroup | SourcesPhase => concat entries
  end.

End Regions.

Import Regions.

(** ** The synthesized records as functions of the random source *)

Module Records.

Section WithRandomSource.

Variable urandom : nat -> N.

(** The identifier drawn at position [k] of the random source. *)
Definition uuid_at (k : nat) : str := Uuid.generate_uuid (urandom k).

(** The records of the Swift files when the loop starts at draw [d]. *)
Fixpoint swift_file_references (d : nat) (swift_files : list str) : list str :=
  match swift_files with
  | [] => []
  | swift_file :: rest =>
      file_reference_line (uuid_at d) (basename swift_file)
                          (lit "sources/AIPlugins/" ++ swift_file)
      :: swift_file_references (S (S d)) rest
  end.

Fixpoint swift_build_file_refs (d : nat) (swift_files : list str) : list str :=
  match swift_files with
  | [] => []
  | swift_file :: rest =>
      build_file_line (uuid_at (S d)) (basename swift_file) (uuid_at d)
      :: swift_build_file_refs (S (S d)) rest
  end.

Definition all_file_references (d : nat) (swift_files : list str) : list str :=
  file_reference_line (uuid_at d) wm_name (lit "sources/AIPluginWindowManager.swift")
  :: swift_file_references (S (S d)) swift_files.

Definition all_build_file_refs (d : nat) (swift_files : list str) : list str :=
  build_file_line (uuid_at (S d)) wm_name (uuid_at d)
  :: swift_build_file_refs (S (S d)) swift_files.

End WithRandomSource.

End Records.

Import Records.

(** ** One run, written out *)

Module Outline.

Local Open Scope script_scope.

(** The patch steps of the regions [rs] in turn, each on the text the one
    before returns; [patch_all] is this for [all_regions]. *)
Fixpoint patch_steps (rs : list region) (content : str)
    (swift_files file_references build_file_refs : list str)
    (wm_uuid wm_build_uuid : str) : M str :=
  match rs with
  | [] => ret content
  | r :: rs' =>
      content' <- apply_patch
                    (patch_region r content swift_files file_references build_file_refs
                                  wm_uuid wm_build_uuid)
                    content (done_line r) ;;
      patch_steps rs' content' swift_files file_references build_file_refs
                  wm_uuid wm_build_uuid
  end.

Section WithRandomSource.

Variable urandom : nat -> N.

Definition read_error : exn := OSError pbxproj_path.

(** Printing lines in turn: the lines that are printed, and the exception
    that stops the printing. *)
Fixpoint say (encodes : N -> bool) (ls : list line) : list line * option exn :=
  match ls with
  | [] => ([], None)
  | l :: ls' =>
      match first_unencodable encodes (glyphs l) with
      | Some c => ([], Some (UnicodeEncodeError c))
      | None => let '(said, failure) := say encodes ls' in (l :: said, failure)
      end
  end.

(** The outcome of a computation that ends with [failure] or returns [a]. *)
Definition outcome_of {A : Type} (failure : option exn) (a : A) : exn + A :=
  match failure with
  | Some e => inl e
  | None => inr a
  end.

(** The lines between the reading and the writing of the descriptor, for
    [n] sources and [m] resources, [added] being the confirmations of the
    patches. *)
Definition before_write (n m : nat) (added : list line) : list line :=
  [ScanningSources; FoundSources n; ScanningResources; FoundResources m;
   ModifyingProject] ++ added ++ [SavingProject].

(** The lines behind the writing of the descriptor. *)
Definition after_write (n m : nat) : list line :=
  [ProjectUpdated; Completed; Statistics; SourcesAdded (n + 1); ResourcesAdded m].

(** The text the patches make of the descriptor [content] in the world
    [w], and the confirmations they print. *)
Definition patched_outline (w : world) (content : str) : str * list line :=
  let swift_files := find_all_swift_files aiplugins_dir (aiplugins_tree w) in
  patch_regions all_regions content swift_files
                (all_file_references urandom 0 swift_files)
                (all_build_file_refs urandom 0 swift_files)
                (uuid_at urandom 0) (uuid_at urandom 1).

(** What [add_files_to_project] comes to: the lines it prints, the
    exception that ends it, if any, and the world it leaves (proved below as
    [add_files_outline]). *)
Definition attempt_outline (w : world) : list line * option exn * world :=
  let encodes := stdout_encodes w in
  match first_unencodable encodes (glyphs ReadingProject) with
  | Some c => ([], Some (UnicodeEncodeError c), w)
  | None =>
      match pbxproj w with
      | None => ([ReadingProject], Some read_error, w)
      | Some content =>
          let n := List.length (find_all_swift_files aiplugins_dir (aiplugins_tree w)) in
          let m := List.length (find_all_resource_files resources_dir (resources_tree w)) in
          let '(content', added) := patched_outline w content in
          match say encodes (before_write n m added) with
          | (said, Some e) => (ReadingProject :: said, Some e, w)
          | (said, None) =>
              if pbxproj_writable w
              then match write_breaks w with
                   | Some (k, e) =>
                       (ReadingProject :: said, Some e, with_pbxproj w (firstn k content'))
                   | None =>
                       let '(more, failure) := say encodes (after_write n m) in
                       (ReadingProject :: said ++ more, failure, with_pbxproj w content')
                   end
              else (ReadingProject :: said, Some read_error, w)
          end
      end
  end.

(** What [run] comes to (proved below as [run_outline_correct]). *)
Definition run_outline (w : world) : run_result :=
  let '(said, failure, w') := attempt_outline w in
  match failure with
  | None => RunResult 0 w' said
  | Some e =>
      match first_unencodable (stdout_encodes w) (glyphs (ErrorMessage e)) with
      | None => RunResult 0 w' (said ++ [ErrorMessage e; Traceback e])
      | Some c => RunResult 1 w' (said ++ [Traceback (UnicodeEncodeError c)])
      end
  end.

(** The exception that ends [add_files_to_project], if any, written out. *)
Definition failure_of_outline (w : world) : option exn :=
  snd (fst (attempt_outline w)).

(** The exception that ends [add_files_to_project], if any. *)
Definition failure_of (w : world) : option exn :=
  match fst (add_files_to_project urandom (State w 0 [])) with
  | inl e => Some e
  | inr _ => None
  end.

End WithRandomSource.

(** A source root that [os.scandir] cannot list: no such path, not a
    directory, or a directory that cannot be read. *)
Definition unavailable (root : option node) : Prop :=
  match root with
  | None | Some File | Some (Dir false _) => True
  | Some (Dir true _) => False
  end.

Definition with_aiplugins (w : world) (t : option node) : world :=
  World (pbxproj w) (pbxproj_writable w) t (resources_tree w)
        (stdout_encodes w) (write_breaks w).

Definition with_resources (w : world) (t : option node) : world :=
  World (pbxproj w) (pbxproj_writable w) (aiplugins_tree w) t
        (stdout_encodes w) (write_breaks w).

(** Whether the console can encode a line, and all lines of a list. *)
Definition encodable (w : world) (l : line) : bool :=
  match first_unencodable (stdout_encodes w) (glyphs l) with
  | None => true
  | Some _ => false
  end.

Definition all_encodable (w : world) (ls : list line) : bool :=
  forallb (encodable w) ls.

End Outline.

Import Outline.

(** ** Descriptors, trees and random sources used as test inputs *)

Module Fixtures.

Definition tabs (n : nat) : str := repeat TAB n.

Definition text_of (lines : list str) : str := join [NL] lines.

(** The lines of a descriptor: a line as it is, or a field of a record,
    indented by three tabs. *)
Inductive layout_line : Type :=
| Line (text : str)
| Field (text : str).

(** The text of the lines, with [extra] put in front of every field,
    behind its indentation. *)
Fixpoint lay_out (extra : str) (ls : list layout_line) : str :=
  match ls with
  | [] => []
  | Line text :: rest => text ++ NL :: lay_out extra rest
  | Field text :: rest => TAB :: TAB :: TAB :: (extra ++ text ++ NL :: lay_out extra rest)
  end.

(** A descriptor with an empty instance of each of the four regions, as
    Xcode lays it out: records over several lines, fields indented by three
    tabs, the closing parenthesis of an empty list on a line of its own. *)
Definition xcode_lines : list layout_line :=
  [Line (lit "// !$*UTF8*$!");
   Line (lit "{");
   Line (tabs 1 ++ lit "objects = {");
   Line [];
   Line (lit "/* Begin PBXBuildFile section */");
   Line (lit "/* End PBXBuildFile section */");
   Line [];
   Line (lit "/* Begin PBXFileReference section */");
   Line (lit "/* End PBXFileReference section */");
   Line [];
   Line (lit "/* Begin PBXGroup section */");
   Line (tabs 2 ++ lit "080E96DDFE201D6D7F000001 /* Sources */ = {");
   Field (lit "isa = PBXGroup;");
   Field (lit "children = (");
   Field (lit ");");
   Field (lit "name = Sources;");
   Line (tabs 2 ++ lit "};");
   Line (lit "/* End PBXGroup section */");
   Line [];
   Line (lit "/* Begin PBXSourcesBuildPhase section */");
   Line (tabs 2 ++ lit "8D11072C0486CEB800E47090 /* Sources */ = {");
   Field (lit "isa = PBXSourcesBuildPhase;");
   Field (lit "files = (");
   Field (lit ");");
   Line (tabs 2 ++ lit "};");
   Line (lit "/* End PBXSourcesBuildPhase section */");
   Line (tabs 1 ++ lit "};");
   Line (lit "}")].

Definition xcode_descriptor : str := lay_out [] xcode_lines.

(** The same four empty regions, the two records on one line each and the
    two empty lists holding different white space, so that the text of
    neither list occurs anywhere else in the descriptor. *)
Definition scenario_descriptor : str :=
  text_of
    [lit "// !$*UTF8*$!";
     lit "{";
     tabs 1 ++ lit "objects = {";
     [];
     lit "/* Begin PBXBuildFile section */";
     lit "/* End PBXBuildFile section */";
     [];
     lit "/* Begin PBXFileReference section */";
     lit "/* End PBXFileReference section */";
     [];
     lit "/* Begin PBXGroup section */";
     tabs 2 ++ lit "080E96DDFE201D6D7F000001 /* Sources */ = {isa = PBXGroup; children = (";
     tabs 3 ++ lit "); name = Sources; };";
     lit "/* End PBXGroup section */";
     [];
     lit "/* Begin PBXSourcesBuildPhase section */";
     tabs 2 ++ lit "8D11072C0486CEB800E47090 /* Sources */ = {isa = PBXSourcesBuildPhase; files = (";
     lit "      ); };";
     lit "/* End PBXSourcesBuildPhase section */";
     tabs 1 ++ lit "};";
     lit "}";
     []].

(** A source directory with the two files A.swift and B.swift (and one
    file that is not a source). *)
Definition scenario_tree : node :=
  Dir true [(lit "B.swift", File); (lit "README.md", File); (lit "A.swift", File)].

(** A console that encodes every character, as one in UTF-8 does. *)
Definition utf8 (code_point : N) : bool := true.

(** A console that encodes no character beyond ASCII. *)
Definition ascii_only (code_point : N) : bool := false.

(** A random source. *)
Definition scenario_random (k : nat) : N :=
  (N.of_nat k * 0x9e3779b97f4a7c15f39cc0605cedc835 + 0x243f6a8885a308d313198a2e03707344)%N.

Definition scenario_world : world :=
  World (Some scenario_descriptor) true (Some scenario_tree) (Some (Dir true []))
        utf8 None.

(** The descriptor the first run of the scenario writes. *)
Definition scenario_after_one_run : option str :=
  pbxproj (final_world (run scenario_random scenario_world)).






(** The project with the descriptor laid out as Xcode does. *)
Definition xcode_world : world :=
  World (Some xcode_descriptor) true (Some scenario_tree) (Some (Dir true []))
        utf8 None.

(** A resource directory with a localisation bundle that has a
    sub-directory: en.lproj/Localizable.strings and en.lproj/sub/x.json. *)
Definition lproj_tree : node :=
  Dir true
    [(lit "en.lproj",
      Dir true [(lit "Localizable.strings", File);
                (lit "sub", Dir true [(lit "x.json", File)])])].

(** A source directory with two files of the same base name:
    a/X.swift and b/X.swift. *)
Definition same_name_tree : node :=
  Dir true
    [(lit "a", Dir true [(lit "X.swift", File)]);
     (lit "b", Dir true [(lit "X.swift", File)])].

Definition same_name_world : world :=
  World (Some scenario_descriptor) true (Some same_name_tree) None utf8 None.

(** A project whose source root does not exist. *)
Definition missing_root_world : world :=
  World (Some scenario_descriptor) true None None utf8 None.

(** A project whose descriptor cannot be opened. *)
Definition unreadable_world : world :=
  World None true (Some scenario_tree) None utf8 None.


(** A project on a full disk: the descriptor is emptied and the writing
    raises before any character reaches it. *)
Definition full_disk_world : world :=
  World (Some scenario_descriptor) true (Some scenario_tree) None utf8
        (Some (0, OSError pbxproj_path)).

(** A console that encodes every character but the check mark of the
    confirmations (U+2713). *)
Definition no_check_mark (code_point : N) : bool := negb (N.eqb code_point 0x2713).

(** The world with another console. *)
Definition with_console (w : world) (encodes : N -> bool) : world :=
  World (pbxproj w) (pbxproj_writable w) (aiplugins_tree w) (resources_tree w)
        encodes (write_breaks w).

(** A descriptor that holds none of the four anchors. *)
Definition anchorless_descriptor : str :=
  text_of [lit "// !$*UTF8*$!"; lit "{"; tabs 1 ++ lit "objects = {"; tabs 1 ++ lit "};"; lit "}"; []].

Definition anchorless_world : world :=
  World (Some anchorless_descriptor) true (Some scenario_tree) None utf8 None.

(** The entries a run appends to each region when the sources are
    A.swift and B.swift and the random source is read from position [d]. *)
Definition two_file_entries (urandom : nat -> N) (d : nat) (r : region) : list str :=
  let id := uuid_at urandom in
  match r with
  | FileReferenceSection =>
      [file_reference_line (id d) wm_name (lit "sources/AIPluginWindowManager.swift");
       file_reference_line (id (2 + d)) (lit "A.swift") (lit "sources/AIPlugins/A.swift");
       file_reference_line (id (4 + d)) (lit "B.swift") (lit "sources/AIPlugins/B.swift")]
  | BuildFileSection =>
      [build_file_line (id (1 + d)) wm_name (id d);
       build_file_line (id (3 + d)) (lit "A.swift") (id (2 + d));
       build_file_line (id (5 + d)) (lit "B.swift") (id (4 + d))]
  | SourcesGroup =>
      [list_entry (id d) wm_name]
  | SourcesPhase =>
      [list_entry (id (1 + d)) (wm_name ++ lit " in Sources");
       list_entry (id (3 + d)) (lit "A.swift in Sources");
       list_entry (id (5 + d)) (lit "B.swift in Sources")]
  end.

(** The identifiers the first run of the scenario draws. *)
Definition scenario_id (k : nat) : str := uuid_at scenario_random k.


End Fixtures.

Import Fixtures.

(** ** Text with unknown identifiers *)

Module Symbolic.

(** A character that is known, or some character of [[A-F0-9]]. *)
Inductive achar : Type :=
| Known (c : ascii)
| HexDigit.

Definition atext : Type := list achar.

Definition known (s : str) : atext := map Known s.

(** Any identifier: 24 characters of [[A-F0-9]]. *)
Definition any_uuid : atext := repeat HexDigit 24.

(** [s] is the text [a] with its unknown characters filled in. *)
Definition instance_of (a : atext) (s : str) : Prop :=
  Forall2 (fun x c =>
             match x with
             | Known d => c = d
             | HexDigit => Uuid.is_upper_hex c = true
             end) a s.

(** [p] is not a prefix of any instance of [a]: the text ends before [p]
    does, or a known character differs, or a character of [p] that is not
    of [[A-F0-9]] meets an unknown one. *)
Fixpoint cannot_start (p : str) (a : atext) : bool :=
  match p, a with
  | [], _ => false
  | _ :: _, [] => true
  | c :: p', Known d :: a' => negb (Ascii.eqb c d) || cannot_start p' a'
  | c :: p', HexDigit :: a' => negb (Uuid.is_upper_hex c) || cannot_start p' a'
  end.

(** [p] occurs in no instance of [a]. *)
Fixpoint cannot_occur (p : str) (a : atext) : bool :=
  cannot_start p a &&
  match a with
  | [] => true
  | _ :: a' => cannot_occur p a'
  end.

(** The PBXBuildFile line of a file name, the two identifiers unknown. *)
Definition any_build_file_line (name : str) : atext :=
  known [TAB; TAB] ++ any_uuid
  ++ known (lit " /* " ++ name
            ++ lit " in Sources */ = {isa = PBXBuildFile; fileRef = ")
  ++ any_uuid
  ++ known (lit " /* " ++ name ++ lit " */; };").

End Symbolic.

Import Symbolic.

(** ** Statements under test *)

Module Statements.

(** The number of entries of each region, in the order of [all_regions]. *)
Definition entry_counts (content : str) : list nat :=
  map (fun r => List.length (entries_of r content)) all_regions.




(** A source root that cannot be listed makes the run fail and leaves the
    descriptor as it was. *)
Definition aborts_on_unavailable_root (urandom : nat -> N) (w : world) : Prop :=
  unavailable (aiplugins_tree w) ->
  (exists e, failure_of urandom w = Some e) /\
  pbxproj (final_world (run urandom w)) = pbxproj w.

(** The patch step of one region, as [patch_all] runs it. *)
Definition patch_step (r : region) (content : str)
    (swift_files file_references build_file_refs : list str)
    (wm_uuid wm_build_uuid : str) : M str :=
  apply_patch
    (patch_region r content swift_files file_references build_file_refs wm_uuid wm_build_uuid)
    content (done_line r).

(** The lines a computation adds to the console. *)
Definition lines_printed {A} (m : M A) (st : state) : list line :=
  skipn (List.length (console st)) (console (snd (m st))).

(** The patch step of a region whose anchor is missing prints something. *)
Definition warns_when_anchor_missing (r : region) (content : str) (st : state) : Prop :=
  contains (anchor_of r) content = false ->
  lines_printed (patch_step r content [] [] [] [] []) st <> [].

(** The lines of the summary (lines 160-163). *)
Definition is_summary (l : line) : bool :=
  match l with
  | Completed | Statistics | SourcesAdded _ | ResourcesAdded _ => true
  | _ => false
  end.

(** The lines that report a failure (lines 169 and 171). *)
Definition is_diagnostic (l : line) : bool :=
  match l with
  | ErrorMessage _ | Traceback _ => true
  | _ => false
  end.



(** The lines that tell how many resources were found (lines 75 and 163). *)
Definition counts_resources (l : line) : bool :=
  match l with
  | FoundResources _ | ResourcesAdded _ => true
  | _ => false
  end.

(** Two lines that differ at most in the number of resources they tell. *)
Definition same_but_count (l1 l2 : line) : Prop :=
  glyphs l1 = glyphs l2 /\
  counts_resources l1 = counts_resources l2 /\
  (counts_resources l1 = false -> l1 = l2).

End Statements.

Import Statements.


(** ** Notions used to state further properties *)

Module Further.

(** The identifier a record line starts with, behind its two tabs. *)
Definition record_id (record_line : str) : str := firstn 24 (skipn 2 record_line).





(** The text holds no character [c]. *)
Definition free_of (c : ascii) (s : str) : bool :=
  forallb (fun x => negb (Ascii.eqb x c)) s.

(** A source whose path holds no line break and whose base name holds no
    closing parenthesis. *)
Definition plain_source (swift_file : str) : bool :=
  free_of NL swift_file && free_of ")"%char (basename swift_file).



(** An identifier as the script makes them: 24 characters of [[A-F0-9]]. *)
Definition is_identifier (u : str) : Prop :=
  List.length u = 24 /\ forallb Uuid.is_upper_hex u = true.

Definition no_slash (s : str) : bool :=
  forallb (fun c => negb (Ascii.eqb c "/"%char)) s.

(** A line of the descriptor without its comments [/* ... */]; [inside]
    tells whether the text starts within a comment. *)
Fixpoint strip_comments (inside : bool) (s : str) : str :=
  match s with
  | [] => []
  | c :: s' =>
      if inside
      then match s' with
           | d :: s'' =>
               if Ascii.eqb c "*"%char && Ascii.eqb d "/"%char
               then strip_comments false s''
               else strip_comments true s'
           | [] => []
           end
      else match s' with
           | d :: s'' =>
               if Ascii.eqb c "/"%char && Ascii.eqb d "*"%char
               then strip_comments true s''
               else c :: strip_comments false s'
           | [] => [c]
           end
  end.

(** The value a field starts with: the text up to the next blank or
    semicolon. *)
Fixpoint value (s : str) : str :=
  match s with
  | [] => []
  | c :: s' =>
      if Ascii.eqb c " "%char || Ascii.eqb c ";"%char then [] else c :: value s'
  end.

(** The value of the field [fileRef] of a record line, read from the text
    of the line with the comments left out. *)
Definition file_ref_of (record_line : str) : str :=
  let text := strip_comments false record_line in
  match find (lit "fileRef = ") text with
  | Some i => value (skipn (i + 10) text)
  | None => []
  end.

(** The pattern of a section: [(BEGIN.*?)(END)]. *)
Definition section_pattern (begin_marker end_marker : str) : list item :=
  [Open; Lit begin_marker; LazyAny; Close; Open; Lit end_marker; Close].

(** The pattern of a membership list: [(HEADER.*?KEY)(.*?)(CLOSE)]. *)
Definition list_pattern (header key closing : str) : list item :=
  [Open; Lit header; LazyAny; Lit key; Close; Open; LazyAny; Close; Open; Lit closing; Close].

(** The number of files of a tree that [os.walk] yields and [keep]
    accepts: the files of the directories that can be listed. *)
Fixpoint count_files (keep : str -> bool) (n : node) : nat :=
  match n with
  | File => 0
  | Dir false _ => 0
  | Dir true entries =>
      List.length (filter keep (map fst (filter (fun e => negb (is_dir (snd e))) entries)))
      + (fix inside (es : list (str * node)) : nat :=
           match es with
           | [] => 0
           | (_, child) :: es' => count_files keep child + inside es'
           end) entries
  end.

(** The state in which a section pattern ends: the match began at [p],
    the lazy part took [k] characters. *)
Definition section_end (begin_marker end_marker : str) (p k : nat) : mstate :=
  MState (p + List.length begin_marker + k + List.length end_marker) 2 []
         [(2, (p + List.length begin_marker + k,
               p + List.length begin_marker + k + List.length end_marker));
          (1, (p, p + List.length begin_marker + k))].

(** The new lines of a section patch sit behind the old content of the
    section and in front of its end marker, and what precedes is kept:
    [content] is [pre], the captured text (which begins with the first
    begin marker of [content]), the first end marker behind it and [post];
    [patched] is [pre], the captured text, the new lines, the end marker
    and some [tail]. *)
Definition placed_after_section (begin_marker end_marker content : str)
    (lines : list str) (patched : option str) : Prop :=
  match search (section_pattern begin_marker end_marker) content with
  | None => patched = None
  | Some m =>
      exists pre post tail,
        content = pre ++ group m 1 ++ end_marker ++ post /\
        find begin_marker content = Some (List.length pre) /\
        startswith begin_marker (group m 1) = true /\
        find end_marker (skipn (List.length begin_marker) (group m 1 ++ end_marker ++ post))
        = Some (List.length (group m 1) - List.length begin_marker) /\
        patched = Some (pre ++ group m 1 ++ [NL] ++ join [NL] lines ++ [NL]
                        ++ end_marker ++ tail)
  end.

(** First [key] in [t], then first [closing] behind it: how far each is. *)
Definition find_then (key closing t : str) : option (nat * nat) :=
  match find key t with
  | None => None
  | Some k1 => option_map (pair k1) (find closing (skipn (k1 + List.length key) t))
  end.

(** The state in which a list pattern ends: the match began at [p], the
    first lazy part took [k1] characters and the second [k2]. *)
Definition list_end (header key closing : str) (p : nat) (k : nat * nat) : mstate :=
  let q := p + List.length header + fst k + List.length key in
  MState (q + snd k + List.length closing) 3 []
         [(3, (q + snd k, q + snd k + List.length closing));
          (2, (q, q + snd k));
          (1, (p, q))].

(** The text that closes a region: the last literal of its pattern. *)
Definition closing_of (r : region) : str :=
  match r with
  | FileReferenceSection => NL :: lit "/* End PBXFileReference section */"
  | BuildFileSection => NL :: lit "/* End PBXBuildFile section */"
  | SourcesGroup | SourcesPhase => lit ");"
  end.

(** A name as [os.scandir] gives it: not empty, without a slash, and
    neither [.] nor [..]. *)
Definition entry_name (name : str) : bool :=
  negb (str_eqb name []) && negb (contains (lit "/") name)
  && negb (str_eqb name (lit ".")) && negb (str_eqb name (lit "..")).

(** Every entry of the tree has such a name. *)
Fixpoint entry_names (n : node) : bool :=
  match n with
  | File => true
  | Dir _ entries =>
      forallb (fun e => entry_name (fst e)) entries
      && (fix inside (es : list (str * node)) : bool :=
            match es with
            | [] => true
            | (_, child) :: es' => entry_names child && inside es'
            end) entries
  end.

(** The files of a tree that [keep] accepts, each as the names that lead
    to it from the top, in the order of a top-down walk: the files of a
    directory before those of its subdirectories. *)
Fixpoint files_below (keep : str -> bool) (above : list str) (n : node) : list (list str) :=
  match n with
  | File => []
  | Dir false _ => []
  | Dir true entries =>
      map (fun name => above ++ [name])
          (filter keep (map fst (filter (fun e => negb (is_dir (snd e))) entries)))
      ++ (fix inside (es : list (str * node)) : list (list str) :=
            match es with
            | [] => []
            | (name, child) :: es' => files_below keep (above ++ [name]) child ++ inside es'
            end) entries
  end.

(** The text in front of a membership list: the second literal of the
    pattern of a list; a section has none. *)
Definition key_of (r : region) : str :=
  match r with
  | SourcesGroup => lit "children = ("
  | SourcesPhase => lit "files = ("
  | FileReferenceSection | BuildFileSection => []
  end.

(** The text of a region as [str.find] locates it.  A section runs from
    the first begin marker up to the first end marker behind that begin
    marker.  The entries of a membership list run from behind the first key
    that follows the first header up to the first closing parenthesis
    behind that key. *)
Definition located (r : region) (content : str) : option str :=
  match find (anchor_of r) content with
  | None => None
  | Some i =>
      let behind := skipn (i + List.length (anchor_of r)) content in
      match r with
      | FileReferenceSection | BuildFileSection =>
          match find (closing_of r) behind with
          | None => None
          | Some k => Some (firstn (List.length (anchor_of r) + k) (skipn i content))
          end
      | SourcesGroup | SourcesPhase =>
          match find_then (key_of r) (closing_of r) behind with
          | None => None
          | Some (k1, k2) =>
              Some (firstn k2 (skipn (k1 + List.length (key_of r)) behind))
          end
      end
  end.

(** The resources of a tree, each as the names that lead to it from the
    top, in the order of a top-down walk.  A directory whose path ends in
    [.lproj] ([bundle]) is listed as a folder and its files are not listed;
    any other directory lists its files with a resource extension.  The
    subdirectories are visited in both cases. *)
Fixpoint resources_below (bundle : bool) (above : list str) (n : node)
  : list (str * str) :=
  match n with
  | File => []
  | Dir false _ => []
  | Dir true entries =>
      (if bundle
       then [(match above with [] => lit "." | _ => join (lit "/") above end,
              lit "folder")]
       else map (fun name => (join (lit "/") (above ++ [name]), lit "file"))
                (filter (fun file => existsb (fun ext => endswith ext file) extensions)
                        (map fst (filter (fun e => negb (is_dir (snd e))) entries))))
      ++ (fix inside (es : list (str * node)) : list (str * str) :=
            match es with
            | [] => []
            | (name, child) :: es' =>
                resources_below (endswith (lit ".lproj") name) (above ++ [name]) child
                ++ inside es'
            end) entries
  end.

End Further.

Import Further.

(** ** Stepping through the script *)

(** One [print] of a sequence: the case of a character the console cannot
    encode is closed, the other case goes on. *)
Ltac print_step :=
  unfold bind at 1; unfold print at 1;
  cbn [the_world draws console say stdout_encodes with_pbxproj];
  match goal with
  | |- context [first_unencodable ?enc (glyphs ?l)] =>
      destruct (first_unencodable enc (glyphs l));
      [cbn [fst snd outcome_of the_world draws console app];
       rewrite <- ?app_assoc; cbn [app]; rewrite ?app_nil_r; now repeat split|]
  end.

(** * Properties *)

Unset Implicit Arguments.

(** ** The models of the library functions on small inputs *)

Example replace_all_occurrences :
  replace (lit "ab") (lit "X") (lit "abcabab") = lit "XcXX".
Proof. reflexivity. Qed.

Example replace_empty_old :
  replace [] (lit "-") (lit "abc") = lit "-a-b-c-".
Proof. reflexivity. Qed.

Example replace_non_overlapping :
  replace (lit "aa") (lit "b") (lit "aaa") = lit "ba".
Proof. reflexivity. Qed.

Example basename_nested : basename (lit "a/b/X.swift") = lit "X.swift".
Proof. reflexivity. Qed.

Example join_two : path_join (lit "/a") (lit "b") = lit "/a/b".
Proof. reflexivity. Qed.

Example relpath_of_root : relpath (lit "/tmp/pyt") (lit "/tmp/pyt") = lit ".".
Proof. reflexivity. Qed.

Example relpath_nested :
  relpath (lit "/tmp/pyt/en.lproj/sub/x.json") (lit "/tmp/pyt") = lit "en.lproj/sub/x.json".
Proof. reflexivity. Qed.

Example sorted_strings :
  sorted str_leb [lit "b"; lit "a/c"; lit "B"; lit "a"]
  = [lit "B"; lit "a"; lit "a/c"; lit "b"].
Proof. reflexivity. Qed.

Example walk_missing_root : os_walk (lit "/nowhere") None = [].
Proof. reflexivity. Qed.

Example walk_goes_into_bundles :
  map (fun t => fst (fst t)) (os_walk (lit "/r") (Some lproj_tree))
  = [lit "/r"; lit "/r/en.lproj"; lit "/r/en.lproj/sub"].
Proof. reflexivity. Qed.

Example lazy_search_takes_first_end :
  option_map (fun m => (group m 1, group m 2))
    (search [Open; Lit (lit "B"); LazyAny; Close; Open; Lit (NL :: lit "E"); Close]
            (lit "xxB1" ++ [NL] ++ lit "E B2" ++ [NL] ++ lit "E"))
  = Some (lit "B1", NL :: lit "E").
Proof. reflexivity. Qed.

Example uuid_sample :
  Uuid.generate_uuid 0xdaef43360f2b4aa29889a8ee66ce8b06 = lit "DAEF43360F2B4AA29889A8EE".
Proof. reflexivity. Qed.

(** ** Facts about text *)

Lemma startswith_app (p s : str) : startswith p (p ++ s) = true.
Proof.
  induction p as [|a p IH]; simpl; [reflexivity|].
  now rewrite Ascii.eqb_refl, IH.
Qed.

Lemma replace_go_skip (old new : str) :
  forall (k : nat) (s : str),
    replace_go old new k s = replace_go old new 0 (skipn k s).
Proof.
  induction k as [|k IH]; intros s; [reflexivity|].
  destruct s as [|c s]; [reflexivity|]. cbn [replace_go skipn]. apply IH.
Qed.

(** [replace] at the head of an occurrence: the occurrence is replaced and
    the scan goes on behind it. *)
Lemma replace_at_occurrence (c : ascii) (old' new s : str) :
  replace (c :: old') new ((c :: old') ++ s) = new ++ replace (c :: old') new s.
Proof.
  unfold replace. cbn [app replace_go].
  change (c :: old' ++ s) with ((c :: old') ++ s).
  rewrite startswith_app. f_equal.
  rewrite replace_go_skip. cbn [List.length pred].
  rewrite skipn_app, Nat.sub_diag, skipn_all. reflexivity.
Qed.

(** [replace] elsewhere: a character at which no occurrence starts is kept
    and the scan goes on behind it. *)
Lemma replace_elsewhere (c0 : ascii) (old' new : str) (c : ascii) (s : str) :
  startswith (c0 :: old') (c :: s) = false ->
  replace (c0 :: old') new (c :: s) = c :: replace (c0 :: old') new s.
Proof.
  unfold replace. intros H. cbn [replace_go]. rewrite H. reflexivity.
Qed.

Lemma startswith_contains (p s : str) :
  startswith p s = true -> contains p s = true.
Proof.
  unfold contains. destruct s; simpl; intros ->; reflexivity.
Qed.

Lemma contains_cons (p : str) (c : ascii) (s : str) :
  contains p s = true -> contains p (c :: s) = true.
Proof.
  unfold contains. simpl.
  destruct (startswith p (c :: s)); [reflexivity|].
  destruct (find p s); simpl; [reflexivity | discriminate].
Qed.

Lemma contains_skipn (p : str) (n : nat) (s : str) :
  contains p (skipn n s) = true -> contains p s = true.
Proof.
  revert s. induction n as [|n IH]; intros s H; [exact H|].
  destruct s as [|c s]; [exact H|].
  apply contains_cons, IH, H.
Qed.

Lemma contains_app_r (p a s : str) :
  contains p s = true -> contains p (a ++ s) = true.
Proof.
  induction a as [|c a IH]; intros H; [exact H|].
  simpl. apply contains_cons, IH, H.
Qed.

Lemma contains_middle (p a b : str) : contains p (a ++ p ++ b) = true.
Proof.
  apply contains_app_r, startswith_contains, startswith_app.
Qed.

Lemma length_flat_map_singletons (A B : Type) (f : A -> list B) (l : list A) :
  (forall x, In x l -> List.length (f x) = 1) ->
  List.length (flat_map f l) = List.length l.
Proof.
  induction l as [|x l IH]; intros H; simpl; [reflexivity|].
  rewrite length_app, H by (left; reflexivity).
  simpl. f_equal. apply IH. intros y Hy. apply H. right; exact Hy.
Qed.

(** ** Facts about the matcher *)

(** The loop of a lazy [.*?] is [lazy_loop]. *)
Lemma match_here_lazy (rest : list item) (s : str) (st : mstate) :
  match_here (LazyAny :: rest) s st = lazy_loop rest s st.
Proof.
  revert st. induction s as [|c s IH]; intros st; simpl.
  - reflexivity.
  - destruct (match_here rest (c :: s) st); [reflexivity|].
    rewrite <- IH. reflexivity.
Qed.

(** A lazy [.*?] that matches gives way to the rest of the pattern at some
    later position of the subject. *)
Lemma lazy_loop_some (rest : list item) (s : str) (st r : mstate) :
  lazy_loop rest s st = Some r ->
  exists k st', match_here rest (skipn k s) st' = Some r.
Proof.
  revert st. induction s as [|c s IH]; intros st; simpl.
  - destruct (match_here rest [] st) eqn:E; [|discriminate].
    intros [= ->]. exists 0, st. exact E.
  - destruct (match_here rest (c :: s) st) eqn:E.
    + intros [= ->]. exists 0, st. exact E.
    + intros H. destruct (IH _ H) as (k & st' & Hk).
      exists (S k), st'. exact Hk.
Qed.

(** Every literal of a pattern that matches at the head of [s] occurs in [s]. *)
Lemma match_here_literal (items : list item) :
  forall (s : str) (st r : mstate) (l : str),
    match_here items s st = Some r -> In (Lit l) items -> contains l s = true.
Proof.
  induction items as [|it rest IH]; intros s st r l Hm Hin; [destruct Hin|].
  destruct it as [l0| |cls n| |].
  - simpl in Hm. destruct (startswith l0 s) eqn:Hs; [|discriminate].
    destruct Hin as [[= <-]|Hin].
    + apply startswith_contains, Hs.
    + eapply contains_skipn, IH; eassumption.
  - rewrite match_here_lazy in Hm.
    destruct Hin as [Hin|Hin]; [discriminate|].
    destruct (lazy_loop_some _ _ _ _ Hm) as (k & st' & Hk).
    eapply contains_skipn, IH; eassumption.
  - simpl in Hm.
    destruct ((n <=? List.length s)%nat && forallb cls (firstn n s)); [|discriminate].
    destruct Hin as [Hin|Hin]; [discriminate|].
    eapply contains_skipn, IH; eassumption.
  - simpl in Hm. destruct Hin as [Hin|Hin]; [discriminate|].
    eapply IH; eassumption.
  - simpl in Hm. destruct Hin as [Hin|Hin]; [discriminate|].
    eapply IH; eassumption.
Qed.

Lemma search_from_literal (items : list item) (l : str) :
  In (Lit l) items ->
  forall (s : str) (start : nat) (r : mstate),
    search_from items s start = Some r -> contains l s = true.
Proof.
  intros Hin. induction s as [|c s IH]; intros start r; simpl.
  - destruct (match_here items [] _) eqn:E; [|discriminate].
    intros _. eapply match_here_literal; eassumption.
  - destruct (match_here items (c :: s) _) eqn:E.
    + intros _. eapply match_here_literal; eassumption.
    + intros H. apply contains_cons. eapply IH, H.
Qed.

(** A pattern one of whose literals is missing from the subject does not match. *)
Lemma search_without_literal (items : list item) (l s : str) :
  In (Lit l) items -> contains l s = false -> search items s = None.
Proof.
  intros Hin Hc. unfold search.
  destruct (search_from items s 0) eqn:E; [|reflexivity].
  rewrite (search_from_literal _ _ Hin _ _ _ E) in Hc. discriminate.
Qed.

(** A pattern that matches somewhere in the subject is found by the scan. *)
Lemma search_from_complete (items : list item) :
  forall (k : nat) (s : str) (start : nat) (r : mstate),
    k <= List.length s ->
    match_here items (skipn k s) (MState (start + k) 0 [] []) = Some r ->
    exists r', search_from items s start = Some r'.
Proof.
  induction k as [|k IH]; intros s start r Hk H.
  - rewrite Nat.add_0_r in H. simpl in H.
    destruct s; simpl; rewrite H; eauto.
  - destruct s as [|c s]; [simpl in Hk; lia|].
    simpl. destruct (match_here items (c :: s) _); eauto.
    apply (IH s (S start) r); [simpl in Hk; lia|].
    rewrite <- Nat.add_succ_comm in H. exact H.
Qed.

(** ** Facts about identifiers *)

Lemma upper_hex_digit (x : N) :
  Uuid.is_upper_hex (Uuid.upper_char (Uuid.hex_digit (N.land x 15))) = true.
Proof.
  assert (H : (N.land x 15 < 16)%N).
  { change 15%N with (N.ones 4). rewrite N.land_ones. apply N.mod_lt. discriminate. }
  destruct (N.land x 15) as [|p]; [reflexivity|].
  do 4 (destruct p as [p|p|]; try reflexivity); exfalso; lia.
Qed.

(** An identifier has 24 characters. *)
Lemma generate_uuid_length (r : N) : List.length (Uuid.generate_uuid r) = 24.
Proof. reflexivity. Qed.

(** An identifier is made of the characters 0-9 and A-F. *)
Lemma generate_uuid_hex (r : N) :
  forallb Uuid.is_upper_hex (Uuid.generate_uuid r) = true.
Proof.
  apply forallb_forall. intros c Hc.
  unfold Uuid.generate_uuid, Uuid.upper, Uuid.hex32 in Hc.
  rewrite firstn_map in Hc.
  apply in_map_iff in Hc. destruct Hc as (d & <- & Hd).
  apply in_map_iff in Hd. destruct Hd as (k & <- & _).
  apply upper_hex_digit.
Qed.

(** The pattern of line 146 finds a run of 24 digits in every
    PBXBuildFile line whose identifier is one. *)
Lemma uuid_pattern_found (u name file_ref : str) :
  List.length u = 24 ->
  forallb Uuid.is_upper_hex u = true ->
  search uuid_pattern (build_file_line u name file_ref) <> None.
Proof.
  intros Hlen Hhex.
  unfold search.
  destruct (search_from_complete uuid_pattern 2 (build_file_line u name file_ref) 0
              (close_group (advance 24 (open_group (MState 2 0 [] []))))) as (r & ->).
  - unfold build_file_line. simpl. lia.
  - unfold build_file_line, uuid_pattern.
    cbn [app skipn match_here Nat.add].
    rewrite firstn_app, Hlen, Nat.sub_diag, firstn_all2 by lia.
    cbn [firstn]. rewrite app_nil_r, Hhex, andb_true_r.
    replace (24 <=? List.length (u ++ _))%nat with true; [reflexivity|].
    symmetry. apply Nat.leb_le. rewrite length_app. lia.
  - discriminate.
Qed.

(** ** The steps of a run, written out *)

Section RunFacts.

Variable urandom : nat -> N.

Lemma synthesize_swift_outline (swift_files : list str) :
  forall (file_references build_file_refs : list str) (st : state),
    synthesize_swift urandom swift_files file_references build_file_refs st =
    (inr (file_references ++ swift_file_references urandom (draws st) swift_files,
          build_file_refs ++ swift_build_file_refs urandom (draws st) swift_files),
     State (the_world st) (draws st + 2 * List.length swift_files) (console st)).
Proof.
  induction swift_files as [|f l IH]; intros frs brs [w d c].
  - simpl. unfold ret. now rewrite !app_nil_r, Nat.add_0_r.
  - cbn [synthesize_swift]. unfold bind at 1 2. unfold Script.generate_uuid at 1 2.
    cbn [draws the_world console].
    rewrite IH. cbn [draws the_world console swift_file_references swift_build_file_refs].
    unfold uuid_at. rewrite <- !app_assoc. cbn [app List.length].
    do 2 f_equal. lia.
Qed.

Lemma synthesize_outline (swift_files : list str) (st : state) :
  synthesize urandom swift_files st =
  (inr (uuid_at urandom (draws st), uuid_at urandom (S (draws st)),
        all_file_references urandom (draws st) swift_files,
        all_build_file_refs urandom (draws st) swift_files),
   State (the_world st) (draws st + 2 + 2 * List.length swift_files) (console st)).
Proof.
  destruct st as [w d c].
  unfold synthesize, bind, Script.generate_uuid, ret.
  cbn [draws the_world console].
  rewrite synthesize_swift_outline.
  cbn [draws the_world console fst snd app].
  unfold all_file_references, all_build_file_refs, uuid_at.
  do 2 f_equal. lia.
Qed.

Lemma say_app (encodes : N -> bool) (a b : list line) :
  say encodes (a ++ b)
  = match say encodes a with
    | (said, Some e) => (said, Some e)
    | (said, None) => let '(more, failure) := say encodes b in (said ++ more, failure)
    end.
Proof.
  induction a as [|l a IH]; cbn [app say].
  - destruct (say encodes b); reflexivity.
  - destruct (first_unencodable encodes (glyphs l)); [reflexivity|].
    rewrite IH. destruct (say encodes a) as [said [e|]]; [reflexivity|].
    destruct (say encodes b); reflexivity.
Qed.

Lemma print_outline (l : line) (st : state) :
  print l st =
  (outcome_of (snd (say (stdout_encodes (the_world st)) [l])) tt,
   State (the_world st) (draws st)
         (console st ++ fst (say (stdout_encodes (the_world st)) [l]))).
Proof.
  destruct st as [w d c]. unfold print. cbn [say the_world draws console].
  destruct (first_unencodable (stdout_encodes w) (glyphs l)); cbn [fst snd outcome_of].
  - now rewrite app_nil_r.
  - reflexivity.
Qed.

Lemma apply_patch_outline (patched : option str) (content : str) (done : line) (st : state) :
  apply_patch patched content done st =
  (outcome_of
     (snd (say (stdout_encodes (the_world st))
               (match patched with Some _ => [done] | None => [] end)))
     (match patched with Some content' => content' | None => content end),
   State (the_world st) (draws st)
         (console st ++
          fst (say (stdout_encodes (the_world st))
                   (match patched with Some _ => [done] | None => [] end)))).
Proof.
  destruct patched as [content'|]; unfold apply_patch.
  - unfold bind. rewrite print_outline.
    destruct (say (stdout_encodes (the_world st)) [done]) as [said [e|]];
      reflexivity.
  - destruct st as [w d c]. unfold ret. cbn [say fst snd outcome_of the_world draws console].
    now rewrite app_nil_r.
Qed.

Lemma patch_steps_outline (rs : list region)
    (swift_files file_references build_file_refs : list str) (wm_uuid wm_build_uuid : str) :
  forall (content : str) (st : state),
    patch_steps rs content swift_files file_references build_file_refs
                wm_uuid wm_build_uuid st =
    (outcome_of
       (snd (say (stdout_encodes (the_world st))
                 (snd (patch_regions rs content swift_files file_references
                                     build_file_refs wm_uuid wm_build_uuid))))
       (fst (patch_regions rs content swift_files file_references
                           build_file_refs wm_uuid wm_build_uuid)),
     State (the_world st) (draws st)
           (console st ++
            fst (say (stdout_encodes (the_world st))
                     (snd (patch_regions rs content swift_files file_references
                                         build_file_refs wm_uuid wm_build_uuid))))).
Proof.
  induction rs as [|r rs IH]; intros content [w d c];
    cbn [patch_steps patch_regions the_world draws console].
  - unfold ret. cbn [say fst snd outcome_of]. now rewrite app_nil_r.
  - unfold bind. rewrite apply_patch_outline. cbn [the_world draws console].
    destruct (patch_region r content swift_files file_references build_file_refs
                           wm_uuid wm_build_uuid) as [content'|].
    + destruct (patch_regions rs content' swift_files file_references build_file_refs
                              wm_uuid wm_build_uuid) as [final added] eqn:E.
      cbn [fst snd say].
      destruct (first_unencodable (stdout_encodes w) (glyphs (done_line r))) as [x|].
      * cbn [fst snd outcome_of say]. reflexivity.
      * cbn [fst snd outcome_of say]. rewrite IH, E.
        cbn [fst snd the_world draws console].
        destruct (say (stdout_encodes w) added) as [said failure].
        cbn [fst snd]. rewrite <- app_assoc. reflexivity.
    + cbn [say fst snd outcome_of]. rewrite IH.
      cbn [the_world draws console]. now rewrite app_nil_r.
Qed.

Lemma patch_all_steps_at (content : str) (swift_files file_references build_file_refs : list str)
    (wm_uuid wm_build_uuid : str) (st : state) :
  patch_all content swift_files file_references build_file_refs wm_uuid wm_build_uuid st
  = patch_steps all_regions content swift_files file_references build_file_refs
                wm_uuid wm_build_uuid st.
Proof.
  unfold patch_all. cbn [all_regions patch_steps patch_region done_line].
  unfold bind.
  repeat match goal with
         | |- context [apply_patch ?p ?c ?l ?s] =>
             destruct (apply_patch p c l s) as [[?|?] ?]; try reflexivity
         end.
Qed.

Lemma patch_all_outline (content : str) (swift_files file_references build_file_refs : list str)
    (wm_uuid wm_build_uuid : str) (st : state) :
  patch_all content swift_files file_references build_file_refs wm_uuid wm_build_uuid st =
  (outcome_of
     (snd (say (stdout_encodes (the_world st))
               (snd (patch_regions all_regions content swift_files file_references
                                   build_file_refs wm_uuid wm_build_uuid))))
     (fst (patch_regions all_regions content swift_files file_references
                         build_file_refs wm_uuid wm_build_uuid)),
   State (the_world st) (draws st)
         (console st ++
          fst (say (stdout_encodes (the_world st))
                   (snd (patch_regions all_regions content swift_files file_references
                                       build_file_refs wm_uuid wm_build_uuid))))).
Proof. rewrite patch_all_steps_at. apply patch_steps_outline. Qed.

(** [add_files_to_project] from the initial state, written out. *)
Lemma add_files_outline (w : world) :
  match add_files_to_project urandom (State w 0 []) with
  | (outcome, st) =>
      outcome = outcome_of (failure_of_outline urandom w) tt /\
      the_world st = snd (attempt_outline urandom w) /\
      console st = fst (fst (attempt_outline urandom w))
  end.
Proof.
  unfold failure_of_outline, attempt_outline, add_files_to_project.
  print_step.
  unfold bind at 1. unfold read_pbxproj at 1. cbn [the_world].
  destruct (pbxproj w) as [content|];
    [|cbn [fst snd outcome_of the_world draws console app]; auto].
  unfold bind at 1. unfold get_world at 1. cbn [the_world draws console].
  unfold patched_outline, before_write.
  destruct (patch_regions all_regions content _ _ _ _ _) as [content' added] eqn:Epatch.
  cbn [app].
  do 4 print_step.
  unfold bind at 1. rewrite synthesize_outline. cbn [the_world draws console Nat.add].
  print_step.
  unfold bind at 1. rewrite patch_all_outline. cbn [the_world draws console].
  rewrite Epatch. cbn [fst snd]. rewrite say_app.
  destruct (say (stdout_encodes w) added) as [said [e|]];
    [cbn [fst snd outcome_of the_world draws console app];
     rewrite <- ?app_assoc; auto|].
  cbn [fst snd outcome_of].
  print_step.
  unfold bind at 1. unfold write_pbxproj at 1. cbn [the_world draws console].
  destruct (pbxproj_writable w);
    [|cbn [fst snd outcome_of the_world draws console app];
      rewrite <- ?app_assoc; cbn [app]; rewrite ?app_nil_r; auto].
  destruct (write_breaks w) as [[k e]|];
    [cbn [fst snd outcome_of the_world draws console app];
     rewrite <- ?app_assoc; cbn [app]; rewrite ?app_nil_r; auto|].
  unfold after_write.
  do 4 print_step.
  unfold print. cbn [the_world draws console say stdout_encodes with_pbxproj].
  destruct (first_unencodable (stdout_encodes w) (glyphs (ResourcesAdded _)));
    cbn [fst snd outcome_of the_world draws console app];
    rewrite <- ?app_assoc; cbn [app]; rewrite ?app_nil_r; auto.
Qed.

Lemma failure_of_outline_correct (w : world) :
  failure_of urandom w = failure_of_outline urandom w.
Proof.
  unfold failure_of. pose proof (add_files_outline w) as H.
  destruct (add_files_to_project urandom (State w 0 [])) as [outcome st].
  destruct H as [-> _]. cbn [fst].
  destruct (failure_of_outline urandom w); reflexivity.
Qed.

Lemma attempt_keeps_console (w : world) :
  stdout_encodes (snd (attempt_outline urandom w)) = stdout_encodes w.
Proof.
  unfold attempt_outline.
  destruct (first_unencodable (stdout_encodes w) (glyphs ReadingProject)); [reflexivity|].
  destruct (pbxproj w) as [content|]; [|reflexivity].
  destruct (patched_outline urandom w content) as [content' added].
  destruct (say (stdout_encodes w) _) as [said [e|]]; [reflexivity|].
  destruct (pbxproj_writable w); [|reflexivity].
  destruct (write_breaks w) as [[k e]|]; [reflexivity|].
  destruct (say (stdout_encodes w) _); reflexivity.
Qed.

(** [run] does what [run_outline] says. *)
Lemma run_outline_correct (w : world) : run urandom w = run_outline urandom w.
Proof.
  unfold run, main, try_except.
  pose proof (add_files_outline w) as H.
  pose proof (attempt_keeps_console w) as Henc.
  unfold failure_of_outline in H. unfold run_outline.
  destruct (add_files_to_project urandom (State w 0 [])) as [outcome [w' d' c']].
  destruct H as (Hout & Hworld & Hconsole).
  destruct (attempt_outline urandom w) as [[said failure] w''].
  cbn [fst snd the_world console] in *. subst outcome w' c'.
  destruct failure as [e|]; cbn [outcome_of].
  - unfold bind, print, print_exc. cbn [the_world draws console]. rewrite Henc.
    destruct (first_unencodable (stdout_encodes w) (glyphs (ErrorMessage e))).
    + reflexivity.
    + cbn [exit_status unhandled the_world console].
      rewrite <- !app_assoc, app_nil_r. reflexivity.
  - cbn [exit_status unhandled the_world console]. now rewrite app_nil_r.
Qed.

End RunFacts.

(** ** Referential integrity of the synthesized records *)


(** ** The resource directory *)

Lemma same_but_count_refl (l : line) : same_but_count l l.
Proof. repeat split. Qed.

Lemma say_same_but_count (encodes : N -> bool) (ls1 ls2 : list line) :
  Forall2 same_but_count ls1 ls2 ->
  snd (say encodes ls1) = snd (say encodes ls2) /\
  filter (fun l => negb (counts_resources l)) (fst (say encodes ls1))
  = filter (fun l => negb (counts_resources l)) (fst (say encodes ls2)).
Proof.
  induction 1 as [|l1 l2 ls1 ls2 (Hg & Hc & Heq) _ [IHf IHs]]; cbn [say].
  - split; reflexivity.
  - rewrite Hg. destruct (first_unencodable encodes (glyphs l2)); [split; reflexivity|].
    destruct (say encodes ls1) as [said1 failure1], (say encodes ls2) as [said2 failure2].
    cbn [fst snd] in *. split; [exact IHf|].
    cbn [filter]. rewrite <- Hc.
    destruct (counts_resources l1) eqn:E; cbn [negb]; [exact IHs|].
    rewrite (Heq eq_refl), IHs. reflexivity.
Qed.

Lemma Forall2_same (A : Type) (R : A -> A -> Prop) (l : list A) :
  (forall x, R x x) -> Forall2 R l l.
Proof. intros H. induction l; constructor; auto. Qed.

Lemma before_write_same_but_count (n m1 m2 : nat) (added : list line) :
  Forall2 same_but_count (before_write n m1 added) (before_write n m2 added).
Proof.
  unfold before_write. cbn [app].
  repeat first
    [ apply Forall2_same, same_but_count_refl
    | apply Forall2_cons;
      [first [apply same_but_count_refl | repeat split; discriminate]|] ].
Qed.

Lemma after_write_same_but_count (n m1 m2 : nat) :
  Forall2 same_but_count (after_write n m1) (after_write n m2).
Proof.
  unfold after_write.
  repeat first
    [ apply Forall2_nil
    | apply Forall2_cons;
      [first [apply same_but_count_refl | repeat split; discriminate]|] ].
Qed.

(** What [add_files_to_project] does in two worlds that differ in the
    resource directory only. *)
Lemma attempt_differs_in_counts (urandom : nat -> N) (w : world) (t1 t2 : option node) :
  snd (fst (attempt_outline urandom (with_resources w t1)))
  = snd (fst (attempt_outline urandom (with_resources w t2))) /\
  pbxproj (snd (attempt_outline urandom (with_resources w t1)))
  = pbxproj (snd (attempt_outline urandom (with_resources w t2))) /\
  filter (fun l => negb (counts_resources l))
         (fst (fst (attempt_outline urandom (with_resources w t1))))
  = filter (fun l => negb (counts_resources l))
           (fst (fst (attempt_outline urandom (with_resources w t2)))).
Proof.
  destruct w as [p wr a r enc wb].
  unfold attempt_outline, with_resources, patched_outline.
  cbn [pbxproj pbxproj_writable aiplugins_tree resources_tree stdout_encodes write_breaks].
  destruct (first_unencodable enc (glyphs ReadingProject)); [repeat split|].
  destruct p as [content|]; [|repeat split].
  destruct (patch_regions all_regions content _ _ _ _ _) as [content' added].
  set (n := List.length (find_all_swift_files aiplugins_dir a)).
  set (m1 := List.length (find_all_resource_files resources_dir t1)).
  set (m2 := List.length (find_all_resource_files resources_dir t2)).
  destruct (say_same_but_count enc _ _ (before_write_same_but_count n m1 m2 added))
    as [Hf Hs].
  destruct (say enc (before_write n m1 added)) as [said1 failure1],
           (say enc (before_write n m2 added)) as [said2 failure2].
  cbn [fst snd] in Hf, Hs. subst failure2.
  destruct failure1 as [e|];
    [cbn [fst snd filter counts_resources negb]; rewrite Hs; repeat split|].
  destruct wr;
    [|cbn [fst snd filter counts_resources negb]; rewrite Hs; repeat split].
  destruct wb as [[k e]|];
    [cbn [fst snd filter counts_resources negb with_pbxproj pbxproj];
     rewrite Hs; repeat split|].
  destruct (say_same_but_count enc _ _ (after_write_same_but_count n m1 m2)) as [Hf' Hs'].
  destruct (say enc (after_write n m1)) as [more1 failure1],
           (say enc (after_write n m2)) as [more2 failure2].
  cbn [fst snd] in Hf', Hs'. subst failure2.
  cbn [fst snd filter counts_resources negb with_pbxproj pbxproj].
  rewrite !filter_app, Hs, Hs'. repeat split.
Qed.

(** C10: two runs that differ only in the resource directory write the
    same descriptor and end with the same status; what they print differs at
    most in the two lines that count the resources. *)
Theorem resources_never_reach_the_descriptor :
  forall (urandom : nat -> N) (w : world) (t1 t2 : option node),
    pbxproj (final_world (run urandom (with_resources w t1))) =
    pbxproj (final_world (run urandom (with_resources w t2))) /\
    status (run urandom (with_resources w t1)) =
    status (run urandom (with_resources w t2)) /\
    filter (fun l => negb (counts_resources l)) (printed (run urandom (with_resources w t1))) =
    filter (fun l => negb (counts_resources l)) (printed (run urandom (with_resources w t2))).
Proof.
  intros urandom w t1 t2.
  rewrite !run_outline_correct. unfold run_outline.
  destruct (attempt_differs_in_counts urandom w t1 t2) as (Hfail & Hdesc & Hsaid).
  destruct (attempt_outline urandom (with_resources w t1)) as [[said1 failure1] w1].
  destruct (attempt_outline urandom (with_resources w t2)) as [[said2 failure2] w2].
  cbn [fst snd] in Hfail, Hdesc, Hsaid. subst failure2.
  cbn [with_resources stdout_encodes].
  destruct failure1 as [e|]; [|cbn [final_world status printed]; auto].
  destruct (first_unencodable (stdout_encodes w) (glyphs (ErrorMessage e)));
    cbn [final_world status printed]; repeat split; try assumption;
    rewrite !filter_app, Hsaid; reflexivity.
Qed.

(** ** Failures and the exit status *)

(** The patches print nothing but their own four lines. *)
Lemma patch_regions_lines (rs : list region) :
  forall (content : str) (swift_files file_references build_file_refs : list str)
         (wm_uuid wm_build_uuid : str),
    Forall (fun l => exists r, l = done_line r)
           (snd (patch_regions rs content swift_files file_references build_file_refs
                               wm_uuid wm_build_uuid)).
Proof.
  induction rs as [|r rs IH]; intros content sf frs brs wm wmb; cbn [patch_regions].
  - constructor.
  - destruct (patch_region r content sf frs brs wm wmb) as [content'|].
    + specialize (IH content' sf frs brs wm wmb).
      destruct (patch_regions rs content' sf frs brs wm wmb) as [final printed].
      cbn [snd] in *. constructor; [exists r; reflexivity | exact IH].
    + apply IH.
Qed.

Lemma existsb_false_of_forall (A : Type) (f : A -> bool) (P : A -> Prop) (l : list A) :
  (forall x, P x -> f x = false) -> Forall P l -> existsb f l = false.
Proof.
  intros Hf H. induction H as [|x l Hx _ IH]; cbn; [reflexivity|].
  now rewrite (Hf x Hx), IH.
Qed.

Lemma patch_regions_no_summary content sf frs brs wm wmb :
  existsb is_summary (snd (patch_regions all_regions content sf frs brs wm wmb)) = false.
Proof.
  eapply existsb_false_of_forall; [|apply patch_regions_lines].
  intros l [r ->]. destruct r; reflexivity.
Qed.

Lemma patch_regions_no_diagnostic content sf frs brs wm wmb :
  existsb is_diagnostic (snd (patch_regions all_regions content sf frs brs wm wmb)) = false.
Proof.
  eapply existsb_false_of_forall; [|apply patch_regions_lines].
  intros l [r ->]. destruct r; reflexivity.
Qed.






Section Attempt.

Variable urandom : nat -> N.




End Attempt.



(** The failures of a run, one of each kind.  The descriptor cannot be
    read: status 0.  The console cannot encode the check mark of the
    confirmations: the run fails in the patching, status 0.  The writing
    breaks: status 0 and an empty descriptor.  The console encodes ASCII
    only: the first line raises, the handler raises, status 1. *)
Lemma failures_of_each_kind :
  run scenario_random unreadable_world
  = RunResult 0 unreadable_world
      [ReadingProject; ErrorMessage (OSError pbxproj_path); Traceback (OSError pbxproj_path)] /\
  run scenario_random (with_console scenario_world no_check_mark)
  = RunResult 0 (with_console scenario_world no_check_mark)
      [ReadingProject; ScanningSources; FoundSources 2; ScanningResources;
       FoundResources 0; ModifyingProject;
       ErrorMessage (UnicodeEncodeError 0x2713); Traceback (UnicodeEncodeError 0x2713)] /\
  status (run scenario_random full_disk_world) = 0 /\
  pbxproj (final_world (run scenario_random full_disk_world)) = Some [] /\
  run scenario_random (with_console scenario_world ascii_only)
  = RunResult 1 (with_console scenario_world ascii_only)
      [Traceback (UnicodeEncodeError 0x274c)].
Proof. repeat split; vm_compute; reflexivity. Qed.

(** ** A source root that cannot be listed *)

Lemma unavailable_root_has_no_sources (directory : str) (root : option node) :
  unavailable root -> find_all_swift_files directory root = [].
Proof.
  destruct root as [[|[|] entries]|]; cbn; intros H; try reflexivity.
  destruct H.
Qed.

Lemma empty_root_has_no_sources :
  find_all_swift_files aiplugins_dir (Some (Dir true [])) = [].
Proof. reflexivity. Qed.

(** Nothing stops the printing exactly when every line can be encoded. *)
Lemma say_encodable (w : world) (ls : list line) :
  match snd (say (stdout_encodes w) ls) with None => true | Some _ => false end
  = all_encodable w ls.
Proof.
  unfold all_encodable, encodable.
  induction ls as [|l ls IH]; cbn [say forallb]; [reflexivity|].
  destruct (first_unencodable (stdout_encodes w) (glyphs l)); [reflexivity|].
  destruct (say (stdout_encodes w) ls) as [said failure]. cbn [snd andb] in *.
  exact IH.
Qed.

(** The descriptor a run leaves. *)
Lemma descriptor_after_run (urandom : nat -> N) (w : world) :
  pbxproj (final_world (run urandom w)) =
  match pbxproj w with
  | Some content =>
      let n := List.length (find_all_swift_files aiplugins_dir (aiplugins_tree w)) in
      let m := List.length (find_all_resource_files resources_dir (resources_tree w)) in
      let patched := patched_outline urandom w content in
      if pbxproj_writable w
         && all_encodable w (ReadingProject :: before_write n m (snd patched))
      then match write_breaks w with
           | None => Some (fst patched)
           | Some (k, _) => Some (firstn k (fst patched))
           end
      else Some content
  | None => None
  end.
Proof.
  rewrite run_outline_correct. unfold run_outline, attempt_outline.
  assert (Hcons : forall ls, all_encodable w (ReadingProject :: ls)
                             = encodable w ReadingProject && all_encodable w ls)
    by reflexivity.
  unfold encodable in Hcons.
  destruct (first_unencodable (stdout_encodes w) (glyphs ReadingProject)) as [c|].
  - destruct (first_unencodable (stdout_encodes w) _); cbn [final_world];
      destruct (pbxproj w); cbv zeta; rewrite ?Hcons, ?andb_false_r; reflexivity.
  - destruct (pbxproj w) as [content|] eqn:Ep.
    + cbv zeta. destruct (patched_outline urandom w content) as [content' added].
      cbn [fst snd]. rewrite Hcons. cbn [andb]. rewrite <- say_encodable.
      destruct (say (stdout_encodes w) (before_write _ _ added)) as [said [e|]];
        cbn [snd].
      * rewrite andb_false_r.
        destruct (first_unencodable (stdout_encodes w) _); cbn [final_world]; exact Ep.
      * rewrite andb_true_r. destruct (pbxproj_writable w).
        -- destruct (write_breaks w) as [[k e]|].
           ++ destruct (first_unencodable (stdout_encodes w) _); reflexivity.
           ++ destruct (say (stdout_encodes w) (after_write _ _)) as [more [e|]];
                [destruct (first_unencodable (stdout_encodes w) _)|]; reflexivity.
        -- destruct (first_unencodable (stdout_encodes w) _); cbn [final_world]; exact Ep.
    + destruct (first_unencodable (stdout_encodes w) _); cbn [final_world]; exact Ep.
Qed.

(** C3, as the script has it: a source root that does not exist, is not a
    directory or cannot be read raises nothing; discovery returns the empty
    sequence and the run goes on as for an empty directory: same failure or
    success, same status, same output, same descriptor.  When the descriptor
    can be read and written and the console can encode the lines printed
    before the writing, what is written is the descriptor patched with the
    records of the window manager alone (its beginning, when the writing
    breaks); otherwise the descriptor is left as it was. *)
Theorem unavailable_root_is_an_empty_directory :
  forall (urandom : nat -> N) (w : world),
    unavailable (aiplugins_tree w) ->
    find_all_swift_files aiplugins_dir (aiplugins_tree w) = [] /\
    failure_of urandom w = failure_of urandom (with_aiplugins w (Some (Dir true []))) /\
    status (run urandom w) = status (run urandom (with_aiplugins w (Some (Dir true [])))) /\
    printed (run urandom w) = printed (run urandom (with_aiplugins w (Some (Dir true [])))) /\
    pbxproj (final_world (run urandom w)) =
    pbxproj (final_world (run urandom (with_aiplugins w (Some (Dir true []))))) /\
    pbxproj (final_world (run urandom w)) =
    match pbxproj w with
    | Some content =>
        let patched :=
          patch_regions all_regions content []
            (all_file_references urandom 0 [])
            (all_build_file_refs urandom 0 [])
            (uuid_at urandom 0) (uuid_at urandom 1) in
        if pbxproj_writable w
           && all_encodable w
                (ReadingProject
                 :: before_write 0
                      (List.length
                         (find_all_resource_files resources_dir (resources_tree w)))
                      (snd patched))
        then match write_breaks w with
             | None => Some (fst patched)
             | Some (k, _) => Some (firstn k (fst patched))
             end
        else Some content
    | None => None
    end.
Proof.
  intros urandom w Hun.
  pose proof (unavailable_root_has_no_sources aiplugins_dir (aiplugins_tree w) Hun) as Ha.
  split; [exact Ha|].
  assert (Hrun : run_outline urandom w
                 = let r := run_outline urandom (with_aiplugins w (Some (Dir true []))) in
                   RunResult (status r)
                     (with_aiplugins (final_world r) (aiplugins_tree w)) (printed r)).
  { destruct w as [p wr a r enc wb]. cbn [aiplugins_tree] in Ha.
    unfold run_outline, attempt_outline, patched_outline, with_aiplugins, with_pbxproj.
    cbn [pbxproj pbxproj_writable aiplugins_tree resources_tree stdout_encodes write_breaks].
    rewrite Ha, empty_root_has_no_sources.
    destruct (first_unencodable enc (glyphs ReadingProject)) as [c|].
    - destruct (first_unencodable enc _); reflexivity.
    - destruct p as [content|]; [|destruct (first_unencodable enc _); reflexivity].
      destruct (patch_regions all_regions content _ _ _ _ _) as [content' added].
      destruct (say enc (before_write _ _ added)) as [said [e|]];
        [destruct (first_unencodable enc _); reflexivity|].
      destruct wr; [|destruct (first_unencodable enc _); reflexivity].
      destruct wb as [[k e]|]; [destruct (first_unencodable enc _); reflexivity|].
      destruct (say enc (after_write _ _)) as [more [e|]];
        [destruct (first_unencodable enc _)|]; reflexivity. }
  split.
  { rewrite !failure_of_outline_correct. unfold failure_of_outline.
    destruct w as [p wr a r enc wb]. cbn [aiplugins_tree] in Ha.
    unfold attempt_outline, patched_outline, with_aiplugins.
    cbn [pbxproj pbxproj_writable aiplugins_tree resources_tree stdout_encodes write_breaks].
    rewrite Ha, empty_root_has_no_sources.
    destruct (first_unencodable enc (glyphs ReadingProject)) as [c|]; [reflexivity|].
    destruct p as [content|]; [|reflexivity].
    destruct (patch_regions all_regions content _ _ _ _ _) as [content' added].
    destruct (say enc (before_write _ _ added)) as [said [e|]]; [reflexivity|].
    destruct wr; [|reflexivity].
    destruct wb as [[k e]|]; [reflexivity|].
    destruct (say enc (after_write _ _)) as [more failure]; reflexivity. }
  split; [rewrite !run_outline_correct, Hrun; reflexivity|].
  split; [rewrite !run_outline_correct, Hrun; reflexivity|].
  split; [rewrite !run_outline_correct, Hrun; reflexivity|].
  rewrite descriptor_after_run. unfold patched_outline. rewrite Ha. reflexivity.
Qed.

(** C3, witness: the project whose source root does not exist. *)
Lemma unavailable_root_witness :
  find_all_swift_files aiplugins_dir (aiplugins_tree missing_root_world) = [] /\
  failure_of scenario_random missing_root_world =
  failure_of scenario_random (with_aiplugins missing_root_world (Some (Dir true []))) /\
  status (run scenario_random missing_root_world) =
  status (run scenario_random (with_aiplugins missing_root_world (Some (Dir true [])))) /\
  printed (run scenario_random missing_root_world) =
  printed (run scenario_random (with_aiplugins missing_root_world (Some (Dir true [])))) /\
  pbxproj (final_world (run scenario_random missing_root_world)) =
  pbxproj (final_world (run scenario_random
                            (with_aiplugins missing_root_world (Some (Dir true []))))) /\
  pbxproj (final_world (run scenario_random missing_root_world)) =
  Some (fst (patch_regions all_regions scenario_descriptor []
               (all_file_references scenario_random 0 [])
               (all_build_file_refs scenario_random 0 [])
               (uuid_at scenario_random 0) (uuid_at scenario_random 1))).
Proof.
  destruct (unavailable_root_is_an_empty_directory scenario_random missing_root_world I)
    as (H1 & H2 & H3 & H4 & H5 & H6).
  split; [exact H1|]. split; [exact H2|]. split; [exact H3|].
  split; [exact H4|]. split; [exact H5|].
  rewrite H6. vm_compute. reflexivity.
Defined.

(** C3, counterexample: the source root does not exist, yet no exception
    ends the run and the descriptor is written with new records in it. *)
Lemma missing_root_does_not_abort :
  ~ aborts_on_unavailable_root scenario_random missing_root_world.
Proof.
  intros H. destruct (H I) as [[e He] _].
  vm_compute in He. discriminate He.
Qed.

(** The descriptor of that run is not the one it read. *)
Lemma missing_root_descriptor_is_rewritten :
  option_map entry_counts (pbxproj missing_root_world) = Some [0; 0; 0; 0] /\
  option_map entry_counts (pbxproj (final_world (run scenario_random missing_root_world)))
  = Some [1; 1; 1; 1].
Proof. split; vm_compute; reflexivity. Qed.

(** ** A region whose anchor is missing *)

Lemma anchor_is_a_literal (r : region) : In (Lit (anchor_of r)) (pattern_of r).
Proof. destruct r; cbn; auto. Qed.

Lemma patch_region_needs_match (r : region) content sf frs brs wm wmb :
  search (pattern_of r) content = None ->
  patch_region r content sf frs brs wm wmb = None.
Proof.
  destruct r; cbn [patch_region pattern_of];
    unfold patch_section, patch_sources_group, patch_sources_phase;
    intros ->; reflexivity.
Qed.

(** [patch_all] is the four patch steps in the order of [all_regions]. *)
Lemma patch_all_steps (content : str) (swift_files file_references build_file_refs : list str)
    (wm_uuid wm_build_uuid : str) :
  let step r text :=
    patch_step r text swift_files file_references build_file_refs wm_uuid wm_build_uuid in
  patch_all content swift_files file_references build_file_refs wm_uuid wm_build_uuid
  = bind (step FileReferenceSection content) (fun c1 =>
    bind (step BuildFileSection c1) (fun c2 =>
    bind (step SourcesGroup c2) (fun c3 =>
    step SourcesPhase c3))).
Proof. reflexivity. Qed.

(** C4, as the script has it: when the anchor of a region does not occur
    in the text, the patch step of that region returns the text as it is,
    raises nothing and leaves the state as it is: nothing is printed, no
    warning either. *)
Theorem missing_anchor_leaves_text_and_console :
  forall (r : region) (content : str)
         (swift_files file_references build_file_refs : list str)
         (wm_uuid wm_build_uuid : str) (st : state),
    contains (anchor_of r) content = false ->
    patch_step r content swift_files file_references build_file_refs
               wm_uuid wm_build_uuid st
    = (inr content, st).
Proof.
  intros r content sf frs brs wm wmb st Hc.
  unfold patch_step.
  rewrite patch_region_needs_match
    by (eapply search_without_literal; [apply anchor_is_a_literal | exact Hc]).
  reflexivity.
Qed.

(** C4, witness: the group patch on a descriptor without anchors. *)
Lemma missing_anchor_witness :
  patch_step SourcesGroup anchorless_descriptor [] [] [] (scenario_id 0) (scenario_id 1)
             (State anchorless_world 0 [ModifyingProject])
  = (inr anchorless_descriptor, State anchorless_world 0 [ModifyingProject]).
Proof.
  apply (missing_anchor_leaves_text_and_console SourcesGroup anchorless_descriptor).
  reflexivity.
Defined.

(** C4, counterexample: the anchor is missing and the step prints nothing. *)
Lemma missing_anchor_prints_no_warning :
  ~ warns_when_anchor_missing FileReferenceSection anchorless_descriptor
      (State anchorless_world 0 []).
Proof.
  intros H. apply H; reflexivity.
Qed.

(** The whole run on that descriptor: it completes, writes the text it
    read and prints the usual lines less the four of the patches. *)
Lemma anchorless_run :
  run scenario_random anchorless_world =
  RunResult 0 anchorless_world
    [ReadingProject; ScanningSources; FoundSources 2; ScanningResources;
     FoundResources 0; ModifyingProject; SavingProject; ProjectUpdated;
     Completed; Statistics; SourcesAdded 3; ResourcesAdded 0].
Proof. vm_compute. reflexivity. Qed.

(** ** What a patch appends *)

Lemma build_file_line_contains_name (u name file_ref : str) :
  contains name (build_file_line u name file_ref) = true.
Proof.
  unfold build_file_line.
  rewrite (app_assoc [TAB; TAB]), (app_assoc _ (lit " /* ")).
  apply contains_middle.
Qed.

Lemma build_file_line_in_sources (u name file_ref : str) :
  contains (lit " in Sources ") (build_file_line u name file_ref) = true.
Proof.
  unfold build_file_line.
  change (lit " in Sources */ = {isa = PBXBuildFile; fileRef = ")
    with (lit " in Sources " ++ lit "*/ = {isa = PBXBuildFile; fileRef = ").
  rewrite <- (app_assoc (lit " in Sources ")).
  rewrite (app_assoc [TAB; TAB]), (app_assoc _ (lit " /* ")), (app_assoc _ name).
  apply contains_middle.
Qed.

(** Some line of [build_file_refs] holds the name and a run of 24 digits
    is found in every line: the inner loop appends exactly one entry. *)
Lemma phase_entry_for_one (name : str) (build_file_refs : list str) :
  (forall ref, In ref build_file_refs -> search uuid_pattern ref <> None) ->
  (exists ref, In ref build_file_refs /\
               contains name ref = true /\ contains (lit " in Sources ") ref = true) ->
  List.length (phase_entry_for name build_file_refs) = 1.
Proof.
  induction build_file_refs as [|ref more IH]; intros Hall (x & Hin & Hn & Hs).
  - destruct Hin.
  - cbn [phase_entry_for].
    destruct (contains name ref && contains (lit " in Sources ") ref) eqn:E.
    + destruct (search uuid_pattern ref) eqn:Eu; [reflexivity|].
      exfalso. apply (Hall ref); [left; reflexivity | exact Eu].
    + apply IH.
      * intros y Hy. apply Hall. right; exact Hy.
      * destruct Hin as [<-|Hin].
        -- rewrite Hn, Hs in E. discriminate.
        -- exists x. auto.
Qed.

Section Appended.

Variable urandom : nat -> N.

Lemma swift_build_file_refs_shape (swift_files : list str) :
  forall (d : nat) (ref : str),
    In ref (swift_build_file_refs urandom d swift_files) ->
    exists k name, ref = build_file_line (uuid_at urandom (S k)) name (uuid_at urandom k).
Proof.
  induction swift_files as [|f l IH]; intros d ref; cbn [swift_build_file_refs].
  - intros [].
  - intros [<-|Hin]; [eauto | eapply IH, Hin].
Qed.

Lemma all_build_file_refs_found (d : nat) (swift_files : list str) (ref : str) :
  In ref (all_build_file_refs urandom d swift_files) ->
  search uuid_pattern ref <> None.
Proof.
  unfold all_build_file_refs. intros [<-|Hin].
  - apply uuid_pattern_found;
      [apply generate_uuid_length | apply generate_uuid_hex].
  - apply swift_build_file_refs_shape in Hin. destruct Hin as (k & name & ->).
    apply uuid_pattern_found;
      [apply generate_uuid_length | apply generate_uuid_hex].
Qed.

Lemma swift_build_file_refs_own_line (swift_files : list str) :
  forall (d : nat) (f : str),
    In f swift_files ->
    exists ref, In ref (swift_build_file_refs urandom d swift_files) /\
                contains (basename f) ref = true /\
                contains (lit " in Sources ") ref = true.
Proof.
  induction swift_files as [|g l IH]; intros d f; cbn [swift_build_file_refs].
  - intros [].
  - intros [->|Hin].
    + eexists. split; [left; reflexivity|].
      split; [apply build_file_line_contains_name | apply build_file_line_in_sources].
    + destruct (IH (S (S d)) f Hin) as (ref & Hr & Hc).
      exists ref. split; [right; exact Hr | exact Hc].
Qed.

(** The list of lines 140-149 has one entry for the window manager and
    one for every discovered source. *)
Lemma new_files_list_length (d : nat) (swift_files : list str) (wm_build_uuid : str) :
  List.length (new_files_list swift_files (all_build_file_refs urandom d swift_files)
                              wm_build_uuid)
  = S (List.length swift_files).
Proof.
  unfold new_files_list. cbn [app List.length]. f_equal.
  apply length_flat_map_singletons. intros f Hf.
  apply phase_entry_for_one.
  - intros ref. apply all_build_file_refs_found.
  - destruct (swift_build_file_refs_own_line swift_files (S (S d)) f Hf) as (ref & Hr & Hc).
    exists ref. split; [right; exact Hr | exact Hc].
Qed.


End Appended.

(** A patch replaces what its pattern captured by that text followed by
    its entries; the text already there is not looked at. *)
Lemma patch_region_appends (r : region) (content : str)
    (swift_files file_references build_file_refs : list str) (wm_uuid wm_build_uuid : str) :
  patch_region r content swift_files file_references build_file_refs wm_uuid wm_build_uuid
  = option_map
      (fun old =>
         replace old
           (old ++ render_entries r
                     (appended_entries r swift_files file_references build_file_refs
                                       wm_uuid wm_build_uuid))
           content)
      (region_text r content).
Proof.
  destruct r; unfold region_text;
    cbn [patch_region pattern_of captured_group render_entries appended_entries];
    unfold patch_section, patch_sources_group, patch_sources_phase;
    match goal with |- context [search ?p content] => destruct (search p content) end;
    cbn [option_map concat]; rewrite ?app_nil_r; reflexivity.
Qed.



(** ** Text with unknown identifiers: soundness *)

Lemma cannot_start_sound (p : str) :
  forall (a : atext) (s : str),
    instance_of a s -> cannot_start p a = true -> startswith p s = false.
Proof.
  induction p as [|c p IH]; intros a s Hi Hc; [discriminate Hc|].
  destruct Hi as [|x d a s Hx Hi]; [reflexivity|].
  cbn [startswith]. destruct x as [k|]; cbn [cannot_start] in Hc.
  - subst d. destruct (Ascii.eqb c k); [|reflexivity].
    cbn [negb orb] in Hc. cbn [andb]. eapply IH; eassumption.
  - destruct (Ascii.eqb_spec c d) as [->|_]; [|reflexivity].
    rewrite Hx in Hc. cbn [negb orb] in Hc. cbn [andb]. eapply IH; eassumption.
Qed.

Lemma cannot_occur_sound (p : str) (a : atext) (s : str) :
  instance_of a s -> cannot_occur p a = true -> contains p s = false.
Proof.
  unfold contains. intros Hi. induction Hi as [|x d a s Hx Hi IH]; cbn [cannot_occur find].
  - rewrite andb_true_r. intros Hc.
    rewrite (cannot_start_sound p [] [] (Forall2_nil _) Hc). reflexivity.
  - intros Hc. apply andb_prop in Hc. destruct Hc as [Hc1 Hc2].
    rewrite (cannot_start_sound p (x :: a) (d :: s) (Forall2_cons _ _ Hx Hi) Hc1).
    specialize (IH Hc2). destruct (find p s); [discriminate IH | reflexivity].
Qed.

Lemma instance_of_known (s : str) : instance_of (known s) s.
Proof. induction s; constructor; auto. Qed.

Lemma instance_of_uuid (u : str) :
  List.length u = 24 -> forallb Uuid.is_upper_hex u = true -> instance_of any_uuid u.
Proof.
  unfold any_uuid. generalize 24. intros n. revert u.
  induction n as [|n IH]; intros [|c u] Hl Hh; try discriminate Hl; constructor.
  - cbn in Hh. now apply andb_prop in Hh.
  - apply IH; [now inversion Hl | cbn in Hh; now apply andb_prop in Hh].
Qed.

Lemma instance_of_app (a b : atext) (s t : str) :
  instance_of a s -> instance_of b t -> instance_of (a ++ b) (s ++ t).
Proof. apply Forall2_app. Qed.

Lemma instance_of_build_file_line (urandom : nat -> N) (j k : nat) (name : str) :
  instance_of (any_build_file_line name)
              (build_file_line (uuid_at urandom j) name (uuid_at urandom k)).
Proof.
  replace (build_file_line (uuid_at urandom j) name (uuid_at urandom k))
    with ([TAB; TAB] ++ uuid_at urandom j
          ++ (lit " /* " ++ name
              ++ lit " in Sources */ = {isa = PBXBuildFile; fileRef = ")
          ++ uuid_at urandom k
          ++ (lit " /* " ++ name ++ lit " */; };"))
    by (unfold build_file_line; rewrite <- !app_assoc; reflexivity).
  unfold any_build_file_line.
  repeat apply instance_of_app;
    first [ apply instance_of_known
          | apply instance_of_uuid; [apply generate_uuid_length | apply generate_uuid_hex] ].
Qed.

(** A file name that cannot occur in the build-file line of another name
    does not occur in it, whatever the identifiers. *)
Lemma name_not_in_build_file_line (urandom : nat -> N) (j k : nat) (p name : str) :
  cannot_occur p (any_build_file_line name) = true ->
  contains p (build_file_line (uuid_at urandom j) name (uuid_at urandom k)) = false.
Proof.
  intros H. eapply cannot_occur_sound; [apply instance_of_build_file_line | exact H].
Qed.

(** ** The identifier the pattern of line 146 finds *)

Lemma match_here_uuid_fails (c : ascii) (s : str) (st : mstate) :
  Uuid.is_upper_hex c = false -> match_here uuid_pattern (c :: s) st = None.
Proof.
  intros H. unfold uuid_pattern. cbn [match_here firstn forallb].
  rewrite H. cbn [andb]. now rewrite andb_false_r.
Qed.

Lemma search_from_next (items : list item) (c : ascii) (s : str) (start : nat) :
  match_here items (c :: s) (MState start 0 [] []) = None ->
  search_from items (c :: s) start = search_from items s (S start).
Proof. intros H. cbn [search_from]. rewrite H. reflexivity. Qed.

(** In a PBXBuildFile line the pattern finds the line's own identifier. *)
Lemma uuid_of_build_file_line (u name file_ref : str) :
  List.length u = 24 ->
  forallb Uuid.is_upper_hex u = true ->
  option_map (fun m => group m 1) (search uuid_pattern (build_file_line u name file_ref))
  = Some u.
Proof.
  intros Hlen Hhex. unfold search, build_file_line. cbn [app].
  rewrite search_from_next by (apply match_here_uuid_fails; reflexivity).
  rewrite search_from_next by (apply match_here_uuid_fails; reflexivity).
  set (rest := lit " /* " ++ _).
  assert (Hm : match_here uuid_pattern (u ++ rest) (MState 2 0 [] [])
               = Some (MState 26 1 [] [(1, (2, 26))])).
  { unfold uuid_pattern. cbn [match_here].
    rewrite firstn_app, Hlen, Nat.sub_diag, firstn_all2 by lia.
    cbn [firstn]. rewrite app_nil_r, Hhex, andb_true_r.
    replace (24 <=? List.length (u ++ rest))%nat with true
      by (symmetry; apply Nat.leb_le; rewrite length_app; lia).
    reflexivity. }
  destruct (u ++ rest) as [|c s] eqn:E.
  - destruct u; discriminate.
  - cbn [search_from]. rewrite Hm. cbn [option_map spans group group_spans lookup_span Nat.eqb].
    cbn [subject Nat.sub skipn]. rewrite <- E.
    rewrite firstn_app, Hlen, Nat.sub_diag, firstn_all2 by lia.
    cbn [firstn]. now rewrite app_nil_r.
Qed.

(** ** The entries of the phase list, whatever the identifiers *)

Lemma phase_entry_for_skip (name ref : str) (more : list str) :
  contains name ref = false ->
  phase_entry_for name (ref :: more) = phase_entry_for name more.
Proof. intros H. cbn [phase_entry_for]. rewrite H. reflexivity. Qed.

Lemma phase_entry_for_hit (urandom : nat -> N) (j k : nat) (name n : str) (more : list str) :
  contains name (build_file_line (uuid_at urandom j) n (uuid_at urandom k)) = true ->
  phase_entry_for name (build_file_line (uuid_at urandom j) n (uuid_at urandom k) :: more)
  = [list_entry (uuid_at urandom j) (name ++ lit " in Sources")].
Proof.
  intros H. cbn [phase_entry_for].
  rewrite H, build_file_line_in_sources. cbn [andb].
  pose proof (uuid_of_build_file_line (uuid_at urandom j) n (uuid_at urandom k)
                (generate_uuid_length _) (generate_uuid_hex _)) as Hu.
  destruct (search uuid_pattern _) as [m|]; [|discriminate Hu].
  cbn [option_map] in Hu. injection Hu as ->. reflexivity.
Qed.

(** Sources A.swift and B.swift: each finds its own build file. *)
Lemma new_files_list_two_files (urandom : nat -> N) (d : nat) :
  new_files_list [lit "A.swift"; lit "B.swift"]
    (all_build_file_refs urandom d [lit "A.swift"; lit "B.swift"])
    (uuid_at urandom (S d))
  = two_file_entries urandom d SourcesPhase.
Proof.
  unfold new_files_list, all_build_file_refs.
  cbn [swift_build_file_refs flat_map app two_file_entries Nat.add].
  change (basename (lit "A.swift")) with (lit "A.swift").
  change (basename (lit "B.swift")) with (lit "B.swift").
  rewrite (phase_entry_for_skip (lit "A.swift"))
    by (apply name_not_in_build_file_line; vm_compute; reflexivity).
  rewrite (phase_entry_for_hit urandom _ _ (lit "A.swift"))
    by apply build_file_line_contains_name.
  rewrite (phase_entry_for_skip (lit "B.swift"))
    by (apply name_not_in_build_file_line; vm_compute; reflexivity).
  rewrite (phase_entry_for_skip (lit "B.swift"))
    by (apply name_not_in_build_file_line; vm_compute; reflexivity).
  rewrite (phase_entry_for_hit urandom _ _ (lit "B.swift"))
    by apply build_file_line_contains_name.
  reflexivity.
Qed.

(** Sources a/X.swift and b/X.swift: both find the build file of the first. *)
Lemma new_files_list_same_base_name (urandom : nat -> N) (d : nat) :
  new_files_list [lit "a/X.swift"; lit "b/X.swift"]
    (all_build_file_refs urandom d [lit "a/X.swift"; lit "b/X.swift"])
    (uuid_at urandom (S d))
  = [list_entry (uuid_at urandom (1 + d)) (wm_name ++ lit " in Sources");
     list_entry (uuid_at urandom (3 + d)) (lit "X.swift in Sources");
     list_entry (uuid_at urandom (3 + d)) (lit "X.swift in Sources")].
Proof.
  unfold new_files_list, all_build_file_refs.
  cbn [swift_build_file_refs flat_map app Nat.add].
  change (basename (lit "a/X.swift")) with (lit "X.swift").
  change (basename (lit "b/X.swift")) with (lit "X.swift").
  rewrite (phase_entry_for_skip (lit "X.swift"))
    by (apply name_not_in_build_file_line; vm_compute; reflexivity).
  rewrite (phase_entry_for_hit urandom _ _ (lit "X.swift"))
    by apply build_file_line_contains_name.
  reflexivity.
Qed.

(** A source Manager.swift finds the build file of the window manager. *)
Lemma new_files_list_substring_name (urandom : nat -> N) (d : nat) :
  new_files_list [lit "Manager.swift"]
    (all_build_file_refs urandom d [lit "Manager.swift"])
    (uuid_at urandom (S d))
  = [list_entry (uuid_at urandom (1 + d)) (wm_name ++ lit " in Sources");
     list_entry (uuid_at urandom (1 + d)) (lit "Manager.swift in Sources")].
Proof.
  unfold new_files_list, all_build_file_refs.
  cbn [swift_build_file_refs flat_map app Nat.add].
  change (basename (lit "Manager.swift")) with (lit "Manager.swift").
  rewrite (phase_entry_for_hit urandom _ _ (lit "Manager.swift"))
    by (unfold build_file_line, wm_name;
        change (lit "AIPluginWindowManager.swift")
          with (lit "AIPluginWindow" ++ lit "Manager.swift");
        rewrite <- !app_assoc;
        rewrite (app_assoc [TAB; TAB]), (app_assoc _ (lit " /* ")),
          (app_assoc _ (lit "AIPluginWindow"));
        apply contains_middle).
  reflexivity.
Qed.

(** What a run appends for the sources A.swift and B.swift. *)
Lemma appended_entries_two_files (urandom : nat -> N) (d : nat) (r : region) :
  appended_entries r [lit "A.swift"; lit "B.swift"]
    (all_file_references urandom d [lit "A.swift"; lit "B.swift"])
    (all_build_file_refs urandom d [lit "A.swift"; lit "B.swift"])
    (uuid_at urandom d) (uuid_at urandom (S d))
  = two_file_entries urandom d r.
Proof.
  destruct r; cbn [appended_entries].
  - reflexivity.
  - reflexivity.
  - reflexivity.
  - apply new_files_list_two_files.
Qed.

(** On the descriptor laid out as Xcode does, where the entries of the
    two lists land in each other's region, the counts double as well. *)
Lemma xcode_layout_counts_double :
  option_map entry_counts (pbxproj (final_world (run scenario_random xcode_world)))
  = Some [3; 3; 4; 4] /\
  option_map entry_counts
    (pbxproj (final_world
                (run (fun k => scenario_random (k + 6))
                     (final_world (run scenario_random xcode_world)))))
  = Some [6; 6; 8; 8].
Proof. split; vm_compute; reflexivity. Qed.

(** ** The end-to-end scenario *)


(** ** Bundle directories in the resource tree *)

(** C5, the code at en.lproj/Localizable.strings, en.lproj/sub/x.json:
    the bundle is emitted as a folder, its own file is skipped, and the
    file of its sub-directory is emitted all the same. *)
Theorem bundle_subdirectory_is_walked :
  find_all_resource_files resources_dir (Some lproj_tree) =
  [(lit "en.lproj", lit "folder"); (lit "en.lproj/sub/x.json", lit "file")].
Proof. vm_compute. reflexivity. Qed.

(** ** Replacement of the captured text *)

(** C6, the code on a descriptor laid out as Xcode does: the text the
    group pattern captures (a line break and three tabs) is also what the
    phase pattern captures and occurs seven times in the descriptor, once in
    front of every field.  Whatever the identifier, the patch of the group
    list puts the new entry at all seven places, the files list of the
    build phase among them. *)
Theorem group_patch_replaces_every_occurrence :
  region_text SourcesGroup xcode_descriptor = Some [NL; TAB; TAB; TAB] /\
  region_text SourcesPhase xcode_descriptor = Some [NL; TAB; TAB; TAB] /\
  occurrences [NL; TAB; TAB; TAB] xcode_descriptor = 7 /\
  (forall wm_uuid : str,
      patch_sources_group xcode_descriptor wm_uuid
      = Some (lay_out (list_entry wm_uuid wm_name) xcode_lines)) /\
  occurrences (list_entry (scenario_id 0) wm_name)
              (lay_out (list_entry (scenario_id 0) wm_name) xcode_lines) = 7 /\
  region_text SourcesPhase (lay_out (list_entry (scenario_id 0) wm_name) xcode_lines)
  = Some ([NL; TAB; TAB; TAB] ++ list_entry (scenario_id 0) wm_name).
Proof.
  repeat split; vm_compute; reflexivity.
Qed.

(** ** Sources that share a base name *)

(** C7, the code at a/X.swift, b/X.swift: whatever the identifiers
    drawn, the list made for the phase names the build file of a/X.swift
    twice and the build file of b/X.swift never; for a source Manager.swift,
    whose base name is part of the window manager's, it names the window
    manager's build file twice.  In the run on the descriptor of the
    scenario the phase list of the written descriptor holds the identifier
    of the first X.swift build file twice and that of the second never. *)
Theorem same_base_name_duplicates_phase_entry :
  (forall (urandom : nat -> N) (d : nat),
      all_build_file_refs urandom d [lit "a/X.swift"; lit "b/X.swift"]
      = [build_file_line (uuid_at urandom (1 + d)) wm_name (uuid_at urandom d);
         build_file_line (uuid_at urandom (3 + d)) (lit "X.swift") (uuid_at urandom (2 + d));
         build_file_line (uuid_at urandom (5 + d)) (lit "X.swift") (uuid_at urandom (4 + d))] /\
      new_files_list [lit "a/X.swift"; lit "b/X.swift"]
        (all_build_file_refs urandom d [lit "a/X.swift"; lit "b/X.swift"])
        (uuid_at urandom (S d))
      = [list_entry (uuid_at urandom (1 + d)) (wm_name ++ lit " in Sources");
         list_entry (uuid_at urandom (3 + d)) (lit "X.swift in Sources");
         list_entry (uuid_at urandom (3 + d)) (lit "X.swift in Sources")] /\
      new_files_list [lit "Manager.swift"]
        (all_build_file_refs urandom d [lit "Manager.swift"])
        (uuid_at urandom (S d))
      = [list_entry (uuid_at urandom (1 + d)) (wm_name ++ lit " in Sources");
         list_entry (uuid_at urandom (1 + d)) (lit "Manager.swift in Sources")]) /\
  find_all_swift_files aiplugins_dir (Some same_name_tree)
  = [lit "a/X.swift"; lit "b/X.swift"] /\
  option_map (entries_of SourcesPhase)
             (pbxproj (final_world (run scenario_random same_name_world)))
  = Some (map as_entry
            [list_entry (scenario_id 1) (wm_name ++ lit " in Sources");
             list_entry (scenario_id 3) (lit "X.swift in Sources");
             list_entry (scenario_id 3) (lit "X.swift in Sources")]) /\
  option_map (fun text => (occurrences (scenario_id 3) text, occurrences (scenario_id 5) text))
             (option_map (fun d => concat (entries_of SourcesPhase d))
                         (pbxproj (final_world (run scenario_random same_name_world))))
  = Some (2, 0).
Proof.
  split.
  - intros urandom d. split; [reflexivity|]. split.
    + apply new_files_list_same_base_name.
    + apply new_files_list_substring_name.
  - repeat split; vm_compute; reflexivity.
Qed.

(** * Further properties *)

(** ** Identifiers *)

(** The version digit: bits 76-79 of the integer are 0100. *)
Lemma uuid4_version_nibble (r : N) :
  N.land (N.shiftr (Uuid.uuid4_int r) 76) 15 = 4%N.
Proof.
  apply N.bits_inj. intros i.
  rewrite N.land_spec, N.shiftr_spec'.
  unfold Uuid.uuid4_int.
  rewrite N.lor_spec, N.ldiff_spec.
  destruct (N.lt_ge_cases i 4) as [Hi|Hi].
  - assert (Hc : i = 0%N \/ i = 1%N \/ i = 2%N \/ i = 3%N) by lia.
    destruct Hc as [-> | [-> | [-> | ->]]]; cbn;
      rewrite ?andb_false_r, ?orb_true_r, ?orb_false_r, ?andb_true_r; reflexivity.
  - change 15%N with (N.ones 4). rewrite N.ones_spec_high by exact Hi.
    rewrite andb_false_r. symmetry.
    apply N.bits_above_log2. cbn. lia.
Qed.

(** The variant bits: bits 63-62 of the integer are 10. *)
Lemma uuid4_variant_bits (r : N) :
  N.testbit (N.land (N.shiftr (Uuid.uuid4_int r) 60) 15) 3 = true /\
  N.testbit (N.land (N.shiftr (Uuid.uuid4_int r) 60) 15) 2 = false.
Proof.
  rewrite !N.land_spec, !N.shiftr_spec'.
  unfold Uuid.uuid4_int.
  rewrite !N.lor_spec, !N.ldiff_spec, !N.lor_spec, !N.ldiff_spec.
  split; cbn; rewrite ?andb_false_r, ?orb_true_r, ?orb_false_r, ?andb_true_r; reflexivity.
Qed.

(** X1: every identifier has 24 characters, all of them digits or the
    letters A to F; its 13th character is the version digit 4 and its 17th
    is one of 8, 9, A, B, whatever the random source gives. *)
Theorem generate_uuid_format :
  forall r : N,
    List.length (Uuid.generate_uuid r) = 24 /\
    forallb Uuid.is_upper_hex (Uuid.generate_uuid r) = true /\
    nth 12 (Uuid.generate_uuid r) "0"%char = "4"%char /\
    In (nth 16 (Uuid.generate_uuid r) "0"%char) (lit "89AB").
Proof.
  intros r. split; [apply generate_uuid_length|].
  split; [apply generate_uuid_hex|]. split.
  - unfold Uuid.generate_uuid, Uuid.upper, Uuid.hex32.
    cbn [seq rev app firstn map nth].
    change (4 * N.of_nat 19)%N with 76%N.
    rewrite uuid4_version_nibble. reflexivity.
  - unfold Uuid.generate_uuid, Uuid.upper, Uuid.hex32.
    cbn [seq rev app firstn map nth].
    change (4 * N.of_nat 15)%N with 60%N.
    destruct (uuid4_variant_bits r) as [H3 H2].
    assert (Hlt : (N.land (N.shiftr (Uuid.uuid4_int r) 60) 15 < 16)%N).
    { change 15%N with (N.ones 4). rewrite N.land_ones. apply N.mod_lt. discriminate. }
    destruct (N.land (N.shiftr (Uuid.uuid4_int r) 60) 15) as [|p]; [discriminate H3|].
    do 4 (destruct p as [p|p|]; try discriminate H3; try discriminate H2;
          try (cbn; tauto)); exfalso; lia.
Qed.

(** ** Synthesis *)

Lemma record_id_of_line (u rest : str) :
  List.length u = 24 -> record_id ([TAB; TAB] ++ u ++ rest) = u.
Proof.
  intros H. unfold record_id. cbn [app skipn].
  rewrite firstn_app, H, Nat.sub_diag, firstn_all2 by lia.
  cbn [firstn]. apply app_nil_r.
Qed.

Lemma record_id_file_reference (urandom : nat -> N) (k : nat) (name path : str) :
  record_id (file_reference_line (uuid_at urandom k) name path) = uuid_at urandom k.
Proof. apply record_id_of_line, generate_uuid_length. Qed.

Lemma record_id_build_file (urandom : nat -> N) (k : nat) (name file_ref : str) :
  record_id (build_file_line (uuid_at urandom k) name file_ref) = uuid_at urandom k.
Proof. apply record_id_of_line, generate_uuid_length. Qed.

Lemma map_seq_step (A : Type) (f : nat -> A) (n : nat) :
  map f (seq 0 (S n)) = f 0 :: map (fun i => f (S i)) (seq 0 n).
Proof. cbn [seq map]. now rewrite <- seq_shift, map_map. Qed.

Lemma swift_record_ids (urandom : nat -> N) (swift_files : list str) :
  forall d : nat,
    map record_id (swift_file_references urandom d swift_files)
    = map (fun i => uuid_at urandom (d + 2 * i)) (seq 0 (List.length swift_files)) /\
    map record_id (swift_build_file_refs urandom d swift_files)
    = map (fun i => uuid_at urandom (d + 2 * i + 1)) (seq 0 (List.length swift_files)).
Proof.
  induction swift_files as [|f l IH]; intros d; [split; reflexivity|].
  cbn [swift_file_references swift_build_file_refs List.length].
  rewrite !map_seq_step. cbn [map].
  rewrite record_id_file_reference, record_id_build_file.
  destruct (IH (S (S d))) as [-> ->]. split; f_equal.
  - f_equal. lia.
  - apply map_ext. intros i. f_equal. lia.
  - f_equal. lia.
  - apply map_ext. intros i. f_equal. lia.
Qed.

(** X2: the synthesis returns normally, reads two values of the random
    source per record pair and nothing else: the identifiers of the
    PBXFileReference lines are the draws at positions d, d+2, d+4, ... and
    those of the PBXBuildFile lines the draws at d+1, d+3, ..., one pair for
    the window manager and one per source, in order; no draw is used for two
    records.  It prints nothing and leaves the world as it is. *)
Theorem synthesize_uses_consecutive_draws :
  forall (urandom : nat -> N) (swift_files : list str) (st : state),
    match synthesize urandom swift_files st with
    | (inr (wm_uuid, wm_build_uuid, file_references, build_file_refs), st') =>
        map record_id file_references
        = map (fun i => uuid_at urandom (draws st + 2 * i))
              (seq 0 (S (List.length swift_files))) /\
        map record_id build_file_refs
        = map (fun i => uuid_at urandom (draws st + 2 * i + 1))
              (seq 0 (S (List.length swift_files))) /\
        wm_uuid = uuid_at urandom (draws st) /\
        wm_build_uuid = uuid_at urandom (draws st + 1) /\
        draws st' = draws st + 2 * S (List.length swift_files) /\
        the_world st' = the_world st /\
        console st' = console st
    | (inl _, _) => False
    end.
Proof.
  intros urandom swift_files st.
  rewrite synthesize_outline. cbn [draws the_world console].
  unfold all_file_references, all_build_file_refs.
  rewrite !map_seq_step. cbn [map].
  rewrite record_id_file_reference, record_id_build_file.
  destruct (swift_record_ids urandom swift_files (S (S (draws st)))) as [-> ->].
  repeat split.
  - f_equal; [f_equal; lia|]. apply map_ext. intros i. f_equal. lia.
  - f_equal; [f_equal; lia|]. apply map_ext. intros i. f_equal. lia.
  - f_equal. lia.
  - lia.
Qed.

(** ** What a run does to the world *)



(** ** A patch only inserts text *)

Lemma startswith_split (p : str) :
  forall s : str, startswith p s = true -> s = p ++ skipn (List.length p) s.
Proof.
  induction p as [|a p IH]; intros s H; [reflexivity|].
  destruct s as [|b s]; [discriminate H|].
  cbn [startswith] in H. apply andb_prop in H. destruct H as [Hab Hp].
  apply Ascii.eqb_eq in Hab. subst b. cbn [List.length skipn app].
  f_equal. apply IH, Hp.
Qed.

Lemma join_cons (sep x y : str) (l : list str) :
  join sep (x :: y :: l) = x ++ sep ++ join sep (y :: l).
Proof. reflexivity. Qed.

Lemma join_cons_nonempty (sep x : str) (l : list str) :
  l <> [] -> join sep (x :: l) = x ++ sep ++ join sep l.
Proof. destruct l; [congruence | reflexivity]. Qed.

Lemma join_head_cons (sep : str) (c : ascii) (p : str) (l : list str) :
  join sep ((c :: p) :: l) = c :: join sep (p :: l).
Proof. destruct l; reflexivity. Qed.

Lemma contains_head (p : str) (c : ascii) (s : str) :
  startswith p (c :: s) = false -> contains p (c :: s) = contains p s.
Proof.
  unfold contains. cbn [find]. intros ->. destruct (find p s); reflexivity.
Qed.

(** Replacing [old] by [old ++ add] cuts the text into pieces and puts
    [add] between them. *)
Lemma replace_pieces (c0 : ascii) (old' add : str) (n : nat) :
  forall s : str,
    List.length s <= n ->
    exists pieces,
      s = concat pieces /\
      replace (c0 :: old') ((c0 :: old') ++ add) s = join add pieces /\
      pieces <> [] /\
      (contains (c0 :: old') s = true -> 2 <= List.length pieces).
Proof.
  induction n as [|n IH]; intros s Hn.
  - destruct s; [|cbn in Hn; lia].
    exists [[]]. repeat split; try discriminate.
  - destruct s as [|c s].
    + exists [[]]. repeat split; try discriminate.
    + destruct (startswith (c0 :: old') (c :: s)) eqn:E.
      * pose proof (startswith_split _ _ E) as Hs.
        set (rest := skipn (List.length (c0 :: old')) (c :: s)) in *.
        destruct (IH rest) as (pieces & Hc & Hr & Hne & _).
        { subst rest. rewrite length_skipn. cbn [List.length] in *. lia. }
        exists ((c0 :: old') :: pieces). repeat split.
        -- rewrite Hs. cbn [concat]. now rewrite <- Hc.
        -- rewrite Hs, replace_at_occurrence, Hr.
           rewrite join_cons_nonempty by exact Hne.
           now rewrite <- app_assoc.
        -- discriminate.
        -- intros _. destruct pieces; [congruence | cbn; lia].
      * destruct (IH s) as (pieces & Hc & Hr & Hne & H2).
        { cbn [List.length] in Hn. lia. }
        destruct pieces as [|p0 ps]; [congruence|].
        exists ((c :: p0) :: ps). repeat split.
        -- cbn [concat app]. f_equal. exact Hc.
        -- rewrite replace_elsewhere by exact E.
           rewrite Hr. symmetry. apply join_head_cons.
        -- discriminate.
        -- rewrite contains_head by exact E. exact H2.
Qed.

Lemma replace_empty_pieces (add s : str) :
  exists pieces,
    s = concat pieces /\
    replace [] ([] ++ add) s = join add pieces /\
    2 <= List.length pieces.
Proof.
  exists ([] :: map (fun c => [c]) s ++ [[]]). repeat split.
  - cbn [concat app]. induction s as [|c s IH]; [reflexivity|].
    cbn [map app concat]. f_equal. exact IH.
  - unfold replace. cbn [app].
    rewrite join_cons_nonempty by (destruct s; discriminate).
    cbn [app]. f_equal.
    induction s as [|c s IH]; [reflexivity|].
    cbn [flat_map map app].
    rewrite join_cons_nonempty by (destruct s; discriminate).
    cbn [app]. f_equal. f_equal. exact IH.
  - cbn [List.length]. rewrite length_app. cbn. lia.
Qed.

(** What a pattern captures is part of the subject. *)
Lemma group_in_subject (m : match_object) (g : nat) :
  contains (group m g) (subject m) = true.
Proof.
  unfold group. destruct (lookup_span g (group_spans m)) as [[a b]|].
  - rewrite <- (firstn_skipn a (subject m)) at 2.
    rewrite <- (firstn_skipn (b - a) (skipn a (subject m))) at 2.
    apply contains_middle.
  - destruct (subject m); reflexivity.
Qed.

Lemma region_text_in_content (r : region) (content old : str) :
  region_text r content = Some old -> contains old content = true.
Proof.
  unfold region_text, search.
  destruct (search_from (pattern_of r) content 0) as [st|]; [|discriminate].
  cbn [option_map]. intros [= <-].
  apply (group_in_subject (MatchObject content (spans st))).
Qed.

(** X4: a patch changes the text only by inserting copies of what it
    appends: the patched text is the old text cut into at least two pieces
    with the appended text put between them.  No character of the
    descriptor is removed or changed, and at least one copy is inserted. *)
Theorem patch_only_inserts :
  forall (r : region) (content : str)
         (swift_files file_references build_file_refs : list str)
         (wm_uuid wm_build_uuid : str),
    match patch_region r content swift_files file_references build_file_refs
                       wm_uuid wm_build_uuid with
    | Some patched =>
        exists pieces,
          content = concat pieces /\
          patched = join (render_entries r
                            (appended_entries r swift_files file_references
                                              build_file_refs wm_uuid wm_build_uuid))
                         pieces /\
          2 <= List.length pieces
    | None => True
    end.
Proof.
  intros r content sf frs brs wm wmb.
  rewrite patch_region_appends.
  destruct (region_text r content) as [old|] eqn:E; cbn [option_map]; [|exact I].
  apply region_text_in_content in E.
  destruct old as [|c0 old'].
  - destruct (replace_empty_pieces
                (render_entries r (appended_entries r sf frs brs wm wmb)) content)
      as (pieces & Hc & Hr & H2).
    exists pieces. auto.
  - destruct (replace_pieces c0 old'
                (render_entries r (appended_entries r sf frs brs wm wmb))
                (List.length content) content (le_n _))
      as (pieces & Hc & Hr & _ & H2).
    exists pieces. auto.
Qed.

(** ** Facts about [find] *)

Lemma find_none_startswith (p : str) :
  forall (s : str) (j : nat), find p s = None -> startswith p (skipn j s) = false.
Proof.
  induction s as [|c s IH]; intros j H; cbn [find] in H.
  - destruct (startswith p []) eqn:E; [discriminate H|].
    now destruct j.
  - destruct (startswith p (c :: s)) eqn:E; [discriminate H|].
    destruct j as [|j]; [exact E|]. cbn [skipn]. apply IH.
    destruct (find p s); [discriminate H | reflexivity].
Qed.

Lemma find_none_skipn (p : str) (n : nat) :
  forall s : str, find p s = None -> find p (skipn n s) = None.
Proof.
  induction n as [|n IH]; intros s H; [exact H|].
  destruct s as [|c s]; [exact H|]. cbn [skipn]. apply IH.
  cbn [find] in H. destruct (startswith p (c :: s)); [discriminate H|].
  destruct (find p s); [discriminate H | reflexivity].
Qed.

Lemma find_some (p : str) :
  forall (s : str) (i : nat),
    find p s = Some i ->
    startswith p (skipn i s) = true /\
    (forall j, j < i -> startswith p (skipn j s) = false) /\
    i <= List.length s.
Proof.
  induction s as [|c s IH]; intros i H; cbn [find] in H.
  - destruct (startswith p []) eqn:E; [|discriminate H].
    injection H as <-. repeat split; [exact E | lia | lia].
  - destruct (startswith p (c :: s)) eqn:E.
    + injection H as <-. repeat split; [exact E | lia | lia].
    + destruct (find p s) as [i'|] eqn:F; [|discriminate H].
      injection H as <-. destruct (IH i' eq_refl) as (H1 & H2 & H3).
      repeat split; [exact H1 | | cbn; lia].
      intros [|j] Hj; [exact E|]. cbn [skipn]. apply H2. lia.
Qed.

Lemma find_some_split (p s : str) (i : nat) :
  find p s = Some i ->
  s = firstn i s ++ p ++ skipn (i + List.length p) s.
Proof.
  intros H. destruct (find_some p s i H) as (H1 & _ & _).
  rewrite <- (firstn_skipn i s) at 1. f_equal.
  rewrite (startswith_split _ _ H1) at 1. f_equal.
  rewrite skipn_skipn. f_equal. lia.
Qed.

(** ** The section patterns, read as two searches *)

Lemma advance_advance (j k : nat) (st : mstate) :
  advance k (advance j st) = advance (j + k) st.
Proof. destruct st. unfold advance. cbn. f_equal. lia. Qed.

Lemma advance_zero (st : mstate) : advance 0 st = st.
Proof. destruct st. unfold advance. cbn. f_equal. lia. Qed.


(** The lazy part of a section pattern stops at the first end marker. *)
Lemma lazy_loop_end_marker (E : str) :
  forall (t : str) (st : mstate),
    lazy_loop [Close; Open; Lit E; Close] t st
    = option_map
        (fun k => close_group (advance (List.length E)
                                 (open_group (close_group (advance k st)))))
        (find E t).
Proof.
  induction t as [|c t IH]; intros st.
  - cbn [lazy_loop match_here find]. destruct (startswith E []); cbn [option_map].
    + now rewrite advance_zero.
    + reflexivity.
  - cbn [lazy_loop match_here find]. destruct (startswith E (c :: t)); cbn [option_map].
    + now rewrite advance_zero.
    + rewrite IH. destruct (find E t) as [k|]; cbn [option_map]; [|reflexivity].
      now rewrite advance_advance.
Qed.

Lemma match_here_open (rest : list item) (s : str) (st : mstate) :
  match_here (Open :: rest) s st = match_here rest s (open_group st).
Proof. reflexivity. Qed.

Lemma match_here_close (rest : list item) (s : str) (st : mstate) :
  match_here (Close :: rest) s st = match_here rest s (close_group st).
Proof. reflexivity. Qed.

Lemma match_here_lit (l : str) (rest : list item) (s : str) (st : mstate) :
  match_here (Lit l :: rest) s st
  = if startswith l s
    then match_here rest (skipn (List.length l) s) (advance (List.length l) st)
    else None.
Proof. reflexivity. Qed.

Lemma match_here_section (B E s : str) (p : nat) :
  match_here (section_pattern B E) s (MState p 0 [] [])
  = if startswith B s
    then option_map (section_end B E p) (find E (skipn (List.length B) s))
    else None.
Proof.
  unfold section_pattern. rewrite match_here_open, match_here_lit.
  destruct (startswith B s); [|reflexivity].
  rewrite match_here_lazy, lazy_loop_end_marker.
  destruct (find E (skipn (List.length B) s)) as [k|]; cbn [option_map]; [|reflexivity].
  unfold section_end, advance, open_group, close_group. cbn.
  f_equal.
Qed.

(** [re.search] of a section pattern: the first begin marker, then the
    first end marker behind it. *)
Lemma search_from_section (B E : str) :
  forall (s : str) (start : nat),
    search_from (section_pattern B E) s start
    = match find B s with
      | None => None
      | Some i =>
          option_map (section_end B E (start + i))
                     (find E (skipn (i + List.length B) s))
      end.
Proof.
  induction s as [|c s IH]; intros start.
  - cbn [search_from]. rewrite match_here_section. cbn [find].
    destruct (startswith B []); [|reflexivity].
    rewrite Nat.add_0_r. cbn [Nat.add].
    destruct (find E (skipn (List.length B) [])); reflexivity.
  - cbn [search_from]. rewrite match_here_section. cbn [find].
    destruct (startswith B (c :: s)) eqn:HB.
    + rewrite Nat.add_0_r. cbn [Nat.add].
      destruct (find E (skipn (List.length B) (c :: s))) as [k|] eqn:HE;
        cbn [option_map]; [reflexivity|].
      rewrite IH. destruct (find B s) as [i|]; [|reflexivity].
      replace (skipn (i + List.length B) s)
        with (skipn (S i) (skipn (List.length B) (c :: s)))
        by (rewrite skipn_skipn; replace (S i + List.length B) with (S (i + List.length B)) by lia;
            reflexivity).
      now rewrite find_none_skipn.
    + rewrite IH. destruct (find B s) as [i|]; cbn [option_map]; [|reflexivity].
      replace (S start + i) with (start + S i) by lia. reflexivity.
Qed.

(** ** Facts about [replace] *)

Lemma contains_false_cons (p : str) (c : ascii) (s : str) :
  contains p (c :: s) = false -> startswith p (c :: s) = false /\ contains p s = false.
Proof.
  intros H. split.
  - destruct (startswith p (c :: s)) eqn:E; [|reflexivity].
    apply startswith_contains in E. congruence.
  - destruct (contains p s) eqn:E; [|reflexivity].
    apply (contains_cons p c) in E. congruence.
Qed.

(** Nothing to replace: the text stays. *)
Lemma replace_none (c0 : ascii) (old' new : str) :
  forall s : str, contains (c0 :: old') s = false -> replace (c0 :: old') new s = s.
Proof.
  induction s as [|c s IH]; intros H; [reflexivity|].
  apply contains_false_cons in H. destruct H as [H1 H2].
  rewrite replace_elsewhere by exact H1. f_equal. apply IH, H2.
Qed.

(** No occurrence starts in [pre]: [pre] is kept. *)
Lemma replace_first (c0 : ascii) (old' new : str) :
  forall pre rest : str,
    (forall j, j < List.length pre ->
               startswith (c0 :: old') (skipn j (pre ++ rest)) = false) ->
    replace (c0 :: old') new (pre ++ rest) = pre ++ replace (c0 :: old') new rest.
Proof.
  induction pre as [|c pre IH]; intros rest H; [reflexivity|].
  cbn [app]. rewrite replace_elsewhere by (apply (H 0); cbn; lia).
  f_equal. apply IH. intros j Hj. apply (H (S j)). cbn. lia.
Qed.

Lemma startswith_app_l (p q : str) :
  forall s : str, startswith (p ++ q) s = true -> startswith p s = true.
Proof.
  induction p as [|a p IH]; intros s H; [reflexivity|].
  destruct s as [|b s]; [discriminate H|].
  cbn [app startswith] in *. apply andb_prop in H. destruct H as [-> H].
  cbn [andb]. apply IH, H.
Qed.

Lemma find_app_l (p q : str) :
  forall s : str, find (p ++ q) s <> None -> find p s <> None.
Proof.
  induction s as [|c s IH]; cbn [find].
  - destruct (startswith (p ++ q) []) eqn:E; [|congruence].
    now rewrite (startswith_app_l _ _ _ E).
  - destruct (startswith (p ++ q) (c :: s)) eqn:E.
    + now rewrite (startswith_app_l _ _ _ E).
    + intros H. destruct (startswith p (c :: s)); [discriminate|].
      destruct (find (p ++ q) s); [|cbn [option_map] in H; congruence].
      destruct (find p s); [discriminate|]. exfalso. apply IH; [discriminate | reflexivity].
Qed.

Lemma contains_app_l (p q s : str) :
  contains p s = false -> contains (p ++ q) s = false.
Proof.
  unfold contains. intros H.
  destruct (find (p ++ q) s) eqn:E; [|reflexivity].
  exfalso. apply (find_app_l p q s); [congruence|].
  destruct (find p s); [discriminate H | reflexivity].
Qed.

(** A text that begins [p ++ s] and is not found in [p] extends [p]. *)
Lemma startswith_over (old : str) :
  forall p s : str,
    startswith old (p ++ s) = true ->
    startswith old p = true \/ exists q, old = p ++ q.
Proof.
  induction old as [|a old IH]; intros p s H; [left; reflexivity|].
  destruct p as [|b p]; [right; eexists; reflexivity|].
  cbn [app startswith] in *. apply andb_prop in H. destruct H as [Hab H].
  rewrite Hab. cbn [andb]. apply Ascii.eqb_eq in Hab. subst b.
  destruct (IH p s H) as [Hp|[q ->]]; [left; exact Hp|].
  right. exists q. reflexivity.
Qed.

(** A prefix in which [old] does not occur survives the replacement of
    [old] by [old ++ add]. *)
Lemma replace_keeps_prefix (c0 : ascii) (old' add : str) :
  forall p s : str,
    contains (c0 :: old') p = false ->
    exists tail, replace (c0 :: old') ((c0 :: old') ++ add) (p ++ s) = p ++ tail.
Proof.
  induction p as [|c p IH]; intros s H; [eexists; reflexivity|].
  apply contains_false_cons in H. destruct H as [H1 H2].
  destruct (startswith (c0 :: old') ((c :: p) ++ s)) eqn:E.
  - destruct (startswith_over _ _ _ E) as [Hp|[q Hq]]; [congruence|].
    rewrite (startswith_split _ _ E), replace_at_occurrence.
    set (R := replace _ _ _). rewrite Hq. rewrite <- !app_assoc.
    eexists. reflexivity.
  - cbn [app] in *. rewrite replace_elsewhere by exact E.
    destruct (IH s H2) as [tail ->]. eexists. reflexivity.
Qed.

(** ** Where a section patch puts its lines *)

Lemma section_decomposition (B E content : str) (i k : nat) :
  find B content = Some i ->
  find E (skipn (i + List.length B) content) = Some k ->
  exists pre mid post,
    content = pre ++ B ++ mid ++ E ++ post /\
    List.length pre = i /\ List.length mid = k.
Proof.
  intros HB HE.
  pose proof (find_some_split _ _ _ HB) as H1.
  pose proof (find_some_split _ _ _ HE) as H2.
  destruct (find_some _ _ _ HB) as (_ & _ & Hi).
  destruct (find_some _ _ _ HE) as (_ & _ & Hk).
  exists (firstn i content), (firstn k (skipn (i + List.length B) content)),
    (skipn (k + List.length E) (skipn (i + List.length B) content)).
  split; [|split].
  - rewrite <- H2. exact H1.
  - apply firstn_length_le, Hi.
  - apply firstn_length_le, Hk.
Qed.

Lemma section_patch_placement (b0 : ascii) (B' E content : str) (lines : list str) :
  contains (b0 :: B') E = false ->
  placed_after_section (b0 :: B') E content lines
    (patch_section (section_pattern (b0 :: B') E) content lines).
Proof.
  intros HBE. unfold placed_after_section, patch_section, search.
  rewrite search_from_section.
  destruct (find (b0 :: B') content) as [i|] eqn:HB; [|reflexivity].
  destruct (find E (skipn (i + List.length (b0 :: B')) content)) as [k|] eqn:HE;
    cbn [option_map]; [|reflexivity].
  destruct (section_decomposition _ _ _ _ _ HB HE) as (pre & mid & post & Hc & Hi & Hk).
  destruct (find_some _ _ _ HB) as (_ & Hbefore & _).
  set (B := b0 :: B') in *.
  assert (Hg : group (MatchObject content (spans (section_end B E (0 + i) k))) 1 = B ++ mid).
  { unfold group, section_end. cbn [spans group_spans lookup_span Nat.eqb subject Nat.add].
    replace (i + List.length B + k - i) with (List.length B + k) by lia.
    rewrite Hc, <- Hi, skipn_app, Nat.sub_diag, skipn_all. cbn [skipn app].
    rewrite firstn_app, firstn_all2 by lia.
    replace (List.length B + k - List.length B) with k by lia.
    rewrite <- Hk, firstn_app, Nat.sub_diag, firstn_all. cbn [firstn].
    now rewrite app_nil_r. }
  rewrite Hg.
  destruct (replace_keeps_prefix b0 (B' ++ mid) ([NL] ++ join [NL] lines ++ [NL]) E post)
    as [tail Htail].
  { apply (contains_app_l (b0 :: B') mid). exact HBE. }
  exists pre, post, tail. repeat split.
  - rewrite <- app_assoc. exact Hc.
  - now rewrite Hi.
  - apply startswith_app.
  - rewrite <- app_assoc, skipn_app, Nat.sub_diag, skipn_all. cbn [skipn app].
    rewrite length_app, Nat.add_comm, Nat.add_sub.
    assert (Hs : skipn (i + List.length B) content = mid ++ E ++ post).
    { rewrite Hc, <- Hi, app_assoc, <- length_app, skipn_app, Nat.sub_diag, skipn_all.
      reflexivity. }
    rewrite Hs in HE. rewrite HE, Hk. reflexivity.
  - f_equal. rewrite Hc at 1.
    replace (pre ++ B ++ mid ++ E ++ post) with (pre ++ (B ++ mid) ++ E ++ post)
      by now rewrite <- app_assoc.
    unfold B. cbn [app].
    rewrite (replace_first b0 (B' ++ mid)).
    + change (b0 :: (B' ++ mid) ++ E ++ post) with ((b0 :: B' ++ mid) ++ E ++ post).
      rewrite replace_at_occurrence.
      f_equal. etransitivity; [apply f_equal; exact Htail|].
      cbn [app]. rewrite <- !app_assoc. cbn [app]. rewrite <- !app_assoc. reflexivity.
    + intros j Hj.
      destruct (startswith (b0 :: B' ++ mid) (skipn j (pre ++ b0 :: (B' ++ mid) ++ E ++ post)))
        eqn:Es; [|reflexivity].
      change (b0 :: B' ++ mid) with ((b0 :: B') ++ mid) in Es.
      apply startswith_app_l in Es.
      rewrite <- (Hbefore j) by lia. rewrite <- Es. f_equal. f_equal.
      rewrite Hc. unfold B. now rewrite <- app_assoc.
Qed.

(** X5: the two section patches, on every descriptor: the pattern
    captures from the first begin marker of the text up to the first end
    marker behind it; everything in front of the captured text and the
    captured text itself are kept as they are, and the new lines come
    directly behind the captured text and in front of that end marker.
    Without a begin marker, or without an end marker behind the first one,
    there is no patch. *)
Theorem section_patches_append_behind_content :
  forall (content : str) (swift_files file_references build_file_refs : list str)
         (wm_uuid wm_build_uuid : str),
    placed_after_section
      (lit "/* Begin PBXFileReference section */")
      (NL :: lit "/* End PBXFileReference section */")
      content file_references
      (patch_region FileReferenceSection content swift_files file_references
                    build_file_refs wm_uuid wm_build_uuid) /\
    placed_after_section
      (lit "/* Begin PBXBuildFile section */")
      (NL :: lit "/* End PBXBuildFile section */")
      content build_file_refs
      (patch_region BuildFileSection content swift_files file_references
                    build_file_refs wm_uuid wm_build_uuid).
Proof.
  intros content sf frs brs wm wmb. split.
  - apply (section_patch_placement "/"%char (lit "* Begin PBXFileReference section */")).
    vm_compute. reflexivity.
  - apply (section_patch_placement "/"%char (lit "* Begin PBXBuildFile section */")).
    vm_compute. reflexivity.
Qed.

(** ** The list patterns, read as three searches *)

Lemma find_at_least (p : str) (n : nat) :
  forall (s : str) (i j : nat),
    find p s = Some i -> find p (skipn n s) = Some j -> i <= n + j.
Proof.
  intros s i j Hi Hj.
  destruct (find_some _ _ _ Hi) as (_ & Hbefore & _).
  destruct (find_some _ _ _ Hj) as (Hat & _ & _).
  rewrite skipn_skipn in Hat.
  destruct (Nat.le_gt_cases i (n + j)) as [H|H]; [exact H|].
  rewrite (Hbefore (j + n)) in Hat by lia. discriminate.
Qed.

Lemma find_then_none_skipn (K C : str) (n : nat) (t : str) :
  find_then K C t = None -> find_then K C (skipn n t) = None.
Proof.
  unfold find_then. intros H.
  destruct (find K t) as [k1|] eqn:E1.
  - destruct (find C (skipn (k1 + List.length K) t)) eqn:E2; [discriminate H|].
    destruct (find K (skipn n t)) as [k1'|] eqn:E3; [|reflexivity].
    pose proof (find_at_least _ _ _ _ _ E1 E3) as Hle.
    rewrite skipn_skipn.
    replace (k1' + List.length K + n) with ((n + k1' - k1) + (k1 + List.length K)) by lia.
    rewrite <- skipn_skipn. now rewrite find_none_skipn.
  - now rewrite find_none_skipn.
Qed.

Lemma find_then_cons (K C : str) (c : ascii) (t : str) :
  startswith K (c :: t) = false ->
  find_then K C (c :: t)
  = option_map (fun k => (S (fst k), snd k)) (find_then K C t).
Proof.
  unfold find_then. cbn [find]. intros ->.
  destruct (find K t) as [k1|]; cbn [option_map]; [|reflexivity].
  cbn [Nat.add skipn]. destruct (find C (skipn (k1 + List.length K) t)); reflexivity.
Qed.

(** The state behind the key and the closing text of a list pattern. *)
Lemma lazy_loop_key_closing (K C : str) :
  forall (t : str) (st : mstate),
    lazy_loop [Lit K; Close; Open; LazyAny; Close; Open; Lit C; Close] t st
    = option_map
        (fun k =>
           close_group
             (advance (List.length C)
                (open_group
                   (close_group
                      (advance (snd k)
                         (open_group
                            (close_group
                               (advance (List.length K) (advance (fst k) st)))))))))
        (find_then K C t).
Proof.
  assert (Hhere : forall t st,
             match_here [Lit K; Close; Open; LazyAny; Close; Open; Lit C; Close] t st
             = if startswith K t
               then option_map
                      (fun k2 =>
                         close_group
                           (advance (List.length C)
                              (open_group
                                 (close_group
                                    (advance k2
                                       (open_group
                                          (close_group (advance (List.length K) st))))))))
                      (find C (skipn (List.length K) t))
               else None).
  { intros t st. rewrite match_here_lit. destruct (startswith K t); [|reflexivity].
    rewrite match_here_close, match_here_open, match_here_lazy.
    apply lazy_loop_end_marker. }
  induction t as [|c t IH]; intros st.
  - cbn [lazy_loop]. rewrite Hhere. unfold find_then. cbn [find].
    destruct (startswith K []); [|reflexivity].
    cbn [Nat.add].
    destruct (find C (skipn (List.length K) [])); cbn [option_map fst snd];
      [now rewrite advance_zero | reflexivity].
  - cbn [lazy_loop]. rewrite Hhere.
    destruct (startswith K (c :: t)) eqn:EK.
    + destruct (find C (skipn (List.length K) (c :: t))) as [k2|] eqn:EC.
      * unfold find_then. cbn [find]. rewrite EK. cbn [Nat.add]. rewrite EC.
        cbn [option_map fst snd]. now rewrite advance_zero.
      * cbn [option_map]. rewrite IH.
        assert (Hn : find_then K C (c :: t) = None).
        { unfold find_then. cbn [find]. rewrite EK. cbn [Nat.add]. now rewrite EC. }
        rewrite Hn. apply (find_then_none_skipn K C 1) in Hn. cbn [skipn] in Hn.
        now rewrite Hn.
    + rewrite IH, find_then_cons by exact EK.
      destruct (find_then K C t) as [[k1 k2]|]; cbn [option_map fst snd]; [|reflexivity].
      now rewrite (advance_advance 1 k1).
Qed.

Lemma advance_mk (k p c : nat) (o : list (nat * nat)) (sp : list (nat * (nat * nat))) :
  advance k (MState p c o sp) = MState (p + k) c o sp.
Proof. reflexivity. Qed.

Lemma open_group_mk (p c : nat) (o : list (nat * nat)) (sp : list (nat * (nat * nat))) :
  open_group (MState p c o sp) = MState p (S c) ((S c, p) :: o) sp.
Proof. reflexivity. Qed.

Lemma close_group_mk (p c g start : nat) (o : list (nat * nat))
    (sp : list (nat * (nat * nat))) :
  close_group (MState p c ((g, start) :: o) sp) = MState p c o ((g, (start, p)) :: sp).
Proof. reflexivity. Qed.

Lemma match_here_list (H K C s : str) (p : nat) :
  match_here (list_pattern H K C) s (MState p 0 [] [])
  = if startswith H s
    then option_map (list_end H K C p) (find_then K C (skipn (List.length H) s))
    else None.
Proof.
  unfold list_pattern. rewrite match_here_open, match_here_lit.
  destruct (startswith H s); [|reflexivity].
  rewrite match_here_lazy, lazy_loop_key_closing.
  destruct (find_then K C (skipn (List.length H) s)) as [[k1 k2]|];
    cbn [option_map]; [|reflexivity].
  repeat first [rewrite advance_mk | rewrite open_group_mk | rewrite close_group_mk].
  unfold list_end. cbn [fst snd]. repeat (f_equal; try lia).
Qed.

(** [re.search] of a list pattern: the first header, then the first key
    behind it, then the first closing text behind the key. *)
Lemma search_from_list (H K C : str) :
  forall (s : str) (start : nat),
    search_from (list_pattern H K C) s start
    = match find H s with
      | None => None
      | Some i =>
          option_map (list_end H K C (start + i))
                     (find_then K C (skipn (i + List.length H) s))
      end.
Proof.
  induction s as [|c s IH]; intros start.
  - cbn [search_from]. rewrite match_here_list. cbn [find].
    destruct (startswith H []); [|reflexivity].
    rewrite Nat.add_0_r. cbn [Nat.add].
    destruct (find_then K C (skipn (List.length H) [])); reflexivity.
  - cbn [search_from]. rewrite match_here_list. cbn [find].
    destruct (startswith H (c :: s)) eqn:HH.
    + rewrite Nat.add_0_r. cbn [Nat.add].
      destruct (find_then K C (skipn (List.length H) (c :: s))) as [k|] eqn:HE;
        cbn [option_map]; [reflexivity|].
      rewrite IH. destruct (find H s) as [i|]; [|reflexivity].
      replace (skipn (i + List.length H) s)
        with (skipn (S i) (skipn (List.length H) (c :: s)))
        by (rewrite skipn_skipn; replace (S i + List.length H) with (S (i + List.length H)) by lia;
            reflexivity).
      now rewrite find_then_none_skipn.
    + rewrite IH. destruct (find H s) as [i|]; cbn [option_map]; [|reflexivity].
      replace (S start + i) with (start + S i) by lia. reflexivity.
Qed.

(** ** A captured text that occurs once *)

Lemma occurrences_zero (p : str) :
  forall s : str, occurrences p s = 0 -> contains p s = false.
Proof.
  unfold contains. induction s as [|c s IH]; cbn [occurrences find].
  - destruct (startswith p []); [discriminate | reflexivity].
  - destruct (startswith p (c :: s)); [discriminate|].
    cbn [Nat.add]. intros H. specialize (IH H).
    destruct (find p s); [discriminate IH | reflexivity].
Qed.

Lemma occurrences_cons (p : str) (c : ascii) (s : str) :
  occurrences p (c :: s)
  = (if startswith p (c :: s) then 1 else 0) + occurrences p s.
Proof. reflexivity. Qed.

Lemma occurrences_nil :
  forall s : str, occurrences [] s = S (List.length s).
Proof.
  induction s as [|c s IH]; [reflexivity|].
  rewrite occurrences_cons, IH. reflexivity.
Qed.

Lemma occurrences_app_ge (p a : str) :
  forall s : str, occurrences p s <= occurrences p (a ++ s).
Proof.
  induction a as [|c a IH]; intros s; [apply le_n|].
  cbn [app occurrences]. specialize (IH s). lia.
Qed.

Lemma occurrences_at_head (c0 : ascii) (old' b : str) :
  occurrences (c0 :: old') ((c0 :: old') ++ b)
  = 1 + occurrences (c0 :: old') (old' ++ b).
Proof.
  cbn [app occurrences].
  change (c0 :: old' ++ b) with ((c0 :: old') ++ b).
  now rewrite startswith_app.
Qed.

(** The one occurrence is replaced, the rest is kept. *)
Lemma replace_unique (c0 : ascii) (old' new : str) :
  forall a b : str,
    occurrences (c0 :: old') (a ++ (c0 :: old') ++ b) = 1 ->
    replace (c0 :: old') new (a ++ (c0 :: old') ++ b) = a ++ new ++ b.
Proof.
  induction a as [|c a IH]; intros b H.
  - cbn [app] in H |- *.
    change (c0 :: old' ++ b) with ((c0 :: old') ++ b) in *.
    rewrite occurrences_at_head in H.
    rewrite replace_at_occurrence. f_equal.
    apply replace_none.
    assert (Hz : contains (c0 :: old') (old' ++ b) = false)
      by (apply occurrences_zero; lia).
    destruct (contains (c0 :: old') b) eqn:E; [|reflexivity].
    rewrite <- Hz. symmetry. now apply contains_app_r.
  - change ((c :: a) ++ (c0 :: old') ++ b) with (c :: (a ++ (c0 :: old') ++ b)) in *.
    rewrite occurrences_cons in H.
    pose proof (occurrences_app_ge (c0 :: old') a ((c0 :: old') ++ b)) as Hge.
    rewrite occurrences_at_head in Hge.
    destruct (startswith (c0 :: old') (c :: (a ++ (c0 :: old') ++ b))) eqn:E; [lia|].
    rewrite replace_elsewhere by exact E.
    cbn [app]. f_equal. apply IH. exact H.
Qed.

Lemma startswith_length (p : str) :
  forall s : str, startswith p s = true -> List.length p <= List.length s.
Proof.
  induction p as [|a p IH]; intros s H; [cbn; lia|].
  destruct s as [|b s]; [discriminate H|].
  cbn [startswith] in H. apply andb_prop in H. destruct H as [_ H].
  specialize (IH s H). cbn. lia.
Qed.

Lemma find_some_bound (p s : str) (i : nat) :
  find p s = Some i -> i + List.length p <= List.length s.
Proof.
  intros H. destruct (find_some _ _ _ H) as (Hat & _ & Hi).
  apply startswith_length in Hat. rewrite length_skipn in Hat. lia.
Qed.

Lemma list_decomposition (H K C content : str) (i k1 k2 : nat) :
  find H content = Some i ->
  find_then K C (skipn (i + List.length H) content) = Some (k1, k2) ->
  exists pre children post,
    content = pre ++ children ++ C ++ post /\
    List.length pre = i + List.length H + k1 + List.length K /\
    List.length children = k2.
Proof.
  intros HH HT. unfold find_then in HT.
  destruct (find K (skipn (i + List.length H) content)) as [k1'|] eqn:HK; [|discriminate HT].
  destruct (find C (skipn (k1' + List.length K) (skipn (i + List.length H) content)))
    as [k2'|] eqn:HC; [|discriminate HT].
  cbn [option_map] in HT. injection HT as -> ->.
  pose proof (find_some_bound _ _ _ HH) as B1.
  pose proof (find_some_bound _ _ _ HK) as B2. rewrite length_skipn in B2.
  pose proof (find_some_bound _ _ _ HC) as B3. rewrite !length_skipn in B3.
  pose proof (find_some_split _ _ _ HC) as S3.
  rewrite skipn_skipn in S3, HC.
  set (q := k1 + List.length K + (i + List.length H)) in *.
  exists (firstn q content), (firstn k2 (skipn q content)),
    (skipn (k2 + List.length C) (skipn q content)).
  split; [|split].
  - rewrite <- S3. symmetry. apply firstn_skipn.
  - rewrite firstn_length_le by lia. unfold q. lia.
  - rewrite firstn_length_le; [reflexivity|]. rewrite length_skipn. lia.
Qed.

(** The section patch when the captured text occurs once. *)
Lemma unique_section_capture (B E content old new : str) :
  E <> [] ->
  option_map (fun m => group m 1) (search (section_pattern B E) content) = Some old ->
  occurrences old content = 1 ->
  exists pre post,
    content = pre ++ old ++ E ++ post /\
    replace old new content = pre ++ new ++ E ++ post.
Proof.
  intros HEne Hs Hocc. unfold search in Hs. rewrite search_from_section in Hs.
  destruct (find B content) as [i|] eqn:HB; [|discriminate Hs].
  destruct (find E (skipn (i + List.length B) content)) as [k|] eqn:HE; [|discriminate Hs].
  cbn [option_map] in Hs. injection Hs as Hs.
  destruct (section_decomposition _ _ _ _ _ HB HE) as (pre & mid & post & Hc & Hi & Hk).
  assert (Hold : old = B ++ mid).
  { rewrite <- Hs. unfold group, section_end.
    cbn [spans group_spans lookup_span Nat.eqb subject Nat.add].
    replace (i + List.length B + k - i) with (List.length B + k) by lia.
    rewrite Hc, <- Hi, skipn_app, Nat.sub_diag, skipn_all. cbn [skipn app].
    rewrite firstn_app, firstn_all2 by lia.
    replace (List.length B + k - List.length B) with k by lia.
    rewrite <- Hk, firstn_app, Nat.sub_diag, firstn_all. cbn [firstn].
    now rewrite app_nil_r. }
  assert (Hc' : content = pre ++ old ++ E ++ post)
    by (rewrite Hold, <- app_assoc; exact Hc).
  exists pre, post. split; [exact Hc'|].
  destruct old as [|c0 old'].
  - exfalso. rewrite occurrences_nil, Hc' in Hocc.
    destruct E as [|e E']; [congruence|].
    rewrite !length_app in Hocc. cbn [List.length] in Hocc. lia.
  - rewrite Hc' in Hocc |- *. rewrite (replace_unique c0 old' new pre (E ++ post) Hocc).
    reflexivity.
Qed.

(** The list patch when the captured text occurs once. *)
Lemma unique_list_capture (H K C content old new : str) :
  C <> [] ->
  option_map (fun m => group m 2) (search (list_pattern H K C) content) = Some old ->
  occurrences old content = 1 ->
  exists pre post,
    content = pre ++ old ++ C ++ post /\
    replace old new content = pre ++ new ++ C ++ post.
Proof.
  intros HCne Hs Hocc. unfold search in Hs. rewrite search_from_list in Hs.
  destruct (find H content) as [i|] eqn:HH; [|discriminate Hs].
  destruct (find_then K C (skipn (i + List.length H) content)) as [[k1 k2]|] eqn:HT;
    [|discriminate Hs].
  cbn [option_map] in Hs. injection Hs as Hs.
  destruct (list_decomposition _ _ _ _ _ _ _ HH HT) as (pre & children & post & Hc & Hq & Hk).
  assert (Hold : old = children).
  { rewrite <- Hs. unfold group, list_end.
    cbn [spans group_spans lookup_span Nat.eqb subject Nat.add fst snd].
    rewrite Nat.add_comm, Nat.add_sub.
    rewrite Hc, <- Hq, skipn_app, Nat.sub_diag, skipn_all. cbn [skipn app].
    rewrite <- Hk, firstn_app, Nat.sub_diag, firstn_all. cbn [firstn].
    now rewrite app_nil_r. }
  subst children.
  exists pre, post. split; [exact Hc|].
  destruct old as [|c0 old'].
  - exfalso. rewrite occurrences_nil, Hc in Hocc.
    destruct C as [|e C']; [congruence|].
    rewrite !length_app in Hocc. cbn [List.length] in Hocc. lia.
  - rewrite Hc in Hocc |- *. rewrite (replace_unique c0 old' new pre (C ++ post) Hocc).
    reflexivity.
Qed.

(** The patch of a region whose captured text occurs once. *)
Lemma unique_capture_in_place (r : region) (content : str)
    (swift_files file_references build_file_refs : list str)
    (wm_uuid wm_build_uuid old : str) :
  region_text r content = Some old ->
  occurrences old content = 1 ->
  exists pre post : str,
    content = pre ++ old ++ closing_of r ++ post /\
    patch_region r content swift_files file_references build_file_refs
                 wm_uuid wm_build_uuid
    = Some (pre ++ old
            ++ render_entries r
                 (appended_entries r swift_files file_references build_file_refs
                                   wm_uuid wm_build_uuid)
            ++ closing_of r ++ post).
Proof.
  intros Hregion Hocc.
  rewrite patch_region_appends, Hregion. cbn [option_map].
  set (new := render_entries r _).
  assert (Hgen : exists pre post,
             content = pre ++ old ++ closing_of r ++ post /\
             replace old (old ++ new) content = pre ++ (old ++ new) ++ closing_of r ++ post).
  { unfold region_text in Hregion.
    destruct r; cbn [pattern_of captured_group closing_of] in Hregion |- *.
    - apply (unique_section_capture (lit "/* Begin PBXFileReference section */"));
        [discriminate | exact Hregion | exact Hocc].
    - apply (unique_section_capture (lit "/* Begin PBXBuildFile section */"));
        [discriminate | exact Hregion | exact Hocc].
    - apply (unique_list_capture (lit "080E96DDFE201D6D7F000001 /* Sources */ = {")
                                 (lit "children = ("));
        [discriminate | exact Hregion | exact Hocc].
    - apply (unique_list_capture (lit "8D11072C0486CEB800E47090 /* Sources */ = {")
                                 (lit "files = ("));
        [discriminate | exact Hregion | exact Hocc]. }
  destruct Hgen as (pre & post & Hc & Hr).
  exists pre, post. split; [exact Hc|].
  rewrite Hr, <- app_assoc. reflexivity.
Qed.

(** X6: when the text a pattern captures occurs once in the descriptor,
    the patch of that region changes the descriptor at one place only:
    the new entries are inserted between the captured text and the text
    that closes the region (the end marker of a section, the closing
    parenthesis of a membership list); everything in front of the
    captured text and everything behind the closing text is kept. *)
Theorem unique_capture_is_patched_in_place :
  forall (r : region) (content : str)
         (swift_files file_references build_file_refs : list str)
         (wm_uuid wm_build_uuid old : str),
    region_text r content = Some old ->
    occurrences old content = 1 ->
    exists pre post : str,
      content = pre ++ old ++ closing_of r ++ post /\
      patch_region r content swift_files file_references build_file_refs
                   wm_uuid wm_build_uuid
      = Some (pre ++ old
              ++ render_entries r
                   (appended_entries r swift_files file_references build_file_refs
                                     wm_uuid wm_build_uuid)
              ++ closing_of r ++ post).
Proof.
  intros r content swift_files file_references build_file_refs wm_uuid wm_build_uuid old.
  apply unique_capture_in_place.
Qed.

Lemma unique_capture_witness :
  exists old : str,
    region_text SourcesPhase scenario_descriptor = Some old /\
    occurrences old scenario_descriptor = 1 /\
    exists pre post : str,
      scenario_descriptor = pre ++ old ++ closing_of SourcesPhase ++ post /\
      patch_region SourcesPhase scenario_descriptor
                   [lit "A.swift"] [] [lit "x"; lit "A.swift in Sources"]
                   (lit "W") (lit "B")
      = Some (pre ++ old
              ++ render_entries SourcesPhase
                   (appended_entries SourcesPhase [lit "A.swift"] []
                                     [lit "x"; lit "A.swift in Sources"]
                                     (lit "W") (lit "B"))
              ++ closing_of SourcesPhase ++ post).
Proof.
  destruct (region_text SourcesPhase scenario_descriptor) as [old|] eqn:E;
    [|vm_compute in E; discriminate E].
  exists old.
  assert (Hocc : occurrences old scenario_descriptor = 1).
  { vm_compute in E. injection E as <-. vm_compute. reflexivity. }
  split; [reflexivity|]. split; [exact Hocc|].
  apply (unique_capture_is_patched_in_place SourcesPhase scenario_descriptor
           [lit "A.swift"] [] [lit "x"; lit "A.swift in Sources"]
           (lit "W") (lit "B") old E Hocc).
Defined.

(** ** The entries of the compile phase name build files of the run *)

Lemma phase_entry_for_names_a_line (name : str) (build_file_refs : list str) :
  (forall ref, In ref build_file_refs ->
     exists u n file_ref,
       ref = build_file_line u n file_ref /\
       List.length u = 24 /\ forallb Uuid.is_upper_hex u = true) ->
  forall entry : str,
    In entry (phase_entry_for name build_file_refs) ->
    exists ref,
      In ref build_file_refs /\ contains name ref = true /\
      entry = list_entry (record_id ref) (name ++ lit " in Sources").
Proof.
  induction build_file_refs as [|ref more IH]; intros Hshape entry Hin.
  - destruct Hin.
  - cbn [phase_entry_for] in Hin.
    destruct (contains name ref) eqn:En; cbn [andb] in Hin.
    + destruct (contains (lit " in Sources ") ref) eqn:Es.
      * destruct (Hshape ref (or_introl eq_refl)) as (u & n & fr & -> & Hlen & Hhex).
        pose proof (uuid_of_build_file_line u n fr Hlen Hhex) as Hu.
        destruct (search uuid_pattern _) as [m|]; [|discriminate Hu].
        cbn [option_map] in Hu. injection Hu as Hu. rewrite Hu in Hin.
        destruct Hin as [<-|[]].
        exists (build_file_line u n fr).
        split; [left; reflexivity|]. split; [exact En|].
        unfold build_file_line. now rewrite record_id_of_line.
      * destruct (IH (fun r Hr => Hshape r (or_intror Hr)) entry Hin) as (r & Hr & Hc & He).
        exists r. split; [right; exact Hr | split; assumption].
    + destruct (IH (fun r Hr => Hshape r (or_intror Hr)) entry Hin) as (r & Hr & Hc & He).
      exists r. split; [right; exact Hr | split; assumption].
Qed.

Lemma all_build_file_refs_shape (urandom : nat -> N) (d : nat) (swift_files : list str)
    (ref : str) :
  In ref (all_build_file_refs urandom d swift_files) ->
  exists u n file_ref,
    ref = build_file_line u n file_ref /\
    List.length u = 24 /\ forallb Uuid.is_upper_hex u = true.
Proof.
  unfold all_build_file_refs. intros [<-|Hin].
  - do 3 eexists. split; [reflexivity|].
    split; [apply generate_uuid_length | apply generate_uuid_hex].
  - apply swift_build_file_refs_shape in Hin. destruct Hin as (k & name & ->).
    do 3 eexists. split; [reflexivity|].
    split; [apply generate_uuid_length | apply generate_uuid_hex].
Qed.

(** X7: the entries the script appends to the list of the compile phase
    never dangle.  With the records one run synthesizes, the list gets one
    entry for the window manager and one for each discovered source, and
    every entry carries the identifier of a build file record of the same
    run; the entry of a source carries the identifier of a record whose
    line holds the base name of that source. *)
Theorem phase_entries_name_build_files_of_the_run :
  forall (urandom : nat -> N) (swift_files : list str) (st : state),
    match synthesize urandom swift_files st with
    | (inr (_, wm_build_uuid, _, build_file_refs), _) =>
        let entries := new_files_list swift_files build_file_refs wm_build_uuid in
        List.length entries = S (List.length swift_files) /\
        nth 0 entries [] = list_entry (record_id (nth 0 build_file_refs []))
                                      (wm_name ++ lit " in Sources") /\
        Forall (fun entry =>
                  exists swift_file ref,
                    In swift_file swift_files /\ In ref build_file_refs /\
                    contains (basename swift_file) ref = true /\
                    entry = list_entry (record_id ref)
                                       (basename swift_file ++ lit " in Sources"))
               (tl entries)
    | (inl _, _) => False
    end.
Proof.
  intros urandom swift_files st. rewrite synthesize_outline.
  cbv zeta. split; [apply new_files_list_length|]. split.
  - unfold new_files_list, all_build_file_refs. cbn [app nth].
    now rewrite record_id_build_file.
  - unfold new_files_list. cbn [app tl].
    apply Forall_forall. intros entry Hin.
    apply in_flat_map in Hin. destruct Hin as (f & Hf & Hin).
    destruct (phase_entry_for_names_a_line (basename f) _
                (all_build_file_refs_shape urandom (draws st) swift_files) entry Hin)
      as (ref & Hr & Hc & He).
    exists f, ref. repeat split; assumption.
Qed.

(** ** [sorted] *)

Section SortFacts.

Variable A : Type.
Variable leb : A -> A -> bool.

Lemma insert_sorted_permutation (x : A) :
  forall l : list A, Permutation.Permutation (x :: l) (insert_sorted leb x l).
Proof.
  induction l as [|y l IH]; cbn [insert_sorted].
  - apply Permutation.Permutation_refl.
  - destruct (leb y x).
    + eapply Permutation.perm_trans; [apply Permutation.perm_swap|].
      apply Permutation.perm_skip, IH.
    + apply Permutation.Permutation_refl.
Qed.

Lemma fold_insert_permutation :
  forall l acc : list A,
    Permutation.Permutation (l ++ acc)
      (fold_left (fun acc x => insert_sorted leb x acc) l acc).
Proof.
  induction l as [|x l IH]; intros acc; cbn [fold_left app].
  - apply Permutation.Permutation_refl.
  - eapply Permutation.perm_trans; [|apply IH].
    eapply Permutation.perm_trans; [apply Permutation.Permutation_middle|].
    apply Permutation.Permutation_app_head, insert_sorted_permutation.
Qed.

Lemma sorted_permutation (l : list A) :
  Permutation.Permutation l (sorted leb l).
Proof.
  unfold sorted. pose proof (fold_insert_permutation l []) as H.
  now rewrite app_nil_r in H.
Qed.

Lemma sorted_length (l : list A) : List.length (sorted leb l) = List.length l.
Proof. symmetry. apply Permutation.Permutation_length, sorted_permutation. Qed.

Hypothesis leb_total : forall a b : A, leb a b = false -> leb b a = true.
Hypothesis leb_trans :
  forall a b c : A, leb a b = true -> leb b c = true -> leb a c = true.

Lemma insert_sorted_ordered (x : A) :
  forall l : list A,
    Sorted.StronglySorted (fun a b => leb a b = true) l ->
    Sorted.StronglySorted (fun a b => leb a b = true) (insert_sorted leb x l).
Proof.
  induction l as [|y l IH]; intros Hs; cbn [insert_sorted].
  - constructor; constructor.
  - inversion Hs as [|? ? Hl Hy]; subst.
    destruct (leb y x) eqn:E.
    + constructor; [apply IH, Hl|].
      eapply Permutation.Permutation_Forall; [apply insert_sorted_permutation|].
      constructor; assumption.
    + constructor; [exact Hs|].
      apply leb_total in E. constructor; [exact E|].
      eapply Forall_impl; [|exact Hy].
      intros z Hz. cbv beta in Hz |- *. eapply leb_trans; eassumption.
Qed.

Lemma sorted_ordered (l : list A) :
  Sorted.StronglySorted (fun a b => leb a b = true) (sorted leb l).
Proof.
  unfold sorted.
  assert (H : forall l acc,
             Sorted.StronglySorted (fun a b => leb a b = true) acc ->
             Sorted.StronglySorted (fun a b => leb a b = true)
               (fold_left (fun acc x => insert_sorted leb x acc) l acc)).
  { clear l. induction l as [|x l IH]; intros acc Hacc; cbn [fold_left].
    - exact Hacc.
    - apply IH, insert_sorted_ordered, Hacc. }
  apply H. constructor.
Qed.

End SortFacts.

Lemma nat_of_ascii_injective (x y : ascii) :
  nat_of_ascii x = nat_of_ascii y -> x = y.
Proof.
  intros H. rewrite <- (ascii_nat_embedding x), <- (ascii_nat_embedding y).
  now rewrite H.
Qed.

Lemma str_leb_total : forall a b : str, str_leb a b = false -> str_leb b a = true.
Proof.
  induction a as [|x a IH]; intros [|y b]; cbn [str_leb]; try congruence.
  destruct (Nat.ltb_spec (nat_of_ascii x) (nat_of_ascii y)); [discriminate|].
  destruct (Nat.ltb_spec (nat_of_ascii y) (nat_of_ascii x)); [reflexivity|].
  apply IH.
Qed.

Lemma str_leb_trans :
  forall a b c : str, str_leb a b = true -> str_leb b c = true -> str_leb a c = true.
Proof.
  induction a as [|x a IH]; intros [|y b] [|z c]; cbn [str_leb]; try congruence.
  destruct (Nat.ltb_spec (nat_of_ascii x) (nat_of_ascii y)),
           (Nat.ltb_spec (nat_of_ascii y) (nat_of_ascii x)),
           (Nat.ltb_spec (nat_of_ascii y) (nat_of_ascii z)),
           (Nat.ltb_spec (nat_of_ascii z) (nat_of_ascii y)),
           (Nat.ltb_spec (nat_of_ascii x) (nat_of_ascii z)),
           (Nat.ltb_spec (nat_of_ascii z) (nat_of_ascii x));
    try congruence; try lia.
  apply IH.
Qed.

Lemma str_leb_antisym :
  forall a b : str, str_leb a b = true -> str_leb b a = true -> a = b.
Proof.
  induction a as [|x a IH]; intros [|y b]; cbn [str_leb]; try congruence.
  destruct (Nat.ltb_spec (nat_of_ascii x) (nat_of_ascii y)),
           (Nat.ltb_spec (nat_of_ascii y) (nat_of_ascii x));
    try congruence; try lia.
  intros H1 H2. f_equal; [apply nat_of_ascii_injective; lia | now apply IH].
Qed.

Lemma str_eqb_true (a b : str) : str_eqb a b = true <-> a = b.
Proof. unfold str_eqb. destruct (list_eq_dec ascii_dec a b); split; congruence. Qed.

Lemma str_eqb_false (a b : str) : str_eqb a b = false <-> a <> b.
Proof. unfold str_eqb. destruct (list_eq_dec ascii_dec a b); split; congruence. Qed.

Lemma pair_leb_total :
  forall a b : str * str, pair_leb a b = false -> pair_leb b a = true.
Proof.
  intros [a1 a2] [b1 b2]. unfold pair_leb. cbn [fst snd].
  destruct (str_eqb a1 b1) eqn:E.
  - apply str_eqb_true in E. subst b1.
    replace (str_eqb a1 a1) with true by (symmetry; now apply str_eqb_true).
    apply str_leb_total.
  - apply str_eqb_false in E.
    replace (str_eqb b1 a1) with false by (symmetry; apply str_eqb_false; congruence).
    apply str_leb_total.
Qed.

Lemma pair_leb_trans :
  forall a b c : str * str,
    pair_leb a b = true -> pair_leb b c = true -> pair_leb a c = true.
Proof.
  intros [a1 a2] [b1 b2] [c1 c2]. unfold pair_leb. cbn [fst snd].
  destruct (list_eq_dec ascii_dec a1 b1) as [Eab|Eab],
           (list_eq_dec ascii_dec b1 c1) as [Ebc|Ebc];
    [ replace (str_eqb a1 b1) with true by (symmetry; now apply str_eqb_true)
    | replace (str_eqb a1 b1) with true by (symmetry; now apply str_eqb_true)
    | replace (str_eqb a1 b1) with false by (symmetry; now apply str_eqb_false)
    | replace (str_eqb a1 b1) with false by (symmetry; now apply str_eqb_false) ];
    [ replace (str_eqb b1 c1) with true by (symmetry; now apply str_eqb_true)
    | replace (str_eqb b1 c1) with false by (symmetry; now apply str_eqb_false)
    | replace (str_eqb b1 c1) with true by (symmetry; now apply str_eqb_true)
    | replace (str_eqb b1 c1) with false by (symmetry; now apply str_eqb_false) ];
    subst.
  - replace (str_eqb c1 c1) with true by (symmetry; now apply str_eqb_true).
    apply str_leb_trans.
  - replace (str_eqb b1 c1) with false by (symmetry; now apply str_eqb_false).
    intros _ H. exact H.
  - replace (str_eqb a1 c1) with false by (symmetry; now apply str_eqb_false).
    intros H _. exact H.
  - intros H1 H2. destruct (str_eqb a1 c1) eqn:Eac.
    + apply str_eqb_true in Eac. subst c1.
      exfalso. apply Eab. now apply str_leb_antisym.
    + eapply str_leb_trans; eassumption.
Qed.

(** ** What the walk finds *)

Lemma node_induction (P : node -> Prop) :
  P File ->
  (forall (readable : bool) (entries : list (str * node)),
      Forall (fun e => P (snd e)) entries -> P (Dir readable entries)) ->
  forall n : node, P n.
Proof.
  intros HF HD. fix IH 1. intros [|readable entries]; [exact HF|].
  apply HD. induction entries as [|[name child] es IHes]; constructor.
  - apply IH.
  - exact IHes.
Qed.

Lemma flat_map_keep (B : Type) (keep : str -> bool) (h : str -> B) :
  forall files : list str,
    flat_map (fun file => if keep file then [h file] else []) files
    = map h (filter keep files).
Proof.
  induction files as [|f l IH]; [reflexivity|].
  cbn [flat_map filter]. destruct (keep f); cbn [app map]; now rewrite IH.
Qed.

(** The number of paths a walk yields does not depend on the paths. *)
Lemma walk_count (B : Type) (keep : str -> bool) (h : str -> str -> B) :
  forall (n : node) (top : str),
    List.length
      (flat_map (fun t : str * list str * list str =>
                   let '(root, _, files) := t in
                   flat_map (fun file => if keep file then [h root file] else []) files)
                (walk top n))
    = count_files keep n.
Proof.
  induction n as [|readable entries IH] using node_induction; intros top;
    [reflexivity|].
  destruct readable; [|reflexivity].
  cbn [walk count_files flat_map]. rewrite length_app. f_equal.
  - rewrite flat_map_keep. apply length_map.
  - induction entries as [|[name child] es IHes]; [reflexivity|].
    inversion IH as [|? ? Hchild Hes]; subst. cbn [snd] in Hchild.
    rewrite flat_map_app, length_app, (IHes Hes). f_equal.
    destruct child as [|r es']; [reflexivity|].
    cbn [is_dir]. apply Hchild.
Qed.

(** X8: [find_all_swift_files] returns its paths in ascending order (each
    path is less than or equal to every later one in the order of Python
    strings), and finds as many paths as there are files whose name ends
    in [.swift] in the directories of the tree that can be listed, at any
    depth; a root that does not exist gives the empty list. *)
Theorem swift_discovery_is_ordered_and_complete :
  forall (directory : str) (tree : option node),
    Sorted.StronglySorted (fun a b => str_leb a b = true)
                          (find_all_swift_files directory tree) /\
    List.length (find_all_swift_files directory tree)
    = match tree with
      | Some t => count_files (endswith (lit ".swift")) t
      | None => 0
      end.
Proof.
  intros directory tree. unfold find_all_swift_files. split.
  - apply sorted_ordered; [apply str_leb_total | apply str_leb_trans].
  - rewrite sorted_length. destruct tree as [t|]; [|reflexivity].
    cbn [os_walk].
    apply (walk_count str (endswith (lit ".swift"))
             (fun root file => relpath (path_join root file) directory)).
Qed.

(** X9: [find_all_resource_files] returns its pairs in ascending order,
    by path and then by kind, and the kind of every pair is [file] or
    [folder]. *)
Theorem resource_discovery_is_ordered :
  forall (directory : str) (tree : option node),
    Sorted.StronglySorted (fun a b => pair_leb a b = true)
                          (find_all_resource_files directory tree) /\
    Forall (fun entry => snd entry = lit "file" \/ snd entry = lit "folder")
           (find_all_resource_files directory tree).
Proof.
  intros directory tree. unfold find_all_resource_files. split.
  - apply sorted_ordered; [apply pair_leb_total | apply pair_leb_trans].
  - eapply Permutation.Permutation_Forall; [apply sorted_permutation|].
    apply Forall_forall. intros entry Hin.
    apply in_flat_map in Hin. destruct Hin as ([[root dirs] files] & _ & Hin).
    destruct (endswith (lit ".lproj") root).
    + destruct Hin as [<-|[]]. right. reflexivity.
    + apply in_flat_map in Hin. destruct Hin as (file & _ & Hin).
      destruct (existsb _ extensions); [|destruct Hin].
      destruct Hin as [<-|[]]. left. reflexivity.
Qed.

(** ** The paths the walk finds, relative to its top *)

Lemma split_slash_app :
  forall a cur b : str,
    split_slash cur (a ++ "/"%char :: b) = split_slash cur a ++ split_slash [] b.
Proof.
  induction a as [|c a IH]; intros cur b; cbn [app split_slash].
  - reflexivity.
  - destruct (Ascii.eqb c "/"%char); [|apply IH].
    cbn [app]. f_equal. apply IH.
Qed.

Lemma no_slash_cons (c : ascii) (s : str) :
  contains (lit "/") (c :: s) = false ->
  Ascii.eqb c "/"%char = false /\ contains (lit "/") s = false.
Proof.
  intros H. apply contains_false_cons in H. destruct H as [Hs Hc].
  split; [|exact Hc].
  cbn [lit] in Hs. change (lit "/") with ["/"%char] in Hs.
  cbn [startswith] in Hs. rewrite andb_true_r in Hs.
  now rewrite Ascii.eqb_sym.
Qed.

Lemma split_slash_name :
  forall name cur : str,
    contains (lit "/") name = false -> split_slash cur name = [rev cur ++ name].
Proof.
  induction name as [|c name IH]; intros cur H; cbn [split_slash].
  - now rewrite app_nil_r.
  - apply no_slash_cons in H. destruct H as [Hc H]. rewrite Hc, IH by exact H.
    cbn [rev]. now rewrite <- app_assoc.
Qed.

Lemma entry_name_facts (name : str) :
  entry_name name = true ->
  name <> [] /\ contains (lit "/") name = false /\ name <> lit ".".
Proof.
  unfold entry_name. intros H.
  apply andb_prop in H. destruct H as [H _].
  apply andb_prop in H. destruct H as [H H3].
  apply andb_prop in H. destruct H as [H1 H2].
  apply negb_true_iff in H1, H2, H3.
  apply str_eqb_false in H1, H3. auto.
Qed.

Lemma components_of_name (name : str) :
  entry_name name = true -> components name = [name].
Proof.
  intros H. destruct (entry_name_facts name H) as (H1 & H2 & H3).
  unfold components. rewrite split_slash_name by exact H2. cbn [rev app filter].
  replace (str_eqb name []) with false by (symmetry; now apply str_eqb_false).
  replace (str_eqb name (lit ".")) with false by (symmetry; now apply str_eqb_false).
  reflexivity.
Qed.

Lemma components_app (a name : str) :
  entry_name name = true ->
  components (a ++ "/"%char :: name) = components a ++ [name].
Proof.
  intros H. unfold components. rewrite split_slash_app, filter_app.
  f_equal. apply (components_of_name name H).
Qed.

Lemma endswith_slash (a : str) :
  endswith (lit "/") a = true -> exists a', a = a' ++ ["/"%char].
Proof.
  unfold endswith. change (rev (lit "/")) with ["/"%char].
  destruct (rev a) as [|c r] eqn:E; [discriminate|].
  cbn [startswith]. rewrite andb_true_r. intros H.
  apply Ascii.eqb_eq in H. subst c.
  exists (rev r). rewrite <- (rev_involutive a), E. reflexivity.
Qed.

Lemma components_slash (a : str) : components (a ++ ["/"%char]) = components a.
Proof.
  unfold components. rewrite split_slash_app, filter_app. cbn. apply app_nil_r.
Qed.

(** [os.path.join] adds one component. *)
Lemma components_path_join (root name : str) :
  entry_name name = true ->
  components (path_join root name) = components root ++ [name].
Proof.
  intros H. destruct (entry_name_facts name H) as (H1 & H2 & H3).
  unfold path_join.
  replace (startswith (lit "/") name) with false.
  2:{ symmetry. destruct (startswith (lit "/") name) eqn:E; [|reflexivity].
      apply startswith_contains in E. congruence. }
  destruct root as [|c root].
  - rewrite components_of_name by exact H. reflexivity.
  - destruct (endswith (lit "/") (c :: root)) eqn:E.
    + destruct (endswith_slash _ E) as (a' & ->).
      rewrite <- app_assoc. cbn [app].
      rewrite components_app by exact H. now rewrite components_slash.
    + change (lit "/" ++ name) with ("/"%char :: name).
      apply components_app, H.
Qed.

Lemma common_prefix_length_app (a b : list str) :
  common_prefix_length a (a ++ b) = List.length a.
Proof.
  induction a as [|x a IH]; [destruct b; reflexivity|].
  cbn [app common_prefix_length List.length].
  replace (str_eqb x x) with true by (symmetry; now apply str_eqb_true).
  now rewrite IH.
Qed.

(** [os.path.relpath] of a path below its start. *)
Lemma relpath_below (path start : str) (below : list str) :
  components path = components start ++ below ->
  below <> [] ->
  relpath path start = join (lit "/") below.
Proof.
  intros H Hne. unfold relpath. rewrite H, common_prefix_length_app, Nat.sub_diag.
  cbn [repeat app]. rewrite skipn_app, Nat.sub_diag, skipn_all. cbn [skipn app].
  destruct below; [congruence | reflexivity].
Qed.

Lemma entry_names_dir (readable : bool) (entries : list (str * node)) :
  entry_names (Dir readable entries) = true ->
  Forall (fun e => entry_name (fst e) = true /\ entry_names (snd e) = true) entries.
Proof.
  cbn [entry_names]. intros H. apply andb_prop in H. destruct H as [Hn Hc].
  induction entries as [|[name child] es IH]; constructor.
  - cbn [forallb fst] in Hn. apply andb_prop in Hn. destruct Hn as [Hn _].
    apply andb_prop in Hc. destruct Hc as [Hc _]. split; assumption.
  - cbn [forallb] in Hn. apply andb_prop in Hn. destruct Hn as [_ Hn].
    apply andb_prop in Hc. destruct Hc as [_ Hc]. apply IH; assumption.
Qed.

Lemma walk_paths (keep : str -> bool) (directory : str) :
  forall (n : node) (root : str) (above : list str),
    entry_names n = true ->
    components root = components directory ++ above ->
    flat_map (fun t : str * list str * list str =>
                let '(root, _, files) := t in
                flat_map (fun file =>
                            if keep file
                            then [relpath (path_join root file) directory]
                            else [])
                         files)
             (walk root n)
    = map (join (lit "/")) (files_below keep above n).
Proof.
  induction n as [|readable entries IH] using node_induction;
    intros root above Hnames Hroot; [reflexivity|].
  destruct readable; [|reflexivity].
  apply entry_names_dir in Hnames.
  cbn [walk files_below flat_map]. rewrite map_app. f_equal.
  - rewrite flat_map_keep, map_map. apply map_ext_in.
    intros file Hin. apply filter_In in Hin. destruct Hin as [Hin _].
    apply in_map_iff in Hin. destruct Hin as ([name child] & <- & Hin).
    apply filter_In in Hin. destruct Hin as [Hin _].
    rewrite Forall_forall in Hnames. destruct (Hnames _ Hin) as [Hname _].
    cbn [fst] in *.
    apply relpath_below; [|destruct above; discriminate].
    rewrite components_path_join by exact Hname.
    rewrite Hroot. now rewrite <- app_assoc.
  - induction entries as [|[name child] es IHes]; [reflexivity|].
    inversion IH as [|? ? Hchild Hes]; subst.
    inversion Hnames as [|? ? [Hname Hcn] Hesn]; subst.
    cbn [fst snd] in *.
    rewrite flat_map_app, map_app, (IHes Hes Hesn). f_equal.
    destruct child as [|r es']; [reflexivity|].
    cbn [is_dir]. apply Hchild; [exact Hcn|].
    rewrite components_path_join by exact Hname.
    rewrite Hroot. now rewrite <- app_assoc.
Qed.

(** X10: the paths [find_all_swift_files] returns are relative to the
    directory it is given.  In a tree whose entries have the names a file
    system gives them (not empty, no slash, not a dot or two), the result
    is the sorted list of the files whose name ends in [.swift], each
    written as the names of the directories that lead to it from the top
    and its own name, joined by slashes. *)
Theorem swift_paths_are_relative_to_the_directory :
  forall (directory : str) (t : node),
    entry_names t = true ->
    find_all_swift_files directory (Some t)
    = sorted str_leb
        (map (join (lit "/")) (files_below (endswith (lit ".swift")) [] t)).
Proof.
  intros directory t Hnames. unfold find_all_swift_files. cbn [os_walk]. f_equal.
  apply (walk_paths (endswith (lit ".swift")) directory t directory [] Hnames).
  now rewrite app_nil_r.
Qed.

Lemma swift_paths_witness :
  entry_names same_name_tree = true /\
  find_all_swift_files aiplugins_dir (Some same_name_tree)
  = sorted str_leb
      (map (join (lit "/")) (files_below (endswith (lit ".swift")) [] same_name_tree)).
Proof.
  split; [reflexivity|].
  apply (swift_paths_are_relative_to_the_directory aiplugins_dir same_name_tree).
  reflexivity.
Defined.

(** ** The patterns of the script, read as searches for text *)

Lemma section_text_located (B E content : str) :
  option_map (fun m => group m 1) (search (section_pattern B E) content)
  = match find B content with
    | None => None
    | Some i =>
        match find E (skipn (i + List.length B) content) with
        | None => None
        | Some k => Some (firstn (List.length B + k) (skipn i content))
        end
    end.
Proof.
  unfold search. rewrite search_from_section.
  destruct (find B content) as [i|]; [|reflexivity].
  destruct (find E (skipn (i + List.length B) content)) as [k|]; [|reflexivity].
  cbn [option_map]. f_equal. unfold group, section_end.
  cbn [spans group_spans lookup_span Nat.eqb subject Nat.add].
  f_equal. lia.
Qed.

Lemma list_text_located (H K C content : str) :
  option_map (fun m => group m 2) (search (list_pattern H K C) content)
  = match find H content with
    | None => None
    | Some i =>
        match find_then K C (skipn (i + List.length H) content) with
        | None => None
        | Some (k1, k2) =>
            Some (firstn k2 (skipn (k1 + List.length K)
                                   (skipn (i + List.length H) content)))
        end
    end.
Proof.
  unfold search. rewrite search_from_list.
  destruct (find H content) as [i|]; [|reflexivity].
  destruct (find_then K C (skipn (i + List.length H) content)) as [[k1 k2]|];
    [|reflexivity].
  cbn [option_map]. f_equal. unfold group, list_end.
  cbn [spans group_spans lookup_span Nat.eqb subject Nat.add fst snd].
  rewrite skipn_skipn. f_equal; [lia | f_equal; lia].
Qed.

(** X11: what the four patterns of the script capture is found by plain
    text search.  A section pattern captures the text from the first begin
    marker up to the first end marker behind it; a list pattern captures
    the text between the first key behind the first header and the first
    closing parenthesis behind that key.  The patch of a region is left
    out exactly when this search finds nothing. *)
Theorem region_is_located_by_text_search :
  forall (r : region) (content : str)
         (swift_files file_references build_file_refs : list str)
         (wm_uuid wm_build_uuid : str),
    region_text r content = located r content /\
    (patch_region r content swift_files file_references build_file_refs
                  wm_uuid wm_build_uuid = None
     <-> located r content = None).
Proof.
  intros r content swift_files file_references build_file_refs wm_uuid wm_build_uuid.
  assert (H : region_text r content = located r content).
  { unfold region_text, located.
    destruct r; cbn [pattern_of captured_group anchor_of closing_of key_of].
    - apply (section_text_located (lit "/* Begin PBXFileReference section */")).
    - apply (section_text_located (lit "/* Begin PBXBuildFile section */")).
    - apply (list_text_located (lit "080E96DDFE201D6D7F000001 /* Sources */ = {")
                               (lit "children = (")).
    - apply (list_text_located (lit "8D11072C0486CEB800E47090 /* Sources */ = {")
                               (lit "files = (")). }
  split; [exact H|].
  rewrite patch_region_appends, H.
  destruct (located r content); cbn [option_map]; split; congruence.
Qed.

(** ** The names of the sources that are found *)

Lemma basename_go_name :
  forall p acc : str, contains (lit "/") p = false -> basename_go acc p = acc.
Proof.
  induction p as [|c p IH]; intros acc H; [reflexivity|].
  apply no_slash_cons in H. destruct H as [Hc H].
  cbn [basename_go]. rewrite Hc. now apply IH.
Qed.

Lemma basename_go_app (file : str) :
  contains (lit "/") file = false ->
  forall a acc : str, basename_go acc (a ++ "/"%char :: file) = file.
Proof.
  intros H. induction a as [|c a IH]; intros acc; cbn [app basename_go].
  - cbn [Ascii.eqb Bool.eqb]. now apply basename_go_name.
  - destruct (Ascii.eqb c "/"%char); apply IH.
Qed.

Lemma join_snoc (sep x : str) :
  forall l : list str, l <> [] -> join sep (l ++ [x]) = join sep l ++ sep ++ x.
Proof.
  induction l as [|y l IH]; intros H; [congruence|].
  destruct l as [|z l]; [reflexivity|].
  cbn [app] in IH |- *. rewrite !join_cons, IH by discriminate.
  now rewrite <- !app_assoc.
Qed.

Lemma basename_of_joined (above : list str) (file : str) :
  contains (lit "/") file = false ->
  basename (join (lit "/") (above ++ [file])) = file /\
  endswith file (join (lit "/") (above ++ [file])) = true.
Proof.
  intros H. destruct above as [|a above].
  - cbn [app join]. split; [now apply basename_go_name|].
    unfold endswith. rewrite <- (app_nil_r (rev file)) at 2. apply startswith_app.
  - rewrite join_snoc by discriminate. split.
    + apply basename_go_app, H.
    + unfold endswith. rewrite !rev_app_distr, <- app_assoc. apply startswith_app.
Qed.

Lemma files_below_shape (keep : str -> bool) :
  forall (n : node) (above : list str),
    entry_names n = true ->
    Forall (fun names =>
              exists above' file,
                names = above' ++ [file] /\ keep file = true /\ entry_name file = true)
           (files_below keep above n).
Proof.
  induction n as [|readable entries IH] using node_induction; intros above Hnames;
    [constructor|].
  destruct readable; [|constructor].
  apply entry_names_dir in Hnames. cbn [files_below].
  apply Forall_app. split.
  - apply Forall_forall. intros names Hin.
    apply in_map_iff in Hin. destruct Hin as (file & <- & Hin).
    apply filter_In in Hin. destruct Hin as [Hin Hkeep].
    apply in_map_iff in Hin. destruct Hin as ([name child] & <- & Hin).
    apply filter_In in Hin. destruct Hin as [Hin _].
    rewrite Forall_forall in Hnames. destruct (Hnames _ Hin) as [Hname _].
    exists above, name. cbn [fst] in *. repeat split; assumption.
  - induction entries as [|[name child] es IHes]; [constructor|].
    inversion IH as [|? ? Hchild Hes]; subst.
    inversion Hnames as [|? ? [Hname Hcn] Hesn]; subst.
    cbn [fst snd] in *.
    apply Forall_app. split; [apply Hchild, Hcn | apply IHes; assumption].
Qed.

(** X12: the name that the records of a discovered source carry is the
    name of the file itself.  In a tree whose entries have the names a file
    system gives them, the base name of every path that
    [find_all_swift_files] returns ends in [.swift], holds no slash, and is
    the end of the path. *)
Theorem found_sources_are_named_after_their_file :
  forall (directory : str) (t : node),
    entry_names t = true ->
    Forall (fun swift_file =>
              endswith (lit ".swift") (basename swift_file) = true /\
              entry_name (basename swift_file) = true /\
              endswith (basename swift_file) swift_file = true)
           (find_all_swift_files directory (Some t)).
Proof.
  intros directory t Hnames.
  unfold find_all_swift_files. cbn [os_walk].
  rewrite (walk_paths (endswith (lit ".swift")) directory t directory [] Hnames)
    by now rewrite app_nil_r.
  eapply Permutation.Permutation_Forall; [apply sorted_permutation|].
  apply Forall_forall. intros p Hin.
  apply in_map_iff in Hin. destruct Hin as (names & <- & Hin).
  pose proof (files_below_shape (endswith (lit ".swift")) t [] Hnames) as Hshape.
  rewrite Forall_forall in Hshape.
  destruct (Hshape names Hin) as (above & file & -> & Hkeep & Hname).
  destruct (entry_name_facts file Hname) as (_ & Hslash & _).
  destruct (basename_of_joined above file Hslash) as [Hb He].
  rewrite Hb. repeat split; assumption.
Qed.

Lemma found_sources_witness :
  entry_names same_name_tree = true /\
  Forall (fun swift_file =>
            endswith (lit ".swift") (basename swift_file) = true /\
            entry_name (basename swift_file) = true /\
            endswith (basename swift_file) swift_file = true)
         (find_all_swift_files aiplugins_dir (Some same_name_tree)).
Proof.
  split; [reflexivity|].
  apply (found_sources_are_named_after_their_file aiplugins_dir same_name_tree).
  reflexivity.
Defined.

(** ** The resources the walk finds *)

Lemma startswith_before (c : ascii) (b : str) :
  forall p a : str,
    forallb (fun q => negb (Ascii.eqb q c)) p = true ->
    startswith p (a ++ c :: b) = startswith p a.
Proof.
  induction p as [|q p IH]; intros a H; [reflexivity|].
  cbn [forallb] in H. apply andb_prop in H. destruct H as [Hq Hp].
  destruct a as [|y a]; cbn [app startswith].
  - apply negb_true_iff in Hq. now rewrite Hq.
  - now rewrite IH.
Qed.

Lemma endswith_behind_slash (x name : str) :
  endswith (lit ".lproj") (x ++ "/"%char :: name) = endswith (lit ".lproj") name.
Proof.
  unfold endswith. rewrite rev_app_distr. cbn [rev]. rewrite <- app_assoc. cbn [app].
  apply startswith_before. reflexivity.
Qed.

Lemma endswith_path_join (root name : str) :
  entry_name name = true ->
  endswith (lit ".lproj") (path_join root name) = endswith (lit ".lproj") name.
Proof.
  intros H. destruct (entry_name_facts name H) as (H1 & H2 & H3).
  unfold path_join.
  replace (startswith (lit "/") name) with false.
  2:{ symmetry. destruct (startswith (lit "/") name) eqn:E; [|reflexivity].
      apply startswith_contains in E. congruence. }
  destruct root as [|c root]; [reflexivity|].
  destruct (endswith (lit "/") (c :: root)) eqn:E.
  - destruct (endswith_slash _ E) as (a' & ->).
    rewrite <- app_assoc. cbn [app]. apply endswith_behind_slash.
  - change (lit "/" ++ name) with ("/"%char :: name). apply endswith_behind_slash.
Qed.

(** [os.path.relpath] of a path at or below its start. *)
Lemma relpath_at_or_below (path start : str) (below : list str) :
  components path = components start ++ below ->
  relpath path start
  = match below with [] => lit "." | _ => join (lit "/") below end.
Proof.
  intros H. unfold relpath. rewrite H, common_prefix_length_app, Nat.sub_diag.
  cbn [repeat app]. rewrite skipn_app, Nat.sub_diag, skipn_all. cbn [skipn app].
  reflexivity.
Qed.

Lemma walk_resources (directory : str) :
  forall (n : node) (root : str) (above : list str),
    entry_names n = true ->
    components root = components directory ++ above ->
    flat_map (fun t : str * list str * list str =>
                let '(root, _, files) := t in
                if endswith (lit ".lproj") root
                then [(relpath root directory, lit "folder")]
                else
                  flat_map (fun file =>
                              if existsb (fun ext => endswith ext file) extensions
                              then [(relpath (path_join root file) directory, lit "file")]
                              else [])
                           files)
             (walk root n)
    = resources_below (endswith (lit ".lproj") root) above n.
Proof.
  induction n as [|readable entries IH] using node_induction;
    intros root above Hnames Hroot; [reflexivity|].
  destruct readable; [|reflexivity].
  apply entry_names_dir in Hnames.
  cbn [walk resources_below flat_map]. f_equal.
  - destruct (endswith (lit ".lproj") root).
    + now rewrite (relpath_at_or_below root directory above Hroot).
    + rewrite (flat_map_keep (str * str)
                 (fun file => existsb (fun ext => endswith ext file) extensions)
                 (fun file => (relpath (path_join root file) directory, lit "file"))).
      apply map_ext_in.
      intros file Hin. apply filter_In in Hin. destruct Hin as [Hin _].
      apply in_map_iff in Hin. destruct Hin as ([name child] & <- & Hin).
      apply filter_In in Hin. destruct Hin as [Hin _].
      rewrite Forall_forall in Hnames. destruct (Hnames _ Hin) as [Hname _].
      cbn [fst] in *. f_equal.
      apply relpath_below; [|destruct above; discriminate].
      rewrite components_path_join by exact Hname.
      rewrite Hroot. now rewrite <- app_assoc.
  - induction entries as [|[name child] es IHes]; [reflexivity|].
    inversion IH as [|? ? Hchild Hes]; subst.
    inversion Hnames as [|? ? [Hname Hcn] Hesn]; subst.
    cbn [fst snd] in *.
    rewrite flat_map_app, (IHes Hes Hesn). f_equal.
    destruct child as [|r es']; [reflexivity|].
    cbn [is_dir]. rewrite <- (endswith_path_join root name Hname).
    apply Hchild; [exact Hcn|].
    rewrite components_path_join by exact Hname.
    rewrite Hroot. now rewrite <- app_assoc.
Qed.

(** X13: what [find_all_resource_files] lists, in a tree whose entries
    have the names a file system gives them: the sorted list of one folder
    for every directory whose path ends in [.lproj] and one file for every
    file with a resource extension in any other directory, each written
    relative to the directory given.  The files of a bundle are not listed,
    but the subdirectories of a bundle are visited like any others. *)
Theorem resource_paths_are_relative_to_the_directory :
  forall (directory : str) (t : node),
    entry_names t = true ->
    find_all_resource_files directory (Some t)
    = sorted pair_leb (resources_below (endswith (lit ".lproj") directory) [] t).
Proof.
  intros directory t Hnames. unfold find_all_resource_files. cbn [os_walk]. f_equal.
  apply (walk_resources directory t directory [] Hnames).
  now rewrite app_nil_r.
Qed.

Lemma resource_paths_witness :
  entry_names lproj_tree = true /\
  find_all_resource_files resources_dir (Some lproj_tree)
  = sorted pair_leb (resources_below (endswith (lit ".lproj") resources_dir) [] lproj_tree).
Proof.
  split; [reflexivity|].
  apply (resource_paths_are_relative_to_the_directory resources_dir lproj_tree).
  reflexivity.
Defined.

(** ** The back-references of the build files, read from the text *)

Lemma forallb_impl (A : Type) (f g : A -> bool) (l : list A) :
  (forall x, f x = true -> g x = true) -> forallb f l = true -> forallb g l = true.
Proof.
  intros H Hf. apply forallb_forall. intros x Hx.
  apply H. revert x Hx. apply forallb_forall, Hf.
Qed.

Lemma hex_is_no_slash (c : ascii) :
  Uuid.is_upper_hex c = true -> negb (Ascii.eqb c "/"%char) = true.
Proof.
  destruct c as [[] [] [] [] [] [] [] []]; cbn; intros H;
    first [reflexivity | discriminate H].
Qed.

Lemma hex_is_no_f (c : ascii) :
  Uuid.is_upper_hex c = true -> negb (Ascii.eqb "f"%char c) = true.
Proof.
  destruct c as [[] [] [] [] [] [] [] []]; cbn; intros H;
    first [reflexivity | discriminate H].
Qed.

Lemma hex_is_no_end (c : ascii) :
  Uuid.is_upper_hex c = true ->
  Ascii.eqb c " "%char || Ascii.eqb c ";"%char = false.
Proof.
  destruct c as [[] [] [] [] [] [] [] []]; cbn; intros H;
    first [reflexivity | discriminate H].
Qed.

(** Outside a comment: text without a slash is kept, up to the [/*] that
    opens a comment. *)
Lemma strip_comments_open (rest : str) :
  forall a : str,
    no_slash a = true ->
    strip_comments false (a ++ "/"%char :: "*"%char :: rest)
    = a ++ strip_comments true rest.
Proof.
  induction a as [|c a IH]; intros H; [reflexivity|].
  cbn [no_slash forallb] in H. apply andb_prop in H. destruct H as [Hc Ha].
  apply negb_true_iff in Hc.
  specialize (IH Ha).
  destruct a as [|d a].
  - cbn [app strip_comments]. rewrite Hc. reflexivity.
  - change (strip_comments false ((c :: d :: a) ++ "/"%char :: "*"%char :: rest))
      with (if Ascii.eqb c "/"%char && Ascii.eqb d "*"%char
            then strip_comments true (a ++ "/"%char :: "*"%char :: rest)
            else c :: strip_comments false ((d :: a) ++ "/"%char :: "*"%char :: rest)).
    rewrite Hc, IH. reflexivity.
Qed.

(** Inside a comment: text without a slash is left out, up to the [*/]
    that closes the comment. *)
Lemma strip_comments_close (rest : str) :
  forall x : str,
    no_slash x = true ->
    strip_comments true (x ++ "*"%char :: "/"%char :: rest)
    = strip_comments false rest.
Proof.
  induction x as [|c x IH]; intros H; [reflexivity|].
  cbn [no_slash forallb] in H. apply andb_prop in H. destruct H as [Hc Hx].
  specialize (IH Hx).
  destruct x as [|d x].
  - change (strip_comments true ([c] ++ "*"%char :: "/"%char :: rest))
      with (if Ascii.eqb c "*"%char && Ascii.eqb "*"%char "/"%char
            then strip_comments false ("/"%char :: rest)
            else strip_comments true ([] ++ "*"%char :: "/"%char :: rest)).
    change (Ascii.eqb "*"%char "/"%char) with false.
    rewrite andb_false_r. exact IH.
  - cbn [no_slash forallb] in Hx. apply andb_prop in Hx. destruct Hx as [Hd _].
    apply negb_true_iff in Hd.
    change (strip_comments true ((c :: d :: x) ++ "*"%char :: "/"%char :: rest))
      with (if Ascii.eqb c "*"%char && Ascii.eqb d "/"%char
            then strip_comments false (x ++ "*"%char :: "/"%char :: rest)
            else strip_comments true ((d :: x) ++ "*"%char :: "/"%char :: rest)).
    rewrite Hd, andb_false_r. exact IH.
Qed.

Lemma strip_comments_none :
  forall a : str, no_slash a = true -> strip_comments false a = a.
Proof.
  induction a as [|c a IH]; intros H; [reflexivity|].
  cbn [no_slash forallb] in H. apply andb_prop in H. destruct H as [Hc Ha].
  apply negb_true_iff in Hc. specialize (IH Ha).
  destruct a as [|d a]; [reflexivity|].
  change (strip_comments false (c :: d :: a))
    with (if Ascii.eqb c "/"%char && Ascii.eqb d "*"%char
          then strip_comments true a
          else c :: strip_comments false (d :: a)).
  rewrite Hc, IH. reflexivity.
Qed.

(** The first occurrence of a text behind a text that does not hold its
    first character. *)
Lemma find_behind (p0 : ascii) (p' s : str) :
  forall a : str,
    forallb (fun c => negb (Ascii.eqb p0 c)) a = true ->
    find (p0 :: p') (a ++ (p0 :: p') ++ s) = Some (List.length a).
Proof.
  induction a as [|c a IH]; intros H.
  - cbn [app List.length find].
    change (p0 :: p' ++ s) with ((p0 :: p') ++ s).
    now rewrite startswith_app.
  - cbn [forallb] in H. apply andb_prop in H. destruct H as [Hc Ha].
    apply negb_true_iff in Hc.
    cbn [app find startswith List.length]. rewrite Hc. cbn [andb].
    change (a ++ p0 :: p' ++ s) with (a ++ (p0 :: p') ++ s).
    rewrite (IH Ha). reflexivity.
Qed.

Lemma value_of_identifier (rest : str) :
  forall u : str,
    forallb Uuid.is_upper_hex u = true ->
    value (u ++ " "%char :: rest) = u.
Proof.
  induction u as [|c u IH]; intros H; [reflexivity|].
  cbn [forallb] in H. apply andb_prop in H. destruct H as [Hc Hu].
  cbn [app value]. rewrite (hex_is_no_end c Hc). f_equal. apply IH, Hu.
Qed.

(** The base name of a path holds no slash. *)
Lemma basename_go_no_slash :
  forall p acc : str,
    (no_slash p = true -> no_slash acc = true) ->
    no_slash (basename_go acc p) = true.
Proof.
  induction p as [|c p IH]; intros acc H; cbn [basename_go].
  - apply H. reflexivity.
  - destruct (Ascii.eqb c "/"%char) eqn:E.
    + apply IH. intros Hp. exact Hp.
    + apply IH. intros Hp. apply H. cbn [no_slash forallb]. rewrite E. exact Hp.
Qed.

Lemma basename_no_slash (p : str) : no_slash (basename p) = true.
Proof. apply basename_go_no_slash. intros H. exact H. Qed.

(** The field [fileRef] of a PBXBuildFile line is the identifier the line
    was made with. *)
Lemma file_ref_of_build_file_line (u name file_ref : str) :
  forallb Uuid.is_upper_hex u = true ->
  no_slash name = true ->
  forallb Uuid.is_upper_hex file_ref = true ->
  file_ref_of (build_file_line u name file_ref) = file_ref.
Proof.
  intros Hu Hname Hf.
  assert (Hstrip : strip_comments false (build_file_line u name file_ref)
                   = ([TAB; TAB] ++ u ++ lit "  = {isa = PBXBuildFile; ")
                     ++ lit "fileRef = " ++ (file_ref ++ lit " ; };")).
  { unfold build_file_line.
    replace ([TAB; TAB] ++ u ++ lit " /* " ++ name
             ++ lit " in Sources */ = {isa = PBXBuildFile; fileRef = " ++ file_ref
             ++ lit " /* " ++ name ++ lit " */; };")
      with (([TAB; TAB] ++ u ++ lit " ") ++ "/"%char :: "*"%char ::
            (lit " " ++ name ++ lit " in Sources ") ++ "*"%char :: "/"%char ::
            (lit " = {isa = PBXBuildFile; fileRef = " ++ file_ref ++ lit " ")
            ++ "/"%char :: "*"%char ::
            (lit " " ++ name ++ lit " ") ++ "*"%char :: "/"%char :: lit "; };")
      by (rewrite <- !app_assoc; cbn [app lit]; rewrite <- ?app_assoc; reflexivity).
    rewrite strip_comments_open.
    2:{ unfold no_slash. rewrite !forallb_app. cbn [forallb lit].
        rewrite (forallb_impl _ _ _ u hex_is_no_slash Hu). reflexivity. }
    rewrite strip_comments_close.
    2:{ unfold no_slash in *. rewrite !forallb_app, Hname. reflexivity. }
    rewrite strip_comments_open.
    2:{ unfold no_slash. rewrite !forallb_app.
        rewrite (forallb_impl _ _ _ file_ref hex_is_no_slash Hf). reflexivity. }
    rewrite strip_comments_close.
    2:{ unfold no_slash in *. rewrite !forallb_app, Hname. reflexivity. }
    rewrite strip_comments_none by reflexivity.
    rewrite <- !app_assoc. reflexivity. }
  unfold file_ref_of. cbv zeta. rewrite Hstrip.
  change (lit "fileRef = ") with ("f"%char :: lit "ileRef = ").
  rewrite find_behind.
  2:{ rewrite !forallb_app. cbn [forallb lit].
      rewrite (forallb_impl _ _ _ u hex_is_no_f Hu). reflexivity. }
  rewrite (app_assoc _ ("f"%char :: lit "ileRef = ")).
  replace (List.length ([TAB; TAB] ++ u ++ lit "  = {isa = PBXBuildFile; ") + 10)
    with (List.length (([TAB; TAB] ++ u ++ lit "  = {isa = PBXBuildFile; ")
                       ++ "f"%char :: lit "ileRef = "))
    by (rewrite (length_app _ ("f"%char :: lit "ileRef = ")); reflexivity).
  rewrite skipn_app, Nat.sub_diag, skipn_all. cbn [skipn app].
  apply value_of_identifier, Hf.
Qed.

Lemma swift_back_references (urandom : nat -> N) (swift_files : list str) :
  forall d : nat,
    map file_ref_of (swift_build_file_refs urandom d swift_files)
    = map record_id (swift_file_references urandom d swift_files).
Proof.
  induction swift_files as [|f l IH]; intros d; [reflexivity|].
  cbn [swift_build_file_refs swift_file_references map].
  rewrite IH, record_id_file_reference.
  rewrite file_ref_of_build_file_line;
    [reflexivity | apply generate_uuid_hex | apply basename_no_slash
    | apply generate_uuid_hex].
Qed.

Lemma swift_reference_ids (urandom : nat -> N) (swift_files : list str) :
  forall d : nat,
    Forall is_identifier (map record_id (swift_file_references urandom d swift_files)).
Proof.
  induction swift_files as [|f l IH]; intros d; cbn [swift_file_references map];
    constructor; [|apply IH].
  rewrite record_id_file_reference.
  split; [apply generate_uuid_length | apply generate_uuid_hex].
Qed.

(** C9: in every run, from whatever state the synthesis starts, it
    returns normally with as many PBXBuildFile lines as PBXFileReference
    lines, and the back-reference of each PBXBuildFile line (the value of
    its field [fileRef], read from the text of the line) is the identifier
    at the head of the PBXFileReference line made with it, the line at the
    same place of the other list; these identifiers are 24 characters of
    [[A-F0-9]]. *)
Theorem build_files_reference_synthesized_files :
  forall (urandom : nat -> N) (swift_files : list str) (st : state),
    match synthesize urandom swift_files st with
    | (inr (_, _, file_references, build_file_refs), _) =>
        List.length build_file_refs = List.length file_references /\
        map file_ref_of build_file_refs = map record_id file_references /\
        Forall is_identifier (map record_id file_references) /\
        Forall (fun b => In (file_ref_of b) (map record_id file_references))
               build_file_refs
    | (inl _, _) => False
    end.
Proof.
  intros urandom swift_files st. rewrite synthesize_outline.
  assert (Hmap : map file_ref_of (all_build_file_refs urandom (draws st) swift_files)
                 = map record_id (all_file_references urandom (draws st) swift_files)).
  { unfold all_build_file_refs, all_file_references. cbn [map].
    rewrite swift_back_references, record_id_file_reference.
    rewrite file_ref_of_build_file_line;
      [reflexivity | apply generate_uuid_hex | reflexivity | apply generate_uuid_hex]. }
  split; [|split; [exact Hmap|split]].
  - rewrite <- (length_map file_ref_of), Hmap. apply length_map.
  - unfold all_file_references. cbn [map]. constructor; [|apply swift_reference_ids].
    rewrite record_id_file_reference.
    split; [apply generate_uuid_length | apply generate_uuid_hex].
  - apply Forall_forall. intros b Hb. rewrite <- Hmap.
    apply in_map, Hb.
Qed.

(** ** The entries of the phase list when every source finds its own build file *)

Section OwnBuildFile.

Variable urandom : nat -> N.








End OwnBuildFile.

(** ** The end-to-end scenario *)


(** ** Searching a text in which something was inserted *)








(** ** What a pattern captures in a patched descriptor *)




(** ** The lines of a patched region *)













Lemma filter_all (A : Type) (p : A -> bool) (l : list A) :
  Forall (fun x => p x = true) l -> filter p l = l.
Proof.
  induction 1 as [|x l Hx _ IH]; [reflexivity|].
  cbn [filter]. now rewrite Hx, IH.
Qed.

(** ** The shape of the records and entries of a run *)




Section Shapes.

Variable urandom : nat -> N.






End Shapes.

(** ** The entries of a patched region *)









(** ** A second run *)



(** In the scenario the sources have plain names, and the text captured
    for each region occurs once, in the descriptor and in the descriptor
    the first run wrote. *)
Lemma scenario_captures_occur_once :
  forallb plain_source [lit "A.swift"; lit "B.swift"] = true /\
  map (fun r => option_map (fun old => occurrences old scenario_descriptor)
                           (region_text r scenario_descriptor))
      all_regions
  = [Some 1; Some 1; Some 1; Some 1] /\
  option_map
    (fun once =>
       map (fun r => option_map (fun old => occurrences old once) (region_text r once))
           all_regions)
    scenario_after_one_run
  = Some [Some 1; Some 1; Some 1; Some 1].
Proof. vm_compute. repeat split. Qed.
